(** * Retro 1v1 chat relay: room registry, relay engine and heartbeat

    Shallow embedding of the WebSocket relay found twice in the repository:

    - [ServerJs]  embeds  src/server/server.js  (rooms only, listing of the
      active rooms in registry order);
    - [Part000]   embeds  src/unnamed/part_000  (adds the [invalid_room]
      rejection, the historical set [allRooms], the activity map
      [roomUpdated] and the sorted listing with a scope).

    Both programs keep [rooms : Map<roomId, Set<ws>>].  A JavaScript [Map]
    holds references to [Set] objects, and a handler may keep using a [Set]
    after its entry was deleted from the [Map]; the registry is therefore
    modelled as an insertion-ordered association list from room ids to
    references into a store of [Set] objects.

    Conventions of the embedding:
    - a connection is identified by its allocation index (the n-th socket
      handed to the ["connection"] listener);
    - strings are sequences of code units, here restricted to code units
      below 256 ([Stdlib.Strings.String]);
    - [JSON.stringify] is injective on the four payload shapes, so an
      outbound frame is kept as a structured [payload];
    - every call of [ws.send], [ws.close], [ws.terminate] and [ws.ping]
      is recorded, in program order, in the list of effects of a handler;
    - [Date.now()] is an input of the event being handled. *)

From Stdlib Require Import String Ascii ZArith Bool Arith Lia List.
From Stdlib Require Import Permutation Sorted.
Import ListNotations.

Local Open Scope string_scope.
Local Open Scope list_scope.
Local Open Scope nat_scope.

(* ------------------------------------------------------------------ *)
(** ** JavaScript strings *)

Module Js.

(** [s.slice(0, n)] *)
Definition slice0 (n : nat) (s : string) : string := substring 0 n s.

(** White space and line terminators removed by [String.prototype.trim],
    among the code units below 256: TAB, LF, VT, FF, CR, SP, NBSP. *)
Definition is_white_space (c : ascii) : bool :=
  let n := nat_of_ascii c in
  (((9 <=? n) && (n <=? 13)) || (n =? 32) || (n =? 160))%nat.

Fixpoint trim_start (s : string) : string :=
  match s with
  | EmptyString => EmptyString
  | String c s' => if is_white_space c then trim_start s' else s
  end.

Fixpoint trim_end (s : string) : string :=
  match s with
  | EmptyString => EmptyString
  | String c s' =>
      match trim_end s' with
      | EmptyString => if is_white_space c then EmptyString else String c EmptyString
      | t => String c t
      end
  end.

(** [s.trim()] *)
Definition trim (s : string) : string := trim_end (trim_start s).

(** Truthiness of a string value: only the empty string is falsy. *)
Definition truthy (s : string) : bool := negb (s =? "")%string.

(** [String(v || dflt)] for a field [v] of a parsed message.  [None] stands
    for an absent, [null] or otherwise falsy field, [Some x] for the string
    [String(v)] of a present one (the empty string is falsy as well). *)
Definition or_default (v : option string) (dflt : string) : string :=
  match v with
  | Some x => if truthy x then x else dflt
  | None => dflt
  end.

(** *** [Map] with string keys, in insertion order *)

Section MapOps.
Context {V : Type}.

Fixpoint map_get (k : string) (m : list (string * V)) : option V :=
  match m with
  | [] => None
  | (k', v) :: m' => if (k' =? k)%string then Some v else map_get k m'
  end.

Definition map_has (k : string) (m : list (string * V)) : bool :=
  match map_get k m with Some _ => true | None => false end.

(** [m.set(k, v)]: an existing key keeps its position. *)
Fixpoint map_set (k : string) (v : V) (m : list (string * V)) : list (string * V) :=
  match m with
  | [] => [(k, v)]
  | (k', v') :: m' =>
      if (k' =? k)%string then (k, v) :: m' else (k', v') :: map_set k v m'
  end.

Definition map_delete (k : string) (m : list (string * V)) : list (string * V) :=
  filter (fun p => negb (fst p =? k)%string) m.
End MapOps.

(** *** [Set], in insertion order *)

Definition set_has (x : nat) (l : list nat) : bool := existsb (Nat.eqb x) l.

Definition set_add (x : nat) (l : list nat) : list nat :=
  if set_has x l then l else l ++ [x].

Definition set_delete (x : nat) (l : list nat) : list nat :=
  filter (fun y => negb (Nat.eqb y x)) l.

(** [Set.prototype.add] on the string set [allRooms]. *)
Definition sset_add (x : string) (l : list string) : list string :=
  if existsb (String.eqb x) l then l else l ++ [x].

(** *** [Array.prototype.sort] with a comparator

    The sort of ECMAScript is stable; for a consistent comparator its
    result is the stable arrangement computed here by insertion. *)
Section Sort.
Context {A : Type} (cmp : A -> A -> Z).

Fixpoint sort_insert (x : A) (l : list A) : list A :=
  match l with
  | [] => [x]
  | y :: l' => if (cmp x y <=? 0)%Z then x :: y :: l' else y :: sort_insert x l'
  end.

Fixpoint sort (l : list A) : list A :=
  match l with
  | [] => []
  | x :: l' => sort_insert x (sort l')
  end.
End Sort.

End Js.

(* ------------------------------------------------------------------ *)
(** ** Connections, registry and effects *)

(** Sockets are named by their allocation index. *)
Abbreviation conn := nat (only parsing).

(** [ws.readyState]: 1, 2, 3 (a socket handed to the server is never
    observed in state 0, CONNECTING). *)
Inductive readyState := OPEN | CLOSING | CLOSED.

Definition is_open (r : readyState) : bool :=
  match r with OPEN => true | _ => false end.

(** The per-connection meta object [{ id, room, name }]; [id] is a random
    UUID that is never read and is left out. *)
Record meta := Meta { room : option string; name : string }.

Record connection := Connection_ {
  ready : readyState;
  isAlive : bool;
  c_meta : meta
}.

Record state := State {
  conns : list connection;          (* every socket accepted so far *)
  rooms : list (string * nat);      (* rooms : Map<roomId, Set<ws>> *)
  sets : list (list conn);          (* the Set objects, by reference *)
  allRooms : list string;           (* part_000 only *)
  roomUpdated : list (string * Z)   (* part_000 only *)
}.

Definition init : state := State [] [] [] [] [].

(** Outbound frames. *)
Inductive payload :=
| PJoined (room you : string)
| PError (reason : string)
| PSystem (text : string)
| PMsg (name text : string) (ts : Z).

Inductive effect :=
| Send (ws : conn) (p : payload)
| Close (ws : conn) (code : Z) (reason : string)
| Terminate (ws : conn)
| Ping (ws : conn).

(** A parsed inbound frame, as far as the handlers look at it. *)
Record message := Msg {
  msg_type : option string;
  msg_room : option string;
  msg_name : option string;
  msg_text : option string
}.

(** The presence notices [`${name} 加入了房间`] and [`${name} 离开了房间`];
    the literal part is kept as its UTF-8 bytes. *)
Definition joined_text (n : string) : string := (n ++ " 加入了房间")%string.
Definition left_text (n : string) : string := (n ++ " 离开了房间")%string.

(* ------------------------------------------------------------------ *)
(** ** Operations shared by the two programs *)

Fixpoint upd_nth {A : Type} (i : nat) (f : A -> A) (l : list A) : list A :=
  match l, i with
  | [], _ => []
  | x :: l', O => f x :: l'
  | x :: l', S i' => x :: upd_nth i' f l'
  end.

(** What a socket that was never accepted looks like; only read through
    [get_conn] out of range, which the dispatcher excludes. *)
Definition no_conn : connection := Connection_ CLOSED false (Meta None "Anonymous").

(** State of a socket on ["connection"]: [readyState] 1, [isAlive = true],
    meta [{ room: null, name: "Anonymous" }]. *)
Definition new_conn : connection := Connection_ OPEN true (Meta None "Anonymous").

Definition get_conn (ws : conn) (s : state) : connection := nth ws (conns s) no_conn.

Definition get_meta (ws : conn) (s : state) : meta := c_meta (get_conn ws s).

Definition ready_of (ws : conn) (s : state) : readyState := ready (get_conn ws s).

Definition set_conns (cs : list connection) (s : state) : state :=
  State cs (rooms s) (sets s) (allRooms s) (roomUpdated s).

Definition set_rooms (m : list (string * nat)) (s : state) : state :=
  State (conns s) m (sets s) (allRooms s) (roomUpdated s).

Definition set_sets (h : list (list conn)) (s : state) : state :=
  State (conns s) (rooms s) h (allRooms s) (roomUpdated s).

Definition upd_conn (ws : conn) (f : connection -> connection) (s : state) : state :=
  set_conns (upd_nth ws f (conns s)) s.

Definition with_ready (r : readyState) (c : connection) : connection :=
  Connection_ r (isAlive c) (c_meta c).

Definition with_alive (b : bool) (c : connection) : connection :=
  Connection_ (ready c) b (c_meta c).

Definition with_meta (m : meta) (c : connection) : connection :=
  Connection_ (ready c) (isAlive c) m.

Definition set_meta (ws : conn) (m : meta) (s : state) : state :=
  upd_conn ws (with_meta m) s.

(** [ws.close(code, reason)]: an open socket starts its closing handshake,
    [readyState] becomes 2; the ["close"] event comes later. *)
Definition closing (c : connection) : connection :=
  match ready c with OPEN => with_ready CLOSING c | _ => c end.

Definition ws_close (ws : conn) (s : state) : state := upd_conn ws closing s.

(** A socket is tracked (a member of [wss.clients], its listeners
    attached) from ["connection"] until its ["close"] event. *)
Definition tracked (ws : conn) (s : state) : bool :=
  (ws <? length (conns s))%nat &&
  match ready_of ws s with CLOSED => false | _ => true end.

(** The [Set] object behind a reference, and its mutations. *)
Definition members (r : nat) (s : state) : list conn := nth r (sets s) [].

Definition set_size (r : nat) (s : state) : nat := length (members r s).

Definition sets_add (r : nat) (ws : conn) (s : state) : state :=
  set_sets (upd_nth r (Js.set_add ws) (sets s)) s.

Definition sets_delete (r : nat) (ws : conn) (s : state) : state :=
  set_sets (upd_nth r (Js.set_delete ws) (sets s)) s.

Definition rooms_delete (k : string) (s : state) : state :=
  set_rooms (Js.map_delete k (rooms s)) s.

(** [if (!rooms.has(roomId)) rooms.set(roomId, new Set());
     const set = rooms.get(roomId);] *)
Definition get_or_create (roomId : string) (s : state) : nat * state :=
  match Js.map_get roomId (rooms s) with
  | Some r => (r, s)
  | None =>
      let r := length (sets s) in
      (r, set_rooms (Js.map_set roomId r (rooms s)) (set_sets (sets s ++ [[]]) s))
  end.

Definition is_except (except : option conn) (c : conn) : bool :=
  match except with Some x => Nat.eqb c x | None => false end.

(** The members of a [Set] that [broadcast] sends to. *)
Definition recipients (r : nat) (except : option conn) (s : state) : list conn :=
  filter (fun c => is_open (ready_of c s) && negb (is_except except c)) (members r s).

(** [broadcast(roomId, payload, exceptWs)] *)
Definition broadcast (roomId : string) (p : payload) (except : option conn)
    (s : state) : list effect :=
  match Js.map_get roomId (rooms s) with
  | None => []
  | Some r => map (fun c => Send c p) (recipients r except s)
  end.

(** The room reference of a meta object when it is truthy
    ([m.room &&], [!m?.room], [!meta.room]). *)
Definition truthy_room (m : meta) : option string :=
  match room m with
  | Some r => if Js.truthy r then Some r else None
  | None => None
  end.

(** Leaving the old room inside a join:
    server.js lines 72-75 and part_000 lines 89-93 are the same statements,
    [if (m.room && rooms.has(m.room)) { rooms.get(m.room).delete(ws);
        if (rooms.get(m.room).size === 0) rooms.delete(m.room); }]. *)
Definition leave_old (ws : conn) (s : state) : state :=
  match truthy_room (get_meta ws s) with
  | Some old =>
      match Js.map_get old (rooms s) with
      | Some oldSet =>
          let s1 := sets_delete oldSet ws s in
          if (set_size oldSet s1 =? 0)%nat then rooms_delete old s1 else s1
      | None => s
      end
  | None => s
  end.

(** [const roomId = String(msg.room || "").slice(0, 64);] and
    [const name = String(msg.name || "Anonymous").slice(0, 32);] *)
Definition join_room (msg : message) : string :=
  Js.slice0 64 (Js.or_default (msg_room msg) "").

Definition join_name (msg : message) : string :=
  Js.slice0 32 (Js.or_default (msg_name msg) "Anonymous").

(** The text of a [msg] frame that is relayed, if any:
    [String(msg.text || "").trim()], dropped when empty or longer than
    2000. *)
Definition accepted_text (msg : message) : option string :=
  let text := Js.trim (Js.or_default (msg_text msg) "") in
  if negb (Js.truthy text) || (2000 <? String.length text)%nat then None else Some text.

(** The loop of the interval callback over [wss.clients], the sockets that
    are not yet closed, in the order they were accepted; [i] is the index
    of the head of [cs].  [ws.terminate()] destroys the socket, whose
    [readyState] becomes 2 until its ["close"] event. *)
Fixpoint heartbeat_from (i : conn) (cs : list connection) : list connection * list effect :=
  match cs with
  | [] => ([], [])
  | c :: cs' =>
      let (cs1, es) := heartbeat_from (S i) cs' in
      match ready c with
      | CLOSED => (c :: cs1, es)
      | _ =>
          if isAlive c then (with_alive false c :: cs1, Ping i :: es)
          else (closing c :: cs1, Terminate i :: es)
      end
  end.

(** One run of the interval callback: [for (const ws of wss.clients)
    { if (ws.isAlive === false) { ws.terminate(); continue; }
      ws.isAlive = false; try { ws.ping(); } catch {} }]. *)
Definition heartbeat (s : state) : state * list effect :=
  let (cs, es) := heartbeat_from 0 (conns s) in (set_conns cs s, es).

(** The period of the interval timer, in milliseconds
    ([setInterval(..., 30000)]), and the time of its [k]-th run when it was
    started at [t0]. *)
Definition heartbeat_interval : Z := 30000.

Definition tick_time (t0 : Z) (k : nat) : Z :=
  (t0 + Z.of_nat k * heartbeat_interval)%Z.

(* ------------------------------------------------------------------ *)
(** ** src/server/server.js *)

Module ServerJs.

(** The [join] branch of the ["message"] listener (lines 56-83). *)
Definition on_join (ws : conn) (msg : message) (s : state) : state * list effect :=
  let roomId := join_room msg in
  let name := join_name msg in
  let (set, s1) := get_or_create roomId s in
  if (2 <=? set_size set s1)%nat then
    (ws_close ws s1,
     [Send ws (PError "room_full"); Close ws 1008 "Room full"])
  else
    let s2 := leave_old ws s1 in
    (* [set] is the object read before the migration: when the migration
       deleted its entry, the add goes to a detached Set *)
    let s3 := sets_add set ws s2 in
    let s4 := set_meta ws (Meta (Some roomId) name) s3 in
    (s4,
     Send ws (PJoined roomId name)
       :: broadcast roomId (PSystem (joined_text name)) (Some ws) s4).

(** The [msg] branch (lines 85-101). *)
Definition on_msg (ws : conn) (msg : message) (now : Z) (s : state) : state * list effect :=
  let m := get_meta ws s in
  match truthy_room m with
  | None => (s, [])
  | Some r =>
      match accepted_text msg with
      | None => (s, [])
      | Some text =>
          let p := PMsg (name m) text now in
          (s, Send ws p :: broadcast r p (Some ws) s)
      end
  end.

(** The ["message"] listener; [data] is [safeJson(buf.toString())], [None]
    when it is [null] or falsy. *)
Definition on_message (ws : conn) (data : option message) (now : Z) (s : state)
    : state * list effect :=
  match data with
  | None => (s, [])
  | Some msg =>
      match msg_type msg with
      | Some t =>
          if (t =? "join")%string then on_join ws msg s
          else if (t =? "msg")%string then on_msg ws msg now s
          else (s, [])
      | None => (s, [])
      end
  end.

(** The ["close"] listener (lines 104-112). *)
Definition on_close (ws : conn) (s : state) : state * list effect :=
  let m := get_meta ws s in
  match truthy_room m with
  | None => (s, [])
  | Some r =>
      match Js.map_get r (rooms s) with
      | None => (s, [])
      | Some set =>
          let s1 := sets_delete set ws s in
          if (set_size set s1 =? 0)%nat then (rooms_delete r s1, [])
          else (s1, broadcast r (PSystem (left_text (name m))) None s1)
      end
  end.

(** [GET /api/rooms] (lines 41-47); the request is not looked at. *)
Definition list_rooms (s : state) : list string :=
  map fst (filter (fun p => (0 <? set_size (snd p) s)%nat) (rooms s)).

End ServerJs.

(* ------------------------------------------------------------------ *)
(** ** src/unnamed/part_000 *)

Module Part000.

(** [touch(roomId)] *)
Definition touch (roomId : string) (now : Z) (s : state) : state :=
  State (conns s) (rooms s) (sets s) (allRooms s)
        (Js.map_set roomId now (roomUpdated s)).

Definition allRooms_add (roomId : string) (s : state) : state :=
  State (conns s) (rooms s) (sets s) (Js.sset_add roomId (allRooms s))
        (roomUpdated s).

(** The [join] branch of the ["message"] listener (lines 79-118). *)
Definition on_join (ws : conn) (msg : message) (now : Z) (s : state)
    : state * list effect :=
  let roomId := join_room msg in
  let name := join_name msg in
  if negb (Js.truthy roomId) then
    (s, [Send ws (PError "invalid_room")])
  else
    let s1 := leave_old ws s in
    let (set, s2) := get_or_create roomId s1 in
    if (2 <=? set_size set s2)%nat then
      (ws_close ws s2,
       [Send ws (PError "room_full"); Close ws 1008 "Room full"])
    else
      let s3 := sets_add set ws s2 in
      let s4 := set_meta ws (Meta (Some roomId) name) s3 in
      let s5 := touch roomId now (allRooms_add roomId s4) in
      (s5,
       Send ws (PJoined roomId name)
         :: broadcast roomId (PSystem (joined_text name)) (Some ws) s5).

(** The [msg] branch (lines 121-134). *)
Definition on_msg (ws : conn) (msg : message) (now : Z) (s : state) : state * list effect :=
  let m := get_meta ws s in
  match truthy_room m with
  | None => (s, [])
  | Some r =>
      match accepted_text msg with
      | None => (s, [])
      | Some text =>
          let p := PMsg (name m) text now in
          (touch r now s, Send ws p :: broadcast r p (Some ws) s)
      end
  end.

Definition on_message (ws : conn) (data : option message) (now : Z) (s : state)
    : state * list effect :=
  match data with
  | None => (s, [])
  | Some msg =>
      match msg_type msg with
      | Some t =>
          if (t =? "join")%string then on_join ws msg now s
          else if (t =? "msg")%string then on_msg ws msg now s
          else (s, [])
      | None => (s, [])
      end
  end.

(** The ["close"] listener (lines 137-149). *)
Definition on_close (ws : conn) (now : Z) (s : state) : state * list effect :=
  let m := get_meta ws s in
  match truthy_room m with
  | None => (s, [])
  | Some r =>
      match Js.map_get r (rooms s) with
      | None => (s, [])
      | Some set =>
          let s1 := sets_delete set ws s in
          if (set_size set s1 =? 0)%nat then (touch r now (rooms_delete r s1), [])
          else (touch r now s1, broadcast r (PSystem (left_text (name m))) None s1)
      end
  end.

(** [roomUpdated.get(x) || 0] *)
Definition activity (s : state) (x : string) : Z :=
  match Js.map_get x (roomUpdated s) with Some t => t | None => 0%Z end.

(** [GET /api/rooms?scope=active|all] (lines 55-67); [scope] is
    [req.query.scope]. *)
Definition list_rooms (scope : option string) (s : state) : list string :=
  let scope := Js.or_default scope "active" in
  let list :=
    if (scope =? "all")%string then allRooms s
    else map fst (filter (fun p => (0 <? set_size (snd p) s)%nat) (rooms s)) in
  Js.sort (fun a b => (activity s b - activity s a)%Z) list.

End Part000.

(* ------------------------------------------------------------------ *)
(** ** The event loop *)

Inductive variant := server_js | part_000.

(** What the transport and the timer deliver to the program.  Each event
    runs its listener to completion.  [Connect] is a new socket, named by
    the next index; [now] is what [Date.now()] returns during the event.
    [Closing ws] is the transport moving an open socket to [readyState] 2
    by itself (the peer started the closing handshake); no listener runs.
    Frames may still arrive on a socket whose close has started: nothing
    in the programs excludes it. *)
Inductive event :=
| Connect
| Message (ws : conn) (data : option message) (now : Z)
| CloseEv (ws : conn) (now : Z)
| Pong (ws : conn)
| Tick
| Closing (ws : conn).

Definition on_message (v : variant) :=
  match v with
  | server_js => ServerJs.on_message
  | part_000 => Part000.on_message
  end.

Definition on_close (v : variant) (ws : conn) (now : Z) (s : state) :=
  match v with
  | server_js => ServerJs.on_close ws s
  | part_000 => Part000.on_close ws now s
  end.

(** Listeners run only for tracked sockets; the ["close"] event finds the
    socket in [readyState] 3 and untracks it, so that it fires once. *)
Definition handle (v : variant) (s : state) (e : event) : state * list effect :=
  match e with
  | Connect => (set_conns (conns s ++ [new_conn]) s, [])
  | Message ws data now =>
      if tracked ws s then on_message v ws data now s else (s, [])
  | CloseEv ws now =>
      if tracked ws s then on_close v ws now (upd_conn ws (with_ready CLOSED) s)
      else (s, [])
  | Pong ws =>
      if tracked ws s then (upd_conn ws (with_alive true) s, []) else (s, [])
  | Tick => heartbeat s
  | Closing ws =>
      if tracked ws s then (ws_close ws s, []) else (s, [])
  end.

(** The events in turn; the effects of all listeners, in order. *)
Fixpoint run (v : variant) (s : state) (es : list event) : state * list effect :=
  match es with
  | [] => (s, [])
  | e :: es' =>
      let (s1, o1) := handle v s e in
      let (s2, o2) := run v s1 es' in
      (s2, o1 ++ o2)
  end.

(** State and outbound trace of the server after a sequence of events. *)
Definition state_after (v : variant) (es : list event) : state := fst (run v init es).
Definition trace_of (v : variant) (es : list event) : list effect := snd (run v init es).

(** Inbound frames [{type: "join", room, name}] and [{type: "msg", text}]. *)
Definition join (r n : string) : option message :=
  Some (Msg (Some "join") (Some r) (Some n) None).
Definition say (t : string) : option message :=
  Some (Msg (Some "msg") None None (Some t)).

(** The members of a room as the registry sees them. *)
Definition room_members (s : state) (roomId : string) : list conn :=
  match Js.map_get roomId (rooms s) with
  | Some r => members r s
  | None => []
  end.



(* ------------------------------------------------------------------ *)
(** ** Invariants of the registry *)

(** What both programs maintain between two events: the [Map] has one
    entry per key, two entries never share a [Set] object, every [Set]
    object holds at most two distinct sockets, and a socket found in the
    [Set] of a room with a truthy id refers to that room. *)
Record wf (s : state) : Prop := Wf {
  wf_keys : NoDup (map fst (rooms s));
  wf_refs : forall k1 k2 r,
      Js.map_get k1 (rooms s) = Some r -> Js.map_get k2 (rooms s) = Some r -> k1 = k2;
  wf_bound : forall k r, Js.map_get k (rooms s) = Some r -> r < length (sets s);
  wf_size : forall r, length (members r s) <= 2;
  wf_nodup : forall r, NoDup (members r s);
  wf_member : forall c k r,
      Js.map_get k (rooms s) = Some r -> Js.truthy k = true ->
      In c (members r s) -> room (get_meta c s) = Some k
}.

(** What part_000 maintains in addition. *)
Record wf_part_000 (s : state) : Prop := WfB {
  b_key : forall k r, Js.map_get k (rooms s) = Some r -> Js.truthy k = true;
  b_room : forall c k, room (get_meta c s) = Some k -> Js.truthy k = true;
  b_open : forall c k,
      ready_of c s = OPEN -> room (get_meta c s) = Some k -> In c (room_members s k);
  b_seen : forall c k, room (get_meta c s) = Some k -> In k (allRooms s);
  b_seen_key : forall k r, Js.map_get k (rooms s) = Some r -> In k (allRooms s)
}.

(** Updates of a socket that leave its meta object alone. *)
Definition keeps_meta (f : connection -> connection) : Prop :=
  forall c, c_meta (f c) = c_meta c.

(** What one run of the interval callback does to one socket. *)
Definition beat (c : connection) : connection :=
  match ready c with
  | CLOSED => c
  | _ => if isAlive c then with_alive false c else closing c
  end.

(** Frames addressed to one socket. *)
Definition sent_to (p : conn) (e : effect) : bool :=
  match e with
  | Send c _ => Nat.eqb c p
  | _ => false
  end.

(** The listing of the active rooms in either program. *)
Definition active_rooms (v : variant) (s : state) : list string :=
  match v with
  | server_js => ServerJs.list_rooms s
  | part_000 => Part000.list_rooms (Some "active"%string) s
  end.

(** A list of effects without a join acknowledgement for room [k]. *)
Definition no_joined (k : string) (out : list effect) : Prop :=
  forall c n, ~ In (Send c (PJoined k n)) out.

(** Updates of a socket that leave [isAlive] alone and neither reach nor
    leave [readyState] 3. *)
Definition steady (f : connection -> connection) : Prop :=
  forall c, isAlive (f c) = isAlive c /\ (ready (f c) = CLOSED <-> ready c = CLOSED).

(** Events that are neither a pong of [ws] nor its ["close"]. *)
Definition quiet (ws : conn) (e : event) : bool :=
  match e with
  | Pong c => negb (Nat.eqb c ws)
  | CloseEv c _ => negb (Nat.eqb c ws)
  | _ => true
  end.

(** A tracked socket whose liveness flag is false. *)
Definition flagged (ws : conn) (s : state) : Prop :=
  ws < length (conns s) /\ ready_of ws s <> CLOSED /\ isAlive (get_conn ws s) = false.

(** The socket that an event makes join, if any. *)
Definition joiner (e : event) : option conn :=
  match e with
  | Message ws (Some m) _ =>
      match msg_type m with
      | Some t => if (t =? "join")%string then Some ws else None
      | None => None
      end
  | _ => None
  end.

Definition joins_of (ws : conn) (e : event) : bool :=
  match joiner e with Some c => Nat.eqb c ws | None => false end.

(** The room id of a join frame is not empty after truncation. *)
Definition join_ok (e : event) : bool :=
  match e with
  | Message _ (Some m) _ =>
      match msg_type m with
      | Some t => if (t =? "join")%string then Js.truthy (join_room m) else true
      | None => true
      end
  | _ => true
  end.

(** Sequences of events in which every join frame names a non-empty room
    and no socket sends a second join frame. *)
Fixpoint first_joins (es : list event) : bool :=
  match es with
  | [] => true
  | e :: es' =>
      join_ok e
      && negb (match joiner e with
               | Some ws => existsb (joins_of ws) es'
               | None => false
               end)
      && first_joins es'
  end.

(** What the two programs have in common: the sockets and the registry. *)
Definition same_core (s t : state) : Prop :=
  conns s = conns t /\ rooms s = rooms t /\ sets s = sets t.

(** Strings that do not start with white space. *)
Definition starts_clean (s : string) : Prop :=
  match s with
  | EmptyString => True
  | String c _ => Js.is_white_space c = false
  end.

(** Every registry entry whose key satisfies [P] has a non-empty [Set]. *)
Definition populated_on (P : string -> Prop) (s : state) : Prop :=
  forall k r, P k -> Js.map_get k (rooms s) = Some r -> members r s <> [].

(** The historical record of part_000: [allRooms] holds no id twice and
    every id in it has an entry in [roomUpdated]. *)
Definition history_ok (s : state) : Prop :=
  NoDup (allRooms s) /\
  forall k, In k (allRooms s) -> Js.map_get k (roomUpdated s) <> None.

(** The socket an effect is addressed to. *)
Definition target (e : effect) : conn :=
  match e with
  | Send c _ => c
  | Close c _ _ => c
  | Terminate c => c
  | Ping c => c
  end.

(** Events that are neither a tick nor the ["close"] of [ws]. *)
Definition calm (ws : conn) (e : event) : bool :=
  match e with
  | Tick => false
  | CloseEv c _ => negb (Nat.eqb c ws)
  | _ => true
  end.

(** A tracked socket whose liveness flag is true. *)
Definition lively (ws : conn) (s : state) : Prop :=
  ws < length (conns s) /\ ready_of ws s <> CLOSED /\ isAlive (get_conn ws s) = true.

(** A socket whose ["close"] event has happened. *)
Definition closed (c : conn) (s : state) : Prop :=
  c < length (conns s) /\ ready_of c s = CLOSED.
(* ------------------------------------------------------------------ *)
(** ** Facts about the JavaScript containers *)

Section ListFacts.
Context {A : Type}.

Lemma length_upd_nth (i : nat) (f : A -> A) (l : list A) :
  length (upd_nth i f l) = length l.
Proof.
  revert i; induction l as [|x l IH]; intros [|i]; simpl; auto.
Qed.

Lemma nth_upd_nth_same (i : nat) (f : A -> A) (l : list A) (d : A) :
  i < length l -> nth i (upd_nth i f l) d = f (nth i l d).
Proof.
  revert i; induction l as [|x l IH]; intros [|i] H; simpl in *; try lia; auto.
  apply IH; lia.
Qed.

Lemma nth_upd_nth_other (i j : nat) (f : A -> A) (l : list A) (d : A) :
  i <> j -> nth j (upd_nth i f l) d = nth j l d.
Proof.
  revert i j; induction l as [|x l IH]; intros [|i] [|j] H; simpl; auto; try lia.
Qed.

Lemma upd_nth_out (i : nat) (f : A -> A) (l : list A) :
  length l <= i -> upd_nth i f l = l.
Proof.
  revert i; induction l as [|x l IH]; intros [|i] H; simpl in *; auto; try lia.
  f_equal; apply IH; lia.
Qed.

(** A function that fixes the default commutes with [nth] even out of
    range. *)
Lemma nth_upd_nth_fix (i : nat) (f : A -> A) (l : list A) (d : A) :
  f d = d -> nth i (upd_nth i f l) d = f (nth i l d).
Proof.
  intro Hd. destruct (Nat.lt_ge_cases i (length l)) as [H|H].
  - now apply nth_upd_nth_same.
  - rewrite upd_nth_out by assumption. now rewrite (nth_overflow l d H).
Qed.

End ListFacts.

Section MapFacts.
Context {V : Type}.
Implicit Types (m : list (string * V)) (k : string).

Lemma map_get_In k v m : Js.map_get k m = Some v -> In (k, v) m.
Proof.
  induction m as [|[k' v'] m IH]; simpl; [discriminate|].
  destruct (String.eqb_spec k' k) as [->|Hk].
  - intros [= ->]; now left.
  - intro H; right; auto.
Qed.

Lemma map_get_None k m : Js.map_get k m = None <-> ~ In k (map fst m).
Proof.
  induction m as [|[k' v'] m IH]; simpl; [tauto|].
  destruct (String.eqb_spec k' k) as [->|Hk].
  - split; [discriminate|]. intros H; exfalso; apply H; now left.
  - rewrite IH; split; intros H; [intros [E|E]; [congruence|tauto] | tauto].
Qed.

Lemma In_map_get k v m : NoDup (map fst m) -> In (k, v) m -> Js.map_get k m = Some v.
Proof.
  induction m as [|[k' v'] m IH]; simpl; [tauto|].
  intros Hnd [E|E]; inversion Hnd as [|? ? Hni Hnd']; subst.
  - inversion E; subst. now rewrite String.eqb_refl.
  - destruct (String.eqb_spec k' k) as [->|Hk]; [|auto].
    exfalso; apply Hni. change k with (fst (k, v)). now apply in_map.
Qed.

Lemma map_get_delete k k' m :
  Js.map_get k' (Js.map_delete k m) = if (k =? k')%string then None else Js.map_get k' m.
Proof.
  unfold Js.map_delete.
  induction m as [|[k0 v0] m IH]; simpl.
  - now destruct (k =? k')%string.
  - destruct (String.eqb_spec k0 k) as [->|Hk0]; simpl.
    + rewrite IH. destruct (String.eqb_spec k k'); auto.
    + destruct (String.eqb_spec k0 k') as [->|Hk0']; simpl.
      * destruct (String.eqb_spec k k'); [congruence|auto].
      * apply IH.
Qed.

Lemma map_get_set k v k' m :
  Js.map_get k' (Js.map_set k v m) = if (k =? k')%string then Some v else Js.map_get k' m.
Proof.
  induction m as [|[k0 v0] m IH]; simpl.
  - destruct (String.eqb_spec k k'); auto.
  - destruct (String.eqb_spec k0 k) as [->|Hk0]; simpl.
    + destruct (String.eqb_spec k k'); auto.
    + destruct (String.eqb_spec k0 k') as [->|Hk0']; simpl.
      * destruct (String.eqb_spec k k'); [congruence|auto].
      * apply IH.
Qed.

Lemma map_fst_set_fresh k v m :
  Js.map_get k m = None -> map fst (Js.map_set k v m) = map fst m ++ [k].
Proof.
  induction m as [|[k0 v0] m IH]; simpl; auto.
  destruct (String.eqb_spec k0 k) as [->|Hk0]; [discriminate|].
  intro H; simpl; f_equal; auto.
Qed.

Lemma map_fst_set_present k v m :
  Js.map_get k m <> None -> map fst (Js.map_set k v m) = map fst m.
Proof.
  induction m as [|[k0 v0] m IH]; simpl; [congruence|].
  destruct (String.eqb_spec k0 k) as [->|Hk0]; simpl; auto.
  intro H; f_equal; auto.
Qed.

Lemma NoDup_map_delete k m : NoDup (map fst m) -> NoDup (map fst (Js.map_delete k m)).
Proof.
  unfold Js.map_delete.
  induction m as [|[k0 v0] m IH]; simpl; auto.
  intro H; inversion H as [|? ? Hni Hnd]; subst.
  destruct (negb (k0 =? k)%string); simpl; auto.
  constructor; auto.
  intro Hin; apply Hni. apply in_map_iff in Hin as [[k1 v1] [E Hin]].
  apply filter_In in Hin as [Hin _]. simpl in E; subst.
  change k0 with (fst (k0, v1)). now apply in_map.
Qed.

End MapFacts.

Section SetFacts.
Implicit Types (x y : nat) (l : list nat).

Lemma set_has_In x l : Js.set_has x l = true <-> In x l.
Proof.
  unfold Js.set_has. rewrite existsb_exists. split.
  - intros [y [Hy E]]. apply Nat.eqb_eq in E. now subst.
  - intro H. exists x. split; auto. apply Nat.eqb_refl.
Qed.

Lemma In_set_add x y l : In y (Js.set_add x l) <-> y = x \/ In y l.
Proof.
  unfold Js.set_add. destruct (Js.set_has x l) eqn:E.
  - apply set_has_In in E. split; [tauto|]. intros [->|H]; auto.
  - rewrite in_app_iff; simpl. intuition.
Qed.

Lemma In_set_delete x y l : In y (Js.set_delete x l) <-> y <> x /\ In y l.
Proof.
  unfold Js.set_delete. rewrite filter_In.
  destruct (Nat.eqb_spec y x); simpl; intuition congruence.
Qed.

Lemma NoDup_set_add x l : NoDup l -> NoDup (Js.set_add x l).
Proof.
  unfold Js.set_add. intro H. destruct (Js.set_has x l) eqn:E; auto.
  apply NoDup_app; auto.
  - constructor; [tauto | constructor].
  - intros y Hy [<-|[]]. apply set_has_In in Hy. congruence.
Qed.

Lemma NoDup_set_delete x l : NoDup l -> NoDup (Js.set_delete x l).
Proof. apply NoDup_filter. Qed.

Lemma length_set_add x l : length (Js.set_add x l) <= S (length l).
Proof.
  unfold Js.set_add. destruct (Js.set_has x l); [lia|].
  rewrite length_app; simpl; lia.
Qed.

Lemma length_set_delete x l : length (Js.set_delete x l) <= length l.
Proof. apply filter_length_le. Qed.

Lemma set_delete_absent x l : ~ In x l -> Js.set_delete x l = l.
Proof.
  unfold Js.set_delete. induction l as [|y l IH]; simpl; auto.
  intro H. destruct (Nat.eqb_spec y x); simpl; [tauto|].
  f_equal; tauto.
Qed.

End SetFacts.

(* ------------------------------------------------------------------ *)
(** ** The primitive mutations *)

Lemma members_sets_delete r r' ws s :
  members r' (sets_delete r ws s) =
  if Nat.eqb r r' then Js.set_delete ws (members r s) else members r' s.
Proof.
  unfold members, sets_delete, set_sets; simpl.
  destruct (Nat.eqb_spec r r') as [->|H].
  - now apply nth_upd_nth_fix.
  - now apply nth_upd_nth_other.
Qed.

Lemma members_sets_add r r' ws s :
  r < length (sets s) ->
  members r' (sets_add r ws s) =
  if Nat.eqb r r' then Js.set_add ws (members r s) else members r' s.
Proof.
  intro Hr. unfold members, sets_add, set_sets; simpl.
  destruct (Nat.eqb_spec r r') as [->|H].
  - now apply nth_upd_nth_same.
  - now apply nth_upd_nth_other.
Qed.

Lemma members_alloc r s :
  members r (set_rooms (rooms s) (set_sets (sets s ++ [[]]) s)) = members r s.
Proof.
  unfold members, set_rooms, set_sets; simpl.
  destruct (Nat.lt_ge_cases r (length (sets s))) as [H|H].
  - now rewrite app_nth1.
  - rewrite app_nth2 by assumption. rewrite (nth_overflow (sets s) [] H).
    destruct (r - length (sets s)) as [|[|n]]; reflexivity.
Qed.

Lemma get_meta_set_meta ws c m s :
  ws < length (conns s) ->
  get_meta c (set_meta ws m s) = if Nat.eqb ws c then m else get_meta c s.
Proof.
  intro H. unfold get_meta, get_conn, set_meta, upd_conn, set_conns; simpl.
  destruct (Nat.eqb_spec ws c) as [->|Hc].
  - now rewrite nth_upd_nth_same.
  - now rewrite nth_upd_nth_other.
Qed.

Lemma get_meta_upd_conn ws c f s :
  keeps_meta f -> get_meta c (upd_conn ws f s) = get_meta c s.
Proof.
  intro Hf. unfold get_meta, get_conn, upd_conn, set_conns; simpl.
  destruct (Nat.eq_dec ws c) as [->|Hc].
  - destruct (Nat.lt_ge_cases c (length (conns s))) as [H|H].
    + rewrite nth_upd_nth_same by assumption. apply Hf.
    + now rewrite upd_nth_out.
  - now rewrite nth_upd_nth_other.
Qed.

Lemma keeps_meta_closing : keeps_meta closing.
Proof. intros [[] a m]; reflexivity. Qed.

Lemma keeps_meta_ready r : keeps_meta (with_ready r).
Proof. intros c; reflexivity. Qed.

Lemma keeps_meta_alive b : keeps_meta (with_alive b).
Proof. intros c; reflexivity. Qed.

(* ------------------------------------------------------------------ *)
(** ** Preservation of [wf] *)

Lemma members_same r s s' : sets s' = sets s -> members r s' = members r s.
Proof. unfold members; now intros ->. Qed.

Lemma wf_same s s' :
  rooms s' = rooms s -> sets s' = sets s ->
  (forall c, get_meta c s' = get_meta c s) -> wf s -> wf s'.
Proof.
  intros Hr Hs Hm [K R B Sz Nd M].
  constructor; try rewrite Hr; try rewrite Hs; auto.
  - intro r; rewrite (members_same r _ _ Hs); auto.
  - intro r; rewrite (members_same r _ _ Hs); auto.
  - intros c k r. rewrite (members_same r _ _ Hs), Hm. apply M.
Qed.

Lemma wf_init : wf init.
Proof.
  constructor; simpl; try discriminate.
  - constructor.
  - intros [|r]; simpl; lia.
  - intros [|r]; simpl; constructor.
Qed.

Lemma wf_upd_conn ws f s : keeps_meta f -> wf s -> wf (upd_conn ws f s).
Proof.
  intros Hf. apply wf_same; auto.
  intro c; now apply get_meta_upd_conn.
Qed.

Lemma wf_sets_delete r ws s : wf s -> wf (sets_delete r ws s).
Proof.
  intros [K R B Sz Nd M].
  constructor; auto.
  - intros k r0 H. unfold sets_delete, set_sets; simpl.
    rewrite length_upd_nth. now apply (B k).
  - intro r0. rewrite members_sets_delete.
    destruct (Nat.eqb r r0); auto.
    eapply Nat.le_trans; [apply length_set_delete | apply Sz].
  - intro r0. rewrite members_sets_delete.
    destruct (Nat.eqb r r0); auto. now apply NoDup_set_delete.
  - intros c k r0 Hk Ht. rewrite members_sets_delete.
    change (get_meta c (sets_delete r ws s)) with (get_meta c s).
    destruct (Nat.eqb_spec r r0) as [->|Hr].
    + intro H. apply In_set_delete in H as [_ H]. eapply M; eauto.
    + intro H. eapply M; eauto.
Qed.

Lemma wf_rooms_delete k s : wf s -> wf (rooms_delete k s).
Proof.
  intros [K R B Sz Nd M].
  constructor; auto.
  - now apply NoDup_map_delete.
  - intros k1 k2 r. unfold rooms_delete; simpl. rewrite !map_get_delete.
    destruct (k =? k1)%string, (k =? k2)%string; try discriminate. apply R.
  - intros k0 r. unfold rooms_delete; simpl. rewrite map_get_delete.
    destruct (k =? k0)%string; [discriminate|]. apply B.
  - intros c k0 r. unfold rooms_delete; simpl. rewrite map_get_delete.
    destruct (k =? k0)%string; [discriminate|]. apply M.
Qed.

Lemma wf_leave_old ws s : wf s -> wf (leave_old ws s).
Proof.
  intro H. unfold leave_old.
  destruct (truthy_room (get_meta ws s)) as [old|]; auto.
  destruct (Js.map_get old (rooms s)) as [oldSet|]; auto.
  destruct (set_size oldSet (sets_delete oldSet ws s) =? 0).
  - apply wf_rooms_delete. now apply wf_sets_delete.
  - now apply wf_sets_delete.
Qed.

Lemma get_or_create_spec roomId s :
  let r := fst (get_or_create roomId s) in
  let s' := snd (get_or_create roomId s) in
  Js.map_get roomId (rooms s') = Some r /\
  (forall k, k <> roomId -> Js.map_get k (rooms s') = Js.map_get k (rooms s)) /\
  (forall x, members x s' = members x s) /\
  conns s' = conns s /\ allRooms s' = allRooms s /\ roomUpdated s' = roomUpdated s /\
  (Js.map_get roomId (rooms s) = None -> r = length (sets s)) /\
  (forall r0, Js.map_get roomId (rooms s) = Some r0 -> s' = s).
Proof.
  unfold get_or_create.
  destruct (Js.map_get roomId (rooms s)) as [r0|] eqn:E; simpl.
  - repeat split; auto; try discriminate.
  - repeat split; auto; try discriminate.
    + rewrite map_get_set. now rewrite String.eqb_refl.
    + intros k Hk. rewrite map_get_set.
      destruct (String.eqb_spec roomId k); congruence.
    + intro x. apply (members_alloc x (set_rooms (Js.map_set roomId (length (sets s)) (rooms s)) s)).
Qed.

Lemma wf_get_or_create roomId s : wf s -> wf (snd (get_or_create roomId s)).
Proof.
  intros W. pose proof W as [K R B Sz Nd M].
  unfold get_or_create.
  destruct (Js.map_get roomId (rooms s)) as [r0|] eqn:E; simpl; auto.
  assert (Hmem : forall x, members x
     (set_rooms (Js.map_set roomId (length (sets s)) (rooms s))
        (set_sets (sets s ++ [[]]) s)) = members x s).
  { intro x. apply (members_alloc x (set_rooms (Js.map_set roomId (length (sets s)) (rooms s)) s)). }
  constructor; simpl.
  - rewrite map_fst_set_fresh by assumption.
    apply NoDup_app; auto.
    + constructor; [tauto|constructor].
    + intros x Hx [<-|[]]. now apply map_get_None in E.
  - intros k1 k2 r. rewrite !map_get_set.
    destruct (String.eqb_spec roomId k1) as [<-|H1], (String.eqb_spec roomId k2) as [<-|H2]; auto.
    + intros [= <-] H. apply B in H. lia.
    + intros H [= <-]. apply B in H. lia.
    + apply R.
  - intros k r. rewrite map_get_set, length_app; simpl.
    destruct (String.eqb_spec roomId k) as [<-|H1].
    + intros [= <-]. lia.
    + intro H. apply B in H. lia.
  - intro r. rewrite Hmem. apply Sz.
  - intro r. rewrite Hmem. apply Nd.
  - intros c k r. rewrite map_get_set, Hmem.
    destruct (String.eqb_spec roomId k) as [<-|H1].
    + intros [= <-] _ H. unfold members in H.
      rewrite nth_overflow in H by lia. destruct H.
    + apply M.
Qed.

(* ------------------------------------------------------------------ *)
(** ** Leaving the old room *)

Lemma leave_old_fields ws s :
  conns (leave_old ws s) = conns s /\
  allRooms (leave_old ws s) = allRooms s /\
  roomUpdated (leave_old ws s) = roomUpdated s /\
  length (sets (leave_old ws s)) = length (sets s).
Proof.
  unfold leave_old.
  destruct (truthy_room (get_meta ws s)) as [old|]; auto.
  destruct (Js.map_get old (rooms s)) as [oldSet|]; auto.
  destruct (set_size oldSet (sets_delete oldSet ws s) =? 0);
    simpl; rewrite length_upd_nth; auto.
Qed.

Lemma get_meta_leave_old c ws s : get_meta c (leave_old ws s) = get_meta c s.
Proof.
  unfold get_meta, get_conn. now rewrite (proj1 (leave_old_fields ws s)).
Qed.

Lemma ready_of_leave_old c ws s : ready_of c (leave_old ws s) = ready_of c s.
Proof.
  unfold ready_of, get_conn. now rewrite (proj1 (leave_old_fields ws s)).
Qed.

Lemma map_get_leave_old k r ws s :
  Js.map_get k (rooms (leave_old ws s)) = Some r -> Js.map_get k (rooms s) = Some r.
Proof.
  unfold leave_old.
  destruct (truthy_room (get_meta ws s)) as [old|]; auto.
  destruct (Js.map_get old (rooms s)) as [oldSet|]; auto.
  destruct (set_size oldSet (sets_delete oldSet ws s) =? 0); auto.
  unfold rooms_delete; simpl. rewrite map_get_delete.
  destruct (old =? k)%string; [discriminate|auto].
Qed.

Lemma members_leave_old_incl r c ws s :
  In c (members r (leave_old ws s)) -> In c (members r s) /\
  (c = ws -> truthy_room (get_meta ws s) = None \/
     exists old, truthy_room (get_meta ws s) = Some old /\
                 Js.map_get old (rooms s) <> Some r).
Proof.
  unfold leave_old.
  destruct (truthy_room (get_meta ws s)) as [old|]; [|auto].
  destruct (Js.map_get old (rooms s)) as [oldSet|] eqn:E.
  - assert (H : In c (members r (sets_delete oldSet ws s)) ->
      In c (members r s) /\ (c = ws -> Some old = None \/
        exists old0, Some old = Some old0 /\ Js.map_get old0 (rooms s) <> Some r)).
    { rewrite members_sets_delete.
      destruct (Nat.eqb_spec oldSet r) as [->|Hr].
      - intro H; apply In_set_delete in H as [H1 H2]. split; auto. congruence.
      - intro H; split; auto. intros _. right. exists old. split; congruence. }
    destruct (set_size oldSet (sets_delete oldSet ws s) =? 0); exact H.
  - intro H; split; auto. intros _. right. exists old. split; congruence.
Qed.

Lemma length_members_leave_old r ws s :
  length (members r (leave_old ws s)) <= length (members r s).
Proof.
  unfold leave_old.
  destruct (truthy_room (get_meta ws s)) as [old|]; auto.
  destruct (Js.map_get old (rooms s)) as [oldSet|]; auto.
  assert (H : length (members r (sets_delete oldSet ws s)) <= length (members r s)).
  { rewrite members_sets_delete. destruct (Nat.eqb_spec oldSet r) as [->|]; auto.
    apply length_set_delete. }
  destruct (set_size oldSet (sets_delete oldSet ws s) =? 0); auto.
Qed.

(** After the leave, [ws] is in the [Set] of no room with a truthy id. *)
Lemma leave_old_not_member ws s k r :
  wf s -> Js.map_get k (rooms (leave_old ws s)) = Some r -> Js.truthy k = true ->
  ~ In ws (members r (leave_old ws s)).
Proof.
  intros W Hk Ht Hin.
  apply map_get_leave_old in Hk.
  apply members_leave_old_incl in Hin as [Hin Hc].
  pose proof (wf_member s W ws k r Hk Ht Hin) as Hm.
  assert (Ho : truthy_room (get_meta ws s) = Some k).
  { unfold truthy_room. rewrite Hm. now rewrite Ht. }
  destruct (Hc eq_refl) as [E|[old [E1 E2]]]; congruence.
Qed.

(** The registry after the leave, room by room. *)
Lemma room_members_leave_old ws s k :
  wf s ->
  room_members (leave_old ws s) k =
  if match truthy_room (get_meta ws s) with
     | Some old => (old =? k)%string
     | None => false
     end
  then Js.set_delete ws (room_members s k) else room_members s k.
Proof.
  intro W. unfold room_members, leave_old.
  destruct (truthy_room (get_meta ws s)) as [old|]; [|reflexivity].
  destruct (Js.map_get old (rooms s)) as [oldSet|] eqn:E.
  - destruct (String.eqb_spec old k) as [->|Hk].
    + rewrite E.
      destruct (set_size oldSet (sets_delete oldSet ws s) =? 0) eqn:Hz.
      * unfold rooms_delete; simpl. rewrite map_get_delete, String.eqb_refl.
        apply Nat.eqb_eq in Hz. unfold set_size in Hz.
        rewrite members_sets_delete, Nat.eqb_refl in Hz.
        symmetry. now apply length_zero_iff_nil.
      * change (rooms (sets_delete oldSet ws s)) with (rooms s). rewrite E.
        now rewrite members_sets_delete, Nat.eqb_refl.
    + assert (H : match Js.map_get k (rooms (sets_delete oldSet ws s)) with
                  | Some r => members r (sets_delete oldSet ws s)
                  | None => []
                  end = match Js.map_get k (rooms s) with
                        | Some r => members r s
                        | None => []
                        end).
      { change (rooms (sets_delete oldSet ws s)) with (rooms s).
        destruct (Js.map_get k (rooms s)) as [r|] eqn:Ek; auto.
        rewrite members_sets_delete.
        destruct (Nat.eqb_spec oldSet r) as [->|]; auto.
        exfalso. apply Hk. eapply wf_refs; eauto. }
      destruct (set_size oldSet (sets_delete oldSet ws s) =? 0); auto.
      unfold rooms_delete; simpl. rewrite map_get_delete.
      destruct (String.eqb_spec old k); [congruence|]. exact H.
  - destruct (String.eqb_spec old k) as [->|Hk]; auto.
    now rewrite E.
Qed.

(* ------------------------------------------------------------------ *)
(** ** Entering a room *)

Lemma wf_add_member ws set roomId n s :
  wf s -> ws < length (conns s) -> set < length (sets s) ->
  length (members set s) < 2 ->
  (forall k, Js.map_get k (rooms s) = Some set -> k = roomId) ->
  (forall k r, Js.map_get k (rooms s) = Some r -> Js.truthy k = true ->
               ~ In ws (members r s)) ->
  wf (set_meta ws (Meta (Some roomId) n) (sets_add set ws s)).
Proof.
  intros W Hws Hset Hlen Hk Hni. pose proof W as [K R B Sz Nd M].
  constructor.
  - exact K.
  - exact R.
  - intros k r H. simpl. rewrite length_upd_nth. now apply (B k).
  - intro r. change (members r (set_meta ws (Meta (Some roomId) n) (sets_add set ws s)))
      with (members r (sets_add set ws s)).
    rewrite members_sets_add by assumption.
    destruct (Nat.eqb set r); auto.
    pose proof (length_set_add ws (members set s)). lia.
  - intro r. change (members r (set_meta ws (Meta (Some roomId) n) (sets_add set ws s)))
      with (members r (sets_add set ws s)).
    rewrite members_sets_add by assumption.
    destruct (Nat.eqb set r); auto. now apply NoDup_set_add.
  - intros c k r Hg Ht.
    change (members r (set_meta ws (Meta (Some roomId) n) (sets_add set ws s)))
      with (members r (sets_add set ws s)).
    change (rooms (set_meta ws (Meta (Some roomId) n) (sets_add set ws s)))
      with (rooms s) in Hg.
    rewrite members_sets_add by assumption.
    rewrite get_meta_set_meta by assumption.
    change (get_meta c (sets_add set ws s)) with (get_meta c s).
    destruct (Nat.eqb_spec ws c) as [<-|Hc].
    + destruct (Nat.eqb_spec set r) as [<-|Hr].
      * intros _. simpl. f_equal. symmetry. now apply Hk.
      * intro Hin. exfalso. eapply Hni; eauto.
    + destruct (Nat.eqb_spec set r) as [<-|Hr].
      * intro Hin. apply In_set_add in Hin as [E|Hin]; [congruence|].
        eapply M; eauto.
      * intro Hin. eapply M; eauto.
Qed.

Lemma tracked_lt ws s : tracked ws s = true -> ws < length (conns s).
Proof.
  unfold tracked. intro H. apply andb_prop in H as [H _]. now apply Nat.ltb_lt.
Qed.

Lemma wf_ServerJs_on_join ws msg s :
  wf s -> ws < length (conns s) -> wf (fst (ServerJs.on_join ws msg s)).
Proof.
  intros W Hws. unfold ServerJs.on_join.
  pose proof (get_or_create_spec (join_room msg) s) as (Hg & Ho & Hm & Hc & _).
  pose proof (wf_get_or_create (join_room msg) s W) as W1.
  destruct (get_or_create (join_room msg) s) as [set s1]; cbn [fst snd] in *.
  destruct (2 <=? set_size set s1) eqn:Hsz; cbn [fst snd].
  - apply wf_upd_conn; auto using keeps_meta_closing.
  - apply Nat.leb_gt in Hsz. unfold set_size in Hsz.
    destruct (leave_old_fields ws s1) as (Lc & _ & _ & Ll).
    apply wf_add_member.
    + now apply wf_leave_old.
    + congruence.
    + rewrite Ll. eapply wf_bound; eauto.
    + pose proof (length_members_leave_old set ws s1). lia.
    + intros k H. apply map_get_leave_old in H. eapply wf_refs; eauto.
    + intros k r. now apply leave_old_not_member.
Qed.

Lemma members_fresh r s : length (sets s) <= r -> members r s = [].
Proof. intro H. unfold members. now apply nth_overflow. Qed.

(** After the leave and [get_or_create], [ws] is still in the [Set] of no
    room with a truthy id. *)
Lemma leave_create_not_member ws roomId s k r :
  wf s ->
  let s2 := snd (get_or_create roomId (leave_old ws s)) in
  Js.map_get k (rooms s2) = Some r -> Js.truthy k = true ->
  ~ In ws (members r s2).
Proof.
  intros W s2 Hk Ht. subst s2.
  pose proof (get_or_create_spec roomId (leave_old ws s))
    as (Hg & Ho & Hm & _ & _ & _ & Hnew & Hold).
  cbn zeta in *. rewrite Hm.
  destruct (String.eqb_spec k roomId) as [->|Hne].
  - destruct (Js.map_get roomId (rooms (leave_old ws s))) as [r0|] eqn:E.
    + rewrite (Hold r0 eq_refl) in Hk. now apply (leave_old_not_member ws s roomId r).
    + rewrite Hg in Hk. injection Hk as <-.
      rewrite (Hnew eq_refl). rewrite members_fresh by lia. tauto.
  - rewrite Ho in Hk by assumption. now apply (leave_old_not_member ws s k r).
Qed.

Lemma wf_Part000_on_join ws msg now s :
  wf s -> ws < length (conns s) -> wf (fst (Part000.on_join ws msg now s)).
Proof.
  intros W Hws. unfold Part000.on_join.
  destruct (negb (Js.truthy (join_room msg))); cbn [fst]; auto.
  pose proof (wf_leave_old ws s W) as W1.
  destruct (leave_old_fields ws s) as (Lc & _ & _ & Ll).
  pose proof (get_or_create_spec (join_room msg) (leave_old ws s))
    as (Hg & Ho & Hm & Hc & _).
  pose proof (wf_get_or_create (join_room msg) _ W1) as W2.
  pose proof (leave_create_not_member ws (join_room msg) s) as Hni.
  destruct (get_or_create (join_room msg) (leave_old ws s)) as [set s2]; cbn [fst snd] in *.
  destruct (2 <=? set_size set s2) eqn:Hsz; cbn [fst snd].
  - apply wf_upd_conn; auto using keeps_meta_closing.
  - apply Nat.leb_gt in Hsz. unfold set_size in Hsz.
    apply (wf_same (set_meta ws (Meta (Some (join_room msg)) (join_name msg))
                      (sets_add set ws s2))); auto.
    apply wf_add_member; auto.
    + congruence.
    + eapply wf_bound; eauto.
    + intros k H. eapply wf_refs; eauto.
    + intros k r Hk Ht. now apply (Hni k r W).
Qed.

(* ------------------------------------------------------------------ *)
(** ** [wf] along the event loop *)

Lemma wf_ServerJs_on_close ws s : wf s -> wf (fst (ServerJs.on_close ws s)).
Proof.
  intro W. unfold ServerJs.on_close.
  destruct (truthy_room (get_meta ws s)) as [r|]; auto.
  destruct (Js.map_get r (rooms s)) as [set|]; auto.
  destruct (set_size set (sets_delete set ws s) =? 0); cbn [fst].
  - apply wf_rooms_delete. now apply wf_sets_delete.
  - now apply wf_sets_delete.
Qed.

Lemma wf_touch r now s : wf s -> wf (Part000.touch r now s).
Proof. now apply wf_same. Qed.

Lemma wf_Part000_on_close ws now s : wf s -> wf (fst (Part000.on_close ws now s)).
Proof.
  intro W. unfold Part000.on_close.
  destruct (truthy_room (get_meta ws s)) as [r|]; auto.
  destruct (Js.map_get r (rooms s)) as [set|]; auto.
  destruct (set_size set (sets_delete set ws s) =? 0); cbn [fst]; apply wf_touch.
  - apply wf_rooms_delete. now apply wf_sets_delete.
  - now apply wf_sets_delete.
Qed.

Lemma wf_ServerJs_on_message ws data now s :
  wf s -> ws < length (conns s) -> wf (fst (ServerJs.on_message ws data now s)).
Proof.
  intros W Hws. unfold ServerJs.on_message.
  destruct data as [msg|]; auto.
  destruct (msg_type msg) as [t|]; auto.
  destruct (t =? "join")%string; [now apply wf_ServerJs_on_join|].
  destruct (t =? "msg")%string; auto.
  unfold ServerJs.on_msg.
  destruct (truthy_room (get_meta ws s)); auto.
  destruct (accepted_text msg); auto.
Qed.

Lemma wf_Part000_on_message ws data now s :
  wf s -> ws < length (conns s) -> wf (fst (Part000.on_message ws data now s)).
Proof.
  intros W Hws. unfold Part000.on_message.
  destruct data as [msg|]; auto.
  destruct (msg_type msg) as [t|]; auto.
  destruct (t =? "join")%string; [now apply wf_Part000_on_join|].
  destruct (t =? "msg")%string; auto.
  unfold Part000.on_msg.
  destruct (truthy_room (get_meta ws s)); auto.
  destruct (accepted_text msg); auto.
  cbn [fst]. now apply wf_touch.
Qed.

(** The heartbeat touches [isAlive] and [readyState] only. *)
Lemma heartbeat_from_meta i cs :
  map c_meta (fst (heartbeat_from i cs)) = map c_meta cs /\
  length (fst (heartbeat_from i cs)) = length cs.
Proof.
  revert i; induction cs as [|c cs IH]; intro i; simpl; auto.
  specialize (IH (S i)). destruct (heartbeat_from (S i) cs) as [cs1 es].
  cbn [fst] in IH. destruct IH as [IH1 IH2].
  destruct (ready c) eqn:Er; [| |simpl; split; congruence];
    (destruct (isAlive c); simpl; rewrite ?keeps_meta_closing; split; congruence).
Qed.

Lemma get_meta_map c s : get_meta c s = nth c (map c_meta (conns s)) (c_meta no_conn).
Proof. unfold get_meta, get_conn. now rewrite map_nth. Qed.

Lemma heartbeat_fields s :
  rooms (fst (heartbeat s)) = rooms s /\ sets (fst (heartbeat s)) = sets s /\
  allRooms (fst (heartbeat s)) = allRooms s /\
  roomUpdated (fst (heartbeat s)) = roomUpdated s /\
  (forall c, get_meta c (fst (heartbeat s)) = get_meta c s) /\
  length (conns (fst (heartbeat s))) = length (conns s).
Proof.
  unfold heartbeat.
  pose proof (heartbeat_from_meta 0 (conns s)) as [H1 H2].
  destruct (heartbeat_from 0 (conns s)) as [cs es]; cbn [fst] in *.
  repeat split; auto.
  intro c. rewrite !get_meta_map. simpl. now rewrite H1.
Qed.

Lemma get_meta_connect c s :
  get_meta c (set_conns (conns s ++ [new_conn]) s) = get_meta c s.
Proof.
  unfold get_meta, get_conn; simpl.
  destruct (Nat.lt_ge_cases c (length (conns s))) as [H|H].
  - now rewrite app_nth1.
  - rewrite app_nth2 by assumption. rewrite (nth_overflow (conns s) no_conn H).
    destruct (c - length (conns s)) as [|[|n]]; reflexivity.
Qed.

Lemma wf_handle v s e : wf s -> wf (fst (handle v s e)).
Proof.
  intro W. destruct e as [|ws data now|ws now|ws| |ws]; cbn [handle].
  - cbn [fst]. apply (wf_same s); auto. intro c; apply get_meta_connect.
  - destruct (tracked ws s) eqn:T; auto. apply tracked_lt in T.
    destruct v; [now apply wf_ServerJs_on_message | now apply wf_Part000_on_message].
  - destruct (tracked ws s) eqn:T; auto.
    destruct v; cbn [on_close].
    + apply wf_ServerJs_on_close. apply wf_upd_conn; auto using keeps_meta_ready.
    + apply wf_Part000_on_close. apply wf_upd_conn; auto using keeps_meta_ready.
  - destruct (tracked ws s); auto. cbn [fst].
    apply wf_upd_conn; auto using keeps_meta_alive.
  - destruct (heartbeat_fields s) as (H1 & H2 & _ & _ & H3 & _).
    now apply (wf_same s).
  - destruct (tracked ws s); auto. cbn [fst].
    apply wf_upd_conn; auto using keeps_meta_closing.
Qed.

Lemma run_app v s es1 es2 :
  run v s (es1 ++ es2) =
  (fst (run v (fst (run v s es1)) es2),
   snd (run v s es1) ++ snd (run v (fst (run v s es1)) es2)).
Proof.
  revert s; induction es1 as [|e es1 IH]; intro s; simpl.
  - now destruct (run v s es2).
  - destruct (handle v s e) as [s1 o1]. rewrite IH.
    destruct (run v s1 es1) as [s2 o2]; simpl.
    now rewrite app_assoc.
Qed.

Lemma wf_run v es : forall s, wf s -> wf (fst (run v s es)).
Proof.
  induction es as [|e es IH]; intros s W; simpl; auto.
  pose proof (wf_handle v s e W) as W1.
  destruct (handle v s e) as [s1 o1]. specialize (IH s1 W1).
  now destruct (run v s1 es).
Qed.

Lemma wf_state_after v es : wf (state_after v es).
Proof. apply wf_run, wf_init. Qed.

(* ------------------------------------------------------------------ *)
(** ** The registry seen room by room *)

Lemma room_members_get_or_create roomId s k :
  room_members (snd (get_or_create roomId s)) k = room_members s k.
Proof.
  pose proof (get_or_create_spec roomId s) as (Hg & Ho & Hm & _ & _ & _ & Hnew & Hold).
  cbn zeta in *. unfold room_members.
  destruct (String.eqb_spec k roomId) as [->|Hne].
  - destruct (Js.map_get roomId (rooms s)) as [r0|] eqn:E.
    + now rewrite (Hold r0 eq_refl), E.
    + rewrite Hg, Hm, (Hnew eq_refl). now apply members_fresh.
  - rewrite Ho by assumption. destruct (Js.map_get k (rooms s)); auto.
Qed.

Lemma room_members_sets_add roomId set ws s k :
  wf s -> Js.map_get roomId (rooms s) = Some set ->
  room_members (sets_add set ws s) k =
  if (roomId =? k)%string then Js.set_add ws (room_members s roomId)
  else room_members s k.
Proof.
  intros W Hg. unfold room_members.
  change (rooms (sets_add set ws s)) with (rooms s).
  pose proof (wf_bound s W _ _ Hg) as Hb.
  destruct (String.eqb_spec roomId k) as [<-|Hne].
  - rewrite Hg, members_sets_add, Nat.eqb_refl; auto.
  - destruct (Js.map_get k (rooms s)) as [r|] eqn:E; auto.
    rewrite members_sets_add by assumption.
    destruct (Nat.eqb_spec set r) as [->|]; auto.
    exfalso. apply Hne. eapply wf_refs; eauto.
Qed.

Lemma room_members_same s s' k :
  rooms s' = rooms s -> sets s' = sets s -> room_members s' k = room_members s k.
Proof. unfold room_members, members. now intros -> ->. Qed.

(** A rejected join found the room in the registry: a [Set] made by
    [get_or_create] is empty. *)
Lemma get_or_create_full roomId s :
  2 <= set_size (fst (get_or_create roomId s)) (snd (get_or_create roomId s)) ->
  snd (get_or_create roomId s) = s /\
  Js.map_get roomId (rooms s) = Some (fst (get_or_create roomId s)).
Proof.
  pose proof (get_or_create_spec roomId s) as (Hg & _ & Hm & _ & _ & _ & Hnew & Hold).
  cbn zeta in *. unfold set_size. rewrite Hm.
  destruct (Js.map_get roomId (rooms s)) as [r0|] eqn:E.
  - intros _. rewrite (Hold r0 eq_refl) in *. split; congruence.
  - rewrite (Hnew eq_refl), members_fresh by lia. simpl; lia.
Qed.

Lemma set_size_room_members roomId s :
  set_size (fst (get_or_create roomId s)) (snd (get_or_create roomId s)) =
  length (room_members s roomId).
Proof.
  rewrite <- (room_members_get_or_create roomId s roomId).
  pose proof (get_or_create_spec roomId s) as (Hg & _).
  cbn zeta in *. unfold room_members, set_size. now rewrite Hg.
Qed.

(** The registry effect of either ["close"] listener is the leave. *)
Lemma ServerJs_on_close_state ws s : fst (ServerJs.on_close ws s) = leave_old ws s.
Proof.
  unfold ServerJs.on_close, leave_old.
  destruct (truthy_room (get_meta ws s)) as [r|]; auto.
  destruct (Js.map_get r (rooms s)) as [set|]; auto.
  now destruct (set_size set (sets_delete set ws s) =? 0).
Qed.

Lemma Part000_on_close_state ws now s :
  let s' := fst (Part000.on_close ws now s) in
  rooms s' = rooms (leave_old ws s) /\ sets s' = sets (leave_old ws s) /\
  conns s' = conns s /\ allRooms s' = allRooms s.
Proof.
  unfold Part000.on_close, leave_old.
  destruct (truthy_room (get_meta ws s)) as [r|]; auto.
  destruct (Js.map_get r (rooms s)) as [set|]; auto.
  destruct (set_size set (sets_delete set ws s) =? 0); cbn; auto.
Qed.

Lemma ready_of_upd_conn ws c f s :
  ready_of c (upd_conn ws f s) =
  if (Nat.eqb ws c && (ws <? length (conns s)))%bool then ready (f (get_conn ws s))
  else ready_of c s.
Proof.
  unfold ready_of, get_conn, upd_conn, set_conns; simpl.
  destruct (Nat.eqb_spec ws c) as [->|Hc]; simpl.
  - destruct (Nat.ltb_spec c (length (conns s))) as [H|H].
    + now rewrite nth_upd_nth_same.
    + now rewrite upd_nth_out.
  - now rewrite nth_upd_nth_other.
Qed.

Lemma ready_of_set_meta ws c m s : ready_of c (set_meta ws m s) = ready_of c s.
Proof.
  unfold set_meta. rewrite ready_of_upd_conn.
  destruct (Nat.eqb_spec ws c) as [->|]; simpl; auto.
  now destruct (c <? length (conns s)).
Qed.

Lemma ready_closing_not_open c : ready (closing c) <> OPEN.
Proof. destruct c as [[] a m]; simpl; discriminate. Qed.

Lemma ready_closing_open c : ready (closing c) = OPEN -> ready c = OPEN.
Proof. destruct c as [[] a m]; simpl; auto; discriminate. Qed.

(* ------------------------------------------------------------------ *)
(** ** The invariant of part_000 *)

Lemma In_sset_add x y l : In y (Js.sset_add x l) <-> y = x \/ In y l.
Proof.
  unfold Js.sset_add. destruct (existsb (String.eqb x) l) eqn:E.
  - apply existsb_exists in E as [z [Hz E]]. apply String.eqb_eq in E; subst z.
    split; [tauto|]. intros [->|H]; auto.
  - rewrite in_app_iff; simpl. intuition.
Qed.

Lemma wfB_init : wf_part_000 init.
Proof.
  constructor; simpl; try discriminate.
  - intros [|c] k; simpl; discriminate.
  - intros [|c] k; unfold ready_of, get_conn; simpl; discriminate.
  - intros [|c] k; simpl; discriminate.
Qed.

Lemma wfB_same s s' :
  rooms s' = rooms s -> sets s' = sets s -> allRooms s' = allRooms s ->
  (forall c, get_meta c s' = get_meta c s) ->
  (forall c, ready_of c s' = OPEN -> ready_of c s = OPEN) ->
  wf_part_000 s -> wf_part_000 s'.
Proof.
  intros Hr Hs Ha Hm Ho [K R O S1 S2].
  constructor.
  - intros k r. rewrite Hr. apply K.
  - intros c k. rewrite Hm. apply R.
  - intros c k H1. rewrite Hm, (room_members_same s s' k Hr Hs). auto.
  - intros c k. rewrite Hm, Ha. apply S1.
  - intros k r. rewrite Hr, Ha. apply S2.
Qed.

Lemma In_room_members_leave_old c ws s k :
  wf s -> c <> ws -> In c (room_members s k) -> In c (room_members (leave_old ws s) k).
Proof.
  intros W Hc Hin. rewrite room_members_leave_old by assumption.
  destruct (match truthy_room (get_meta ws s) with
            | Some old => (old =? k)%string
            | None => false
            end); auto.
  apply In_set_delete. auto.
Qed.

Lemma wfB_Part000_on_join ws msg now s :
  wf s -> wf_part_000 s -> ws < length (conns s) ->
  wf_part_000 (fst (Part000.on_join ws msg now s)).
Proof.
  intros W WB Hws. pose proof WB as [K R O S1 S2].
  unfold Part000.on_join.
  destruct (negb (Js.truthy (join_room msg))) eqn:Ht; cbn [fst]; auto.
  apply negb_false_iff in Ht.
  pose proof (wf_leave_old ws s W) as W1.
  destruct (leave_old_fields ws s) as (Lc & La & _ & Ll).
  pose proof (get_or_create_spec (join_room msg) (leave_old ws s))
    as (Hg & Ho & Hm & Hc & Ha & _).
  pose proof (wf_get_or_create (join_room msg) _ W1) as W2.
  pose proof (room_members_get_or_create (join_room msg) (leave_old ws s)) as Hrm.
  pose proof (get_or_create_full (join_room msg) (leave_old ws s)) as Hfull.
  destruct (get_or_create (join_room msg) (leave_old ws s)) as [set s2]; cbn [fst snd] in *.
  assert (Hmeta : forall c, get_meta c s2 = get_meta c s).
  { intro c. rewrite <- (get_meta_leave_old c ws s).
    unfold get_meta, get_conn. now rewrite Hc. }
  assert (Hready : forall c, ready_of c s2 = ready_of c s).
  { intro c. rewrite <- (ready_of_leave_old c ws s).
    unfold ready_of, get_conn. now rewrite Hc. }
  assert (Hlen : length (conns s2) = length (conns s)) by congruence.
  assert (Hkeep : forall c k, c <> ws -> In c (room_members s k) -> In c (room_members s2 k)).
  { intros c k Hne Hin. rewrite Hrm. now apply In_room_members_leave_old. }
  destruct (2 <=? set_size set s2) eqn:Hsz; cbn [fst snd].
  - apply Nat.leb_le in Hsz. destruct (Hfull Hsz) as [E _]. subst s2.
    constructor.
    + intros k r H. change (rooms (ws_close ws (leave_old ws s))) with
        (rooms (leave_old ws s)) in H. apply map_get_leave_old in H. eauto.
    + intros c k. unfold ws_close. rewrite get_meta_upd_conn by apply keeps_meta_closing.
      rewrite Hmeta. apply R.
    + intros c k. unfold ws_close. rewrite get_meta_upd_conn by apply keeps_meta_closing.
      rewrite ready_of_upd_conn, Hmeta.
      rewrite (room_members_same (leave_old ws s) (upd_conn ws closing (leave_old ws s)))
        by reflexivity.
      destruct (Nat.eqb_spec ws c) as [<-|Hne]; simpl.
      * destruct (Nat.ltb_spec ws (length (conns (leave_old ws s)))) as [_|H]; [|lia].
        intro H. now apply ready_closing_not_open in H.
      * rewrite Hready. intros H1 H2. apply Hkeep; auto.
    + intros c k. unfold ws_close. rewrite get_meta_upd_conn by apply keeps_meta_closing.
      rewrite Hmeta. change (allRooms (upd_conn ws closing (leave_old ws s)))
        with (allRooms (leave_old ws s)). rewrite La. apply S1.
    + intros k r H. change (rooms (ws_close ws (leave_old ws s))) with
        (rooms (leave_old ws s)) in H. apply map_get_leave_old in H.
      change (allRooms (ws_close ws (leave_old ws s))) with (allRooms (leave_old ws s)).
      rewrite La. eauto.
  - set (m := Meta (Some (join_room msg)) (join_name msg)).
    set (s4 := set_meta ws m (sets_add set ws s2)).
    assert (Hm4 : forall c, get_meta c s4 = if Nat.eqb ws c then m else get_meta c s).
    { intro c. unfold s4. rewrite get_meta_set_meta by (simpl; lia).
      change (get_meta c (sets_add set ws s2)) with (get_meta c s2).
      now rewrite Hmeta. }
    assert (Hr4 : forall k, room_members s4 k =
              if (join_room msg =? k)%string
              then Js.set_add ws (room_members s2 (join_room msg))
              else room_members s2 k).
    { intro k. unfold s4.
      rewrite (room_members_same (sets_add set ws s2)) by reflexivity.
      now apply room_members_sets_add. }
    constructor.
    + intros k r H. change (Js.map_get k (rooms s2) = Some r) in H.
      destruct (String.eqb_spec k (join_room msg)) as [->|Hne]; auto.
      rewrite Ho in H by assumption. apply map_get_leave_old in H. eauto.
    + intros c k.
      change (room (get_meta c s4) = Some k -> Js.truthy k = true).
      rewrite Hm4. destruct (Nat.eqb ws c).
      * simpl. intros [= <-]. assumption.
      * apply R.
    + intros c k.
      change (ready_of c s4 = OPEN -> room (get_meta c s4) = Some k ->
              In c (room_members s4 k)).
      unfold s4 at 1. rewrite ready_of_set_meta.
      change (ready_of c (sets_add set ws s2)) with (ready_of c s2).
      rewrite Hm4, Hr4, Hready.
      destruct (Nat.eqb_spec ws c) as [<-|Hne].
      * simpl. intros _ [= <-]. rewrite String.eqb_refl. apply In_set_add. auto.
      * intros H1 H2.
        assert (Hin : In c (room_members s2 k)) by (apply Hkeep; auto).
        destruct (String.eqb_spec (join_room msg) k) as [<-|]; auto.
        apply In_set_add. auto.
    + intros c k.
      change (room (get_meta c s4) = Some k ->
              In k (Js.sset_add (join_room msg) (allRooms s2))).
      rewrite Hm4, In_sset_add, Ha, La.
      destruct (Nat.eqb ws c).
      * simpl. intros [= <-]. auto.
      * intro H. right. eauto.
    + intros k r.
      change (Js.map_get k (rooms s2) = Some r ->
              In k (Js.sset_add (join_room msg) (allRooms s2))).
      rewrite In_sset_add, Ha, La.
      destruct (String.eqb_spec k (join_room msg)) as [->|Hne]; auto.
      rewrite Ho by assumption. intro H. apply map_get_leave_old in H. eauto.
Qed.

(* ------------------------------------------------------------------ *)
(** ** The heartbeat, socket by socket *)

Lemma heartbeat_from_nth i cs j :
  nth j (fst (heartbeat_from i cs)) no_conn = beat (nth j cs no_conn).
Proof.
  revert i j; induction cs as [|c cs IH]; intros i j; simpl.
  - now destruct j.
  - specialize (IH (S i)). destruct (heartbeat_from (S i) cs) as [cs1 es].
    cbn [fst] in IH.
    destruct j as [|j].
    + unfold beat. destruct (ready c); try reflexivity; now destruct (isAlive c).
    + rewrite <- IH.
      destruct (ready c); try reflexivity; now destruct (isAlive c).
Qed.

Lemma heartbeat_from_snd i c cs :
  snd (heartbeat_from i (c :: cs)) =
  match ready c with
  | CLOSED => snd (heartbeat_from (S i) cs)
  | _ => (if isAlive c then Ping i else Terminate i) :: snd (heartbeat_from (S i) cs)
  end.
Proof.
  simpl. destruct (heartbeat_from (S i) cs) as [cs1 es].
  destruct (ready c); try reflexivity; now destruct (isAlive c).
Qed.

Lemma heartbeat_from_effects i cs e :
  In e (snd (heartbeat_from i cs)) <->
  exists j, j < length cs /\ ready (nth j cs no_conn) <> CLOSED /\
            e = if isAlive (nth j cs no_conn) then Ping (i + j) else Terminate (i + j).
Proof.
  revert i; induction cs as [|c cs IH]; intro i.
  - simpl. split; [tauto|]. intros [j [H _]]; lia.
  - rewrite heartbeat_from_snd.
    assert (Htail : In e (snd (heartbeat_from (S i) cs)) <->
      exists j, S j < length (c :: cs) /\ ready (nth (S j) (c :: cs) no_conn) <> CLOSED /\
        e = if isAlive (nth (S j) (c :: cs) no_conn) then Ping (i + S j)
            else Terminate (i + S j)).
    { rewrite IH. split; intros [j (H1 & H2 & H3)]; exists j; simpl in *;
        replace (i + S j) with (S (i + j)) in * by lia;
        (split; [lia|split; assumption]). }
    split.
    + intro H.
      assert (Hc : In e (snd (heartbeat_from (S i) cs)) \/
                   (ready c <> CLOSED /\
                    e = if isAlive c then Ping i else Terminate i)).
      { destruct (ready c); simpl in H; try tauto;
          (destruct H as [<-|H]; [right; split; [discriminate|reflexivity] | tauto]). }
      destruct Hc as [Hc|[Hc1 Hc2]].
      * apply Htail in Hc as [j Hj]. exists (S j). exact Hj.
      * exists 0. simpl. rewrite Nat.add_0_r. repeat split; auto; lia.
    + intros [[|j] (H1 & H2 & H3)].
      * simpl in H2, H3. rewrite Nat.add_0_r in H3.
        destruct (ready c); try congruence; left; congruence.
      * assert (Hin : In e (snd (heartbeat_from (S i) cs)))
          by (apply Htail; exists j; auto).
        destruct (ready c); simpl; auto.
Qed.

Lemma get_conn_heartbeat c s : get_conn c (fst (heartbeat s)) = beat (get_conn c s).
Proof.
  unfold heartbeat, get_conn.
  pose proof (heartbeat_from_nth 0 (conns s) c) as H.
  destruct (heartbeat_from 0 (conns s)) as [cs es]. exact H.
Qed.

Lemma ready_beat_open c : ready (beat c) = OPEN -> ready c = OPEN.
Proof.
  unfold beat. destruct c as [[] [] m]; simpl; auto; discriminate.
Qed.

Lemma ready_of_connect c s :
  c < length (conns s) -> ready_of c (set_conns (conns s ++ [new_conn]) s) = ready_of c s.
Proof.
  intro H. unfold ready_of, get_conn; simpl. now rewrite app_nth1.
Qed.

Lemma room_None_out_of_range c s : length (conns s) <= c -> room (get_meta c s) = None.
Proof.
  intro H. unfold get_meta, get_conn. now rewrite nth_overflow.
Qed.

Lemma wfB_upd_conn ws f s :
  keeps_meta f -> (forall c, ready (f c) = OPEN -> ready c = OPEN) ->
  wf_part_000 s -> wf_part_000 (upd_conn ws f s).
Proof.
  intros Hf Hr. apply wfB_same; auto.
  - intro c. now apply get_meta_upd_conn.
  - intro c. rewrite ready_of_upd_conn.
    destruct (Nat.eqb_spec ws c) as [->|]; simpl; auto.
    destruct (c <? length (conns s)); auto. apply Hr.
Qed.

Lemma wfB_Part000_on_close ws now s :
  wf s -> wf_part_000 s -> ws < length (conns s) ->
  wf_part_000 (fst (Part000.on_close ws now (upd_conn ws (with_ready CLOSED) s))).
Proof.
  intros W [K R O S1 S2] Hws.
  set (s0 := upd_conn ws (with_ready CLOSED) s).
  assert (W0 : wf s0) by (apply wf_upd_conn; auto using keeps_meta_ready).
  destruct (Part000_on_close_state ws now s0) as (Hr & Hs & Hc & Ha).
  set (s' := fst (Part000.on_close ws now s0)) in *.
  assert (Hmeta : forall c, get_meta c s' = get_meta c s).
  { intro c. unfold get_meta, get_conn. rewrite Hc.
    apply (get_meta_upd_conn ws c (with_ready CLOSED) s), keeps_meta_ready. }
  constructor.
  - intros k r. rewrite Hr. intro H. apply map_get_leave_old in H. eauto.
  - intros c k. rewrite Hmeta. apply R.
  - intros c k. rewrite Hmeta. unfold ready_of, get_conn. rewrite Hc.
    fold (get_conn c s0). fold (ready_of c s0). unfold s0 at 1.
    rewrite ready_of_upd_conn.
    rewrite (room_members_same (leave_old ws s0) s') by assumption.
    destruct (Nat.eqb_spec ws c) as [<-|Hne]; simpl.
    + destruct (Nat.ltb_spec ws (length (conns s))); [discriminate|lia].
    + intros H1 H2. apply In_room_members_leave_old; auto.
      rewrite (room_members_same s s0) by reflexivity. auto.
  - intros c k. rewrite Hmeta, Ha. apply S1.
  - intros k r. rewrite Hr, Ha. intro H. apply map_get_leave_old in H. eauto.
Qed.

Lemma wfB_handle s e :
  wf s -> wf_part_000 s -> wf_part_000 (fst (handle part_000 s e)).
Proof.
  intros W WB. destruct e as [|ws data now|ws now|ws| |ws]; cbn [handle].
  - cbn [fst]. destruct WB as [K R O S1 S2]. constructor; simpl; auto.
    + intros c k. rewrite get_meta_connect. apply R.
    + intros c k H1. rewrite get_meta_connect. intro H2.
      destruct (Nat.lt_ge_cases c (length (conns s))) as [H|H].
      * rewrite ready_of_connect in H1 by assumption.
        rewrite (room_members_same s) by reflexivity. auto.
      * rewrite room_None_out_of_range in H2 by assumption. discriminate.
    + intros c k. rewrite get_meta_connect. apply S1.
  - destruct (tracked ws s) eqn:T; auto. apply tracked_lt in T.
    cbn [on_message]. unfold Part000.on_message.
    destruct data as [msg|]; auto.
    destruct (msg_type msg) as [t|]; auto.
    destruct (t =? "join")%string; [now apply wfB_Part000_on_join|].
    destruct (t =? "msg")%string; auto.
    unfold Part000.on_msg.
    destruct (truthy_room (get_meta ws s)); auto.
    destruct (accepted_text msg); auto.
    cbn [fst]. now apply (wfB_same s).
  - destruct (tracked ws s) eqn:T; auto. apply tracked_lt in T.
    cbn [on_close]. now apply wfB_Part000_on_close.
  - destruct (tracked ws s); auto. cbn [fst].
    apply wfB_upd_conn; auto using keeps_meta_alive.
  - destruct (heartbeat_fields s) as (H1 & H2 & H3 & _ & H4 & _).
    apply (wfB_same s); auto.
    intro c. unfold ready_of. rewrite get_conn_heartbeat. apply ready_beat_open.
  - destruct (tracked ws s); auto. cbn [fst].
    apply wfB_upd_conn; auto using keeps_meta_closing, ready_closing_open.
Qed.

Lemma wfB_run es : forall s,
  wf s -> wf_part_000 s -> wf_part_000 (fst (run part_000 s es)).
Proof.
  induction es as [|e es IH]; intros s W WB; simpl; auto.
  pose proof (wf_handle part_000 s e W) as W1.
  pose proof (wfB_handle s e W WB) as WB1.
  destruct (handle part_000 s e) as [s1 o1]. specialize (IH s1 W1 WB1).
  now destruct (run part_000 s1 es).
Qed.

Lemma wfB_state_after es : wf_part_000 (state_after part_000 es).
Proof. apply wfB_run; [apply wf_init | apply wfB_init]. Qed.

(* ------------------------------------------------------------------ *)
(** ** Dispatch *)

Lemma handle_join v s ws msg now :
  tracked ws s = true -> msg_type msg = Some "join"%string ->
  handle v s (Message ws (Some msg) now) =
  match v with
  | server_js => ServerJs.on_join ws msg s
  | part_000 => Part000.on_join ws msg now s
  end.
Proof.
  intros T Ht. cbn [handle]. rewrite T.
  destruct v; cbn [on_message]; unfold ServerJs.on_message, Part000.on_message;
    rewrite Ht; reflexivity.
Qed.

Lemma handle_msg v s ws msg now :
  tracked ws s = true -> msg_type msg = Some "msg"%string ->
  handle v s (Message ws (Some msg) now) =
  match v with
  | server_js => ServerJs.on_msg ws msg now s
  | part_000 => Part000.on_msg ws msg now s
  end.
Proof.
  intros T Ht. cbn [handle]. rewrite T.
  destruct v; cbn [on_message]; unfold ServerJs.on_message, Part000.on_message;
    rewrite Ht; reflexivity.
Qed.

Lemma room_members_length_le s k : wf s -> length (room_members s k) <= 2.
Proof.
  intro W. unfold room_members. destruct (Js.map_get k (rooms s)); simpl; [|lia].
  now apply wf_size.
Qed.

Lemma room_members_NoDup s k : wf s -> NoDup (room_members s k).
Proof.
  intro W. unfold room_members. destruct (Js.map_get k (rooms s)); [|constructor].
  now apply wf_nodup.
Qed.

Lemma room_members_truthy s k :
  wf_part_000 s -> room_members s k <> [] -> Js.truthy k = true.
Proof.
  intros WB H. unfold room_members in H.
  destruct (Js.map_get k (rooms s)) eqn:E; [|congruence].
  eapply b_key; eauto.
Qed.

(** A socket that is in no room's [Set] is not touched by the leave. *)
Lemma room_members_leave_old_absent ws s k :
  wf s -> ~ In ws (room_members s k) ->
  room_members (leave_old ws s) k = room_members s k.
Proof.
  intros W H. rewrite room_members_leave_old by assumption.
  destruct (match truthy_room (get_meta ws s) with
            | Some old => (old =? k)%string
            | None => false
            end); auto.
  now apply set_delete_absent.
Qed.

(* ------------------------------------------------------------------ *)
(** ** Capacity *)

Lemma ServerJs_on_join_full ws msg s :
  2 <= length (room_members s (join_room msg)) ->
  ServerJs.on_join ws msg s =
  (ws_close ws s, [Send ws (PError "room_full"); Close ws 1008 "Room full"]).
Proof.
  intro H. unfold ServerJs.on_join.
  pose proof (set_size_room_members (join_room msg) s) as Hsz.
  pose proof (get_or_create_full (join_room msg) s) as Hfull.
  destruct (get_or_create (join_room msg) s) as [set s1]; cbn [fst snd] in *.
  rewrite <- Hsz in H. destruct (Hfull H) as [-> _].
  apply Nat.leb_le in H. now rewrite H.
Qed.

Lemma Part000_on_join_full ws msg now s :
  wf s -> Js.truthy (join_room msg) = true ->
  2 <= length (room_members (leave_old ws s) (join_room msg)) ->
  Part000.on_join ws msg now s =
  (ws_close ws (leave_old ws s),
   [Send ws (PError "room_full"); Close ws 1008 "Room full"]).
Proof.
  intros W Ht H. unfold Part000.on_join. rewrite Ht. cbn [negb].
  pose proof (set_size_room_members (join_room msg) (leave_old ws s)) as Hsz.
  pose proof (get_or_create_full (join_room msg) (leave_old ws s)) as Hfull.
  destruct (get_or_create (join_room msg) (leave_old ws s)) as [set s2]; cbn [fst snd] in *.
  rewrite <- Hsz in H. destruct (Hfull H) as [-> _].
  apply Nat.leb_le in H. now rewrite H.
Qed.

(** C1 (amended).  Between two events no room of either program holds
    more than 2 sockets; and a join for a room that holds 2 sockets,
    neither of them the joining one, is answered by the error frame
    [room_full] followed by [close(1008, "Room full")].  In server.js
    this also holds when the joining socket is one of the two. *)
Theorem capacity_two (v : variant) (es : list event) (ws : conn) (msg : message) (now : Z) :
  let s := state_after v es in
  (forall roomId, length (room_members s roomId) <= 2) /\
  (tracked ws s = true -> msg_type msg = Some "join"%string ->
   length (room_members s (join_room msg)) = 2 ->
   v = server_js \/ ~ In ws (room_members s (join_room msg)) ->
   snd (handle v s (Message ws (Some msg) now)) =
   [Send ws (PError "room_full"); Close ws 1008 "Room full"]).
Proof.
  intro s. pose proof (wf_state_after v es) as W. fold s in W. split.
  - intro roomId. now apply room_members_length_le.
  - intros T Hj Hlen Hv. rewrite handle_join by assumption.
    destruct v.
    + rewrite ServerJs_on_join_full; [reflexivity | lia].
    + destruct Hv as [Hv|Hni]; [discriminate|].
      pose proof (wfB_state_after es) as WB. fold s in WB.
      rewrite Part000_on_join_full; auto.
      * apply (room_members_truthy s); auto.
        intro E. rewrite E in Hlen. discriminate.
      * rewrite room_members_leave_old_absent by assumption. lia.
Qed.

Lemma capacity_two_witness :
  snd (handle part_000
         (state_after part_000
            [Connect; Connect; Connect;
             Message 0 (join "r1" "Alice") 1; Message 1 (join "r1" "Bob") 2])
         (Message 2 (join "r1" "Carol") 3)) =
  [Send 2 (PError "room_full"); Close 2 1008 "Room full"].
Proof.
  apply (capacity_two part_000
           [Connect; Connect; Connect;
            Message 0 (join "r1" "Alice") 1; Message 1 (join "r1" "Bob") 2]
           2 (Msg (Some "join") (Some "r1") (Some "Carol") None) 3).
  - reflexivity.
  - reflexivity.
  - reflexivity.
  - right. vm_compute. intros [H|[H|[]]]; discriminate.
Defined.

(** C1, as stated, fails in part_000: a member of a room that holds 2
    sockets joins that room again and is accepted. *)
Lemma rejoin_full_room_accepted :
  let s := state_after part_000
             [Connect; Connect;
              Message 0 (join "r1" "Alice") 1; Message 1 (join "r1" "Bob") 2] in
  tracked 0 s = true /\
  length (room_members s "r1") = 2 /\
  snd (handle part_000 s (Message 0 (join "r1" "Alice") 3)) =
  [Send 0 (PJoined "r1" "Alice"); Send 1 (PSystem (joined_text "Alice"))].
Proof. vm_compute. repeat split. Qed.

(* ------------------------------------------------------------------ *)
(** ** Room ids that truncate to the empty string *)

(** part_000 answers such a join with [invalid_room] and changes
    nothing. *)
Lemma Part000_invalid_room s ws msg now :
  tracked ws s = true -> msg_type msg = Some "join"%string ->
  join_room msg = ""%string ->
  handle part_000 s (Message ws (Some msg) now) =
  (s, [Send ws (PError "invalid_room")]).
Proof.
  intros T Hj He. rewrite handle_join by assumption.
  unfold Part000.on_join. now rewrite He.
Qed.

(** C2 at its failing input: server.js has no such check.  A first join
    with the empty room id is acknowledged, the socket is put into the
    [Set] of the room [""] and its room reference becomes [""]. *)
Theorem server_js_joins_empty_room :
  let r := handle server_js (state_after server_js [Connect])
             (Message 0 (join "" "Alice") 1) in
  join_room (Msg (Some "join") (Some "") (Some "Alice") None) = ""%string /\
  snd r = [Send 0 (PJoined "" "Alice")] /\
  room_members (fst r) "" = [0] /\
  room (get_meta 0 (fst r)) = Some ""%string /\
  ready_of 0 (fst r) = OPEN.
Proof. vm_compute. repeat split. Qed.

(* ------------------------------------------------------------------ *)
(** ** A rejected join *)

Lemma In_broadcast c p roomId p' except s :
  In (Send c p) (broadcast roomId p' except s) ->
  p = p' /\ In c (room_members s roomId) /\ ready_of c s = OPEN /\
  is_except except c = false.
Proof.
  unfold broadcast, room_members.
  destruct (Js.map_get roomId (rooms s)) as [r|]; [|intros []].
  intro H. apply in_map_iff in H as [x [E H]]. injection E as -> ->.
  unfold recipients in H. apply filter_In in H as [H1 H2].
  apply andb_prop in H2 as [H2 H3]. apply negb_true_iff in H3.
  repeat split; auto. unfold is_open in H2. now destruct (ready_of c s).
Qed.

(** The two outcomes of a join in server.js. *)
Lemma ServerJs_on_join_cases ws msg s :
  (2 <= length (room_members s (join_room msg)) /\
   ServerJs.on_join ws msg s =
   (ws_close ws s, [Send ws (PError "room_full"); Close ws 1008 "Room full"])) \/
  (length (room_members s (join_room msg)) < 2 /\
   exists s4,
     ServerJs.on_join ws msg s =
     (s4, Send ws (PJoined (join_room msg) (join_name msg))
            :: broadcast (join_room msg) (PSystem (joined_text (join_name msg)))
                 (Some ws) s4)).
Proof.
  destruct (Nat.le_gt_cases 2 (length (room_members s (join_room msg)))) as [H|H].
  - left. split; auto. now apply ServerJs_on_join_full.
  - right. split; auto. unfold ServerJs.on_join.
    pose proof (set_size_room_members (join_room msg) s) as Hsz.
    destruct (get_or_create (join_room msg) s) as [set s1]; cbn [fst snd] in *.
    rewrite <- Hsz in H. apply Nat.leb_gt in H. rewrite H. eauto.
Qed.

(** The three outcomes of a join in part_000. *)
Lemma Part000_on_join_cases ws msg now s :
  wf s ->
  (Js.truthy (join_room msg) = false /\
   Part000.on_join ws msg now s = (s, [Send ws (PError "invalid_room")])) \/
  (Js.truthy (join_room msg) = true /\
   2 <= length (room_members (leave_old ws s) (join_room msg)) /\
   Part000.on_join ws msg now s =
   (ws_close ws (leave_old ws s),
    [Send ws (PError "room_full"); Close ws 1008 "Room full"])) \/
  (Js.truthy (join_room msg) = true /\
   length (room_members (leave_old ws s) (join_room msg)) < 2 /\
   exists s5,
     Part000.on_join ws msg now s =
     (s5, Send ws (PJoined (join_room msg) (join_name msg))
            :: broadcast (join_room msg) (PSystem (joined_text (join_name msg)))
                 (Some ws) s5)).
Proof.
  intro W. destruct (Js.truthy (join_room msg)) eqn:Ht.
  - right.
    destruct (Nat.le_gt_cases 2 (length (room_members (leave_old ws s) (join_room msg))))
      as [H|H].
    + left. repeat split; auto. now apply Part000_on_join_full.
    + right. repeat split; auto. unfold Part000.on_join. rewrite Ht. cbn [negb].
      pose proof (set_size_room_members (join_room msg) (leave_old ws s)) as Hsz.
      destruct (get_or_create (join_room msg) (leave_old ws s)) as [set s2];
        cbn [fst snd] in *.
      rewrite <- Hsz in H. apply Nat.leb_gt in H. rewrite H. eauto.
  - left. split; auto. unfold Part000.on_join. now rewrite Ht.
Qed.

(** In part_000 a socket is in the [Set] of its own room only. *)
Lemma member_only_of_own_room s ws k :
  wf s -> wf_part_000 s -> In ws (room_members s k) ->
  truthy_room (get_meta ws s) = Some k.
Proof.
  intros W WB H. unfold room_members in H.
  destruct (Js.map_get k (rooms s)) as [r|] eqn:E; [|destruct H].
  pose proof (b_key s WB k r E) as Ht.
  unfold truthy_room. rewrite (wf_member s W ws k r E Ht H). now rewrite Ht.
Qed.

Lemma room_members_leave_old_B ws s k :
  wf s -> wf_part_000 s ->
  room_members (leave_old ws s) k = Js.set_delete ws (room_members s k).
Proof.
  intros W WB. rewrite room_members_leave_old by assumption.
  destruct (truthy_room (get_meta ws s)) as [old|] eqn:E.
  - destruct (String.eqb_spec old k) as [->|Hne]; auto.
    symmetry. apply set_delete_absent. intro H.
    apply (member_only_of_own_room s ws k W WB) in H. congruence.
  - symmetry. apply set_delete_absent. intro H.
    apply (member_only_of_own_room s ws k W WB) in H. congruence.
Qed.

(** C3 (amended).  When a join is rejected with [room_full], the room
    reference and the name of every socket are what they were before the
    event, and no socket other than the joining one changes at all.  In
    server.js every room holds the sockets it held before; in part_000
    the joining socket has already left: every room holds the sockets it
    held before, the joining one excepted. *)
Theorem rejected_join_state (v : variant) (es : list event) (ws : conn)
    (msg : message) (now : Z) :
  let s := state_after v es in
  let s' := fst (handle v s (Message ws (Some msg) now)) in
  tracked ws s = true -> msg_type msg = Some "join"%string ->
  In (Send ws (PError "room_full")) (snd (handle v s (Message ws (Some msg) now))) ->
  (forall c, get_meta c s' = get_meta c s) /\
  (forall c, c <> ws -> get_conn c s' = get_conn c s) /\
  (forall k, room_members s' k =
             match v with
             | server_js => room_members s k
             | part_000 => Js.set_delete ws (room_members s k)
             end).
Proof.
  intros s s' T Hj Hin. subst s'.
  pose proof (wf_state_after v es) as W. fold s in W.
  rewrite handle_join in * by assumption.
  assert (Hclose : forall s0 c, c <> ws -> get_conn c (ws_close ws s0) = get_conn c s0).
  { intros s0 c Hc. unfold get_conn, ws_close, upd_conn; simpl.
    now apply nth_upd_nth_other. }
  destruct v.
  - destruct (ServerJs_on_join_cases ws msg s) as [[_ E]|[_ [s4 E]]];
      rewrite E in *; cbn [fst snd] in *.
    + repeat split; auto.
      intro c. apply get_meta_upd_conn, keeps_meta_closing.
    + destruct Hin as [Hin|Hin]; [discriminate|].
      apply In_broadcast in Hin as [Hin _]. discriminate.
  - pose proof (wfB_state_after es) as WB. fold s in WB.
    destruct (Part000_on_join_cases ws msg now s W)
      as [[_ E]|[(_ & _ & E)|(_ & _ & [s5 E])]]; rewrite E in *; cbn [fst snd] in *.
    + destruct Hin as [Hin|[]]. discriminate.
    + repeat split.
      * intro c. unfold ws_close. rewrite get_meta_upd_conn by apply keeps_meta_closing.
        apply get_meta_leave_old.
      * intros c Hc. rewrite Hclose by assumption.
        unfold get_conn. now rewrite (proj1 (leave_old_fields ws s)).
      * intro k. rewrite (room_members_same (leave_old ws s)) by reflexivity.
        now apply room_members_leave_old_B.
    + destruct Hin as [Hin|Hin]; [discriminate|].
      apply In_broadcast in Hin as [Hin _]. discriminate.
Qed.

Lemma rejected_join_state_witness :
  let es := [Connect; Connect; Connect; Connect;
             Message 0 (join "a" "Alice") 1; Message 3 (join "a" "Dan") 2;
             Message 1 (join "b" "Bob") 3; Message 2 (join "b" "Carol") 4] in
  let msg := Msg (Some "join"%string) (Some "b"%string) (Some "Alice"%string) None in
  let s := state_after part_000 es in
  let s' := fst (handle part_000 s (Message 0 (Some msg) 5)) in
  (forall c, get_meta c s' = get_meta c s) /\
  (forall c, c <> 0 -> get_conn c s' = get_conn c s) /\
  (forall k, room_members s' k = Js.set_delete 0 (room_members s k)).
Proof.
  intros es msg.
  apply (rejected_join_state part_000 es 0 msg 5).
  - reflexivity.
  - reflexivity.
  - vm_compute. left; reflexivity.
Defined.

(** C3, as stated, fails in part_000: socket 0 sits alone in room "a",
    room "b" is full; its join of "b" is rejected, and by then it is no
    longer a member of "a", which is gone from the registry, while its
    room reference still names "a". *)
Lemma rejected_join_left_old_room :
  let s := state_after part_000
             [Connect; Connect; Connect;
              Message 0 (join "a" "Alice") 1;
              Message 1 (join "b" "Bob") 2; Message 2 (join "b" "Carol") 3] in
  let r := handle part_000 s (Message 0 (join "b" "Alice") 4) in
  snd r = [Send 0 (PError "room_full"); Close 0 1008 "Room full"] /\
  room_members s "a" = [0] /\
  room_members (fst r) "a" = [] /\
  Js.map_has "a" (rooms (fst r)) = false /\
  room (get_meta 0 (fst r)) = Some "a"%string.
Proof. vm_compute. repeat split. Qed.

(* ------------------------------------------------------------------ *)
(** ** An accepted join *)

Lemma map_get_leave_old_other ws s k :
  truthy_room (get_meta ws s) <> Some k ->
  Js.map_get k (rooms (leave_old ws s)) = Js.map_get k (rooms s).
Proof.
  intro H. unfold leave_old.
  destruct (truthy_room (get_meta ws s)) as [old|]; auto.
  destruct (Js.map_get old (rooms s)) as [oldSet|]; auto.
  destruct (set_size oldSet (sets_delete oldSet ws s) =? 0); auto.
  unfold rooms_delete; simpl. rewrite map_get_delete.
  destruct (String.eqb_spec old k); congruence.
Qed.

Lemma map_get_leave_old_emptied ws s a :
  truthy_room (get_meta ws s) = Some a ->
  Js.set_delete ws (room_members s a) = [] ->
  Js.map_get a (rooms (leave_old ws s)) = None.
Proof.
  intros E H. unfold leave_old. rewrite E. unfold room_members in H.
  destruct (Js.map_get a (rooms s)) as [r|] eqn:Ea; [|assumption].
  unfold set_size. rewrite members_sets_delete, Nat.eqb_refl, H. simpl.
  unfold rooms_delete; simpl. now rewrite map_get_delete, String.eqb_refl.
Qed.

(** State and frames of a join that part_000 accepts. *)
Lemma Part000_on_join_accept ws msg now s :
  wf s -> ws < length (conns s) -> Js.truthy (join_room msg) = true ->
  length (room_members (leave_old ws s) (join_room msg)) < 2 ->
  let b := join_room msg in
  let s' := fst (Part000.on_join ws msg now s) in
  (forall k, room_members s' k =
             if (b =? k)%string then Js.set_add ws (room_members (leave_old ws s) b)
             else room_members (leave_old ws s) k) /\
  (forall k, k <> b -> Js.map_get k (rooms s') = Js.map_get k (rooms (leave_old ws s))) /\
  (forall c, get_meta c s' = if Nat.eqb ws c then Meta (Some b) (join_name msg)
                             else get_meta c s) /\
  (forall c, ready_of c s' = ready_of c s) /\
  allRooms s' = Js.sset_add b (allRooms s) /\
  roomUpdated s' = Js.map_set b now (roomUpdated s) /\
  snd (Part000.on_join ws msg now s) =
  Send ws (PJoined b (join_name msg))
    :: broadcast b (PSystem (joined_text (join_name msg))) (Some ws) s'.
Proof.
  intros W Hws Ht Hlen b s'. subst b s'. unfold Part000.on_join.
  rewrite Ht. cbn [negb].
  pose proof (wf_leave_old ws s W) as W1.
  destruct (leave_old_fields ws s) as (Lc & La & Lu & Ll).
  pose proof (get_or_create_spec (join_room msg) (leave_old ws s))
    as (Hg & Ho & Hm & Hc & Ha & Hu & _).
  pose proof (wf_get_or_create (join_room msg) _ W1) as W2.
  pose proof (room_members_get_or_create (join_room msg) (leave_old ws s)) as Hrm.
  pose proof (set_size_room_members (join_room msg) (leave_old ws s)) as Hsz.
  destruct (get_or_create (join_room msg) (leave_old ws s)) as [set s2]; cbn [fst snd] in *.
  rewrite <- Hsz in Hlen. apply Nat.leb_gt in Hlen. rewrite Hlen. cbn [fst snd].
  set (m := Meta (Some (join_room msg)) (join_name msg)).
  set (s4 := set_meta ws m (sets_add set ws s2)).
  repeat split.
  - intro k. rewrite (room_members_same (sets_add set ws s2)) by reflexivity.
    rewrite (room_members_sets_add (join_room msg)) by assumption.
    now rewrite !Hrm.
  - intros k Hk. now apply Ho.
  - intro c. change (get_meta c s4 = if Nat.eqb ws c then m else get_meta c s).
    unfold s4. rewrite get_meta_set_meta by (simpl; rewrite Hc, Lc; assumption).
    change (get_meta c (sets_add set ws s2)) with (get_meta c s2).
    destruct (Nat.eqb ws c); auto.
    rewrite <- (get_meta_leave_old c ws s). unfold get_meta, get_conn. now rewrite Hc.
  - intro c. change (ready_of c s4 = ready_of c s). unfold s4.
    rewrite ready_of_set_meta.
    change (ready_of c (sets_add set ws s2)) with (ready_of c s2).
    rewrite <- (ready_of_leave_old c ws s). unfold ready_of, get_conn. now rewrite Hc.
  - simpl. now rewrite Ha, La.
  - simpl. now rewrite Hu, Lu.
Qed.

(** State and frames of a join that server.js accepts, for a room other
    than the one the socket refers to. *)
Lemma ServerJs_on_join_accept ws msg s :
  wf s -> ws < length (conns s) ->
  length (room_members s (join_room msg)) < 2 ->
  truthy_room (get_meta ws s) <> Some (join_room msg) ->
  let b := join_room msg in
  let s' := fst (ServerJs.on_join ws msg s) in
  (forall k, room_members s' k =
             if (b =? k)%string then Js.set_add ws (room_members s b)
             else room_members (leave_old ws s) k) /\
  (forall k, k <> b -> Js.map_get k (rooms s') = Js.map_get k (rooms (leave_old ws s))) /\
  (forall c, get_meta c s' = if Nat.eqb ws c then Meta (Some b) (join_name msg)
                             else get_meta c s) /\
  (forall c, ready_of c s' = ready_of c s) /\
  snd (ServerJs.on_join ws msg s) =
  Send ws (PJoined b (join_name msg))
    :: broadcast b (PSystem (joined_text (join_name msg))) (Some ws) s'.
Proof.
  intros W Hws Hlen Hold b s'. subst b s'. unfold ServerJs.on_join.
  pose proof (get_or_create_spec (join_room msg) s) as (Hg & Ho & Hm & Hc & _).
  pose proof (wf_get_or_create (join_room msg) s W) as W1.
  pose proof (room_members_get_or_create (join_room msg) s) as Hrm.
  pose proof (set_size_room_members (join_room msg) s) as Hsz.
  destruct (get_or_create (join_room msg) s) as [set s1]; cbn [fst snd] in *.
  rewrite <- Hsz in Hlen. apply Nat.leb_gt in Hlen. rewrite Hlen. cbn [fst snd].
  assert (Hmeta : forall c, get_meta c s1 = get_meta c s).
  { intro c. unfold get_meta, get_conn. now rewrite Hc. }
  assert (Hold1 : truthy_room (get_meta ws s1) <> Some (join_room msg))
    by now rewrite Hmeta.
  pose proof (wf_leave_old ws s1 W1) as W2.
  assert (Hg2 : Js.map_get (join_room msg) (rooms (leave_old ws s1)) = Some set).
  { now rewrite map_get_leave_old_other. }
  assert (Hrm2 : forall k, room_members (leave_old ws s1) k = room_members (leave_old ws s) k).
  { intro k. rewrite !room_members_leave_old by assumption. now rewrite Hmeta, !Hrm. }
  set (m := Meta (Some (join_room msg)) (join_name msg)).
  destruct (leave_old_fields ws s1) as (Lc & _).
  repeat split.
  - intro k.
    rewrite (room_members_same (sets_add set ws (leave_old ws s1))) by reflexivity.
    rewrite (room_members_sets_add (join_room msg)) by assumption.
    rewrite !Hrm2.
    destruct (String.eqb_spec (join_room msg) k) as [<-|]; auto.
    f_equal. rewrite room_members_leave_old by assumption.
    destruct (truthy_room (get_meta ws s)) as [old|]; auto.
    destruct (String.eqb_spec old (join_room msg)); congruence.
  - intros k Hk.
    change (Js.map_get k (rooms (leave_old ws s1)) = Js.map_get k (rooms (leave_old ws s))).
    destruct (truthy_room (get_meta ws s)) as [old|] eqn:E.
    + destruct (String.eqb_spec old k) as [->|Hne].
      * assert (R1 := room_members_leave_old ws s1 k W1).
        assert (R2 := room_members_leave_old ws s k W).
        rewrite Hmeta, E, String.eqb_refl in R1.
        rewrite E, String.eqb_refl in R2.
        unfold leave_old. rewrite Hmeta, E, (Ho k Hk).
        destruct (Js.map_get k (rooms s)) as [r|] eqn:Ek; [|now apply Ho].
        unfold set_size. rewrite !members_sets_delete, !Nat.eqb_refl, Hm.
        destruct (length (Js.set_delete ws (members r s)) =? 0).
        -- unfold rooms_delete; simpl. now rewrite !map_get_delete, String.eqb_refl.
        -- simpl. now apply Ho.
      * rewrite !map_get_leave_old_other; auto; rewrite ?Hmeta, E; congruence.
    + rewrite !map_get_leave_old_other; auto; rewrite ?Hmeta, E; congruence.
  - intro c. rewrite get_meta_set_meta by (simpl; rewrite Lc, Hc; assumption).
    change (get_meta c (sets_add set ws (leave_old ws s1))) with (get_meta c (leave_old ws s1)).
    rewrite get_meta_leave_old, Hmeta. reflexivity.
  - intro c. rewrite ready_of_set_meta.
    change (ready_of c (sets_add set ws (leave_old ws s1)))
      with (ready_of c (leave_old ws s1)).
    rewrite ready_of_leave_old. unfold ready_of, get_conn. now rewrite Hc.
Qed.

(* ------------------------------------------------------------------ *)
(** ** Switching rooms *)

Lemma truthy_room_Some m k :
  truthy_room m = Some k <-> room m = Some k /\ Js.truthy k = true.
Proof.
  unfold truthy_room. destruct (room m) as [r|]; [|split; [discriminate|intros [[=] _]]].
  destruct (Js.truthy r) eqn:E; split.
  - intros [= <-]. auto.
  - intros [[= <-] _]. reflexivity.
  - discriminate.
  - intros [[= <-] H]. congruence.
Qed.

Lemma member_room s c k :
  wf s -> Js.truthy k = true -> In c (room_members s k) ->
  room (get_meta c s) = Some k.
Proof.
  intros W Ht H. unfold room_members in H.
  destruct (Js.map_get k (rooms s)) as [r|] eqn:E; [|destruct H].
  eapply wf_member; eauto.
Qed.

Lemma room_members_leave_old_own ws s a :
  wf s -> truthy_room (get_meta ws s) = Some a ->
  room_members (leave_old ws s) a = Js.set_delete ws (room_members s a).
Proof.
  intros W E. rewrite room_members_leave_old by assumption.
  now rewrite E, String.eqb_refl.
Qed.

Lemma room_members_leave_old_foreign ws s a k :
  wf s -> truthy_room (get_meta ws s) = Some a -> k <> a ->
  room_members (leave_old ws s) k = room_members s k.
Proof.
  intros W E Hk. rewrite room_members_leave_old by assumption.
  rewrite E. destruct (String.eqb_spec a k); congruence.
Qed.

Lemma map_has_false {V : Type} k (m : list (string * V)) :
  Js.map_get k m = None -> Js.map_has k m = false.
Proof. unfold Js.map_has. now intros ->. Qed.

(** C4 (amended).  A socket joined to room [a] sends a join for another
    room [b] with a non-empty id.  part_000 then always, and server.js
    whenever [b] holds fewer than 2 sockets, removes the socket from the
    [Set] of [a] and deletes the entry of [a] when that [Set] is left
    empty.  No frame at all is sent to the sockets that stay in [a]:
    there is no departure notice on a switch of rooms. *)
Theorem switch_leaves_old_room (v : variant) (es : list event) (ws : conn)
    (msg : message) (now : Z) (a : string) :
  let s := state_after v es in
  let r := handle v s (Message ws (Some msg) now) in
  tracked ws s = true -> msg_type msg = Some "join"%string ->
  truthy_room (get_meta ws s) = Some a -> In ws (room_members s a) ->
  Js.truthy (join_room msg) = true -> join_room msg <> a ->
  v = part_000 \/ length (room_members s (join_room msg)) < 2 ->
  room_members (fst r) a = Js.set_delete ws (room_members s a) /\
  (Js.set_delete ws (room_members s a) = [] -> Js.map_has a (rooms (fst r)) = false) /\
  (forall c p, In c (room_members s a) -> c <> ws -> ~ In (Send c p) (snd r)).
Proof.
  intros s r T Hj Ha Hin Hb Hne Hv. subst r.
  pose proof (wf_state_after v es) as W. fold s in W.
  pose proof (tracked_lt ws s T) as Hws.
  rewrite handle_join by assumption.
  pose proof (proj1 (truthy_room_Some _ _) Ha) as [_ Hta].
  assert (Hboth : forall c, In c (room_members s a) ->
                            ~ In c (room_members s (join_room msg))).
  { intros c H1 H2. apply (member_room s c a W Hta) in H1.
    apply (member_room s c _ W Hb) in H2. congruence. }
  destruct v.
  - destruct Hv as [Hv|Hlen]; [discriminate|].
    assert (Hold : truthy_room (get_meta ws s) <> Some (join_room msg)) by congruence.
    destruct (ServerJs_on_join_accept ws msg s W Hws Hlen Hold)
      as (Hr & Hk & _ & _ & Hout).
    repeat split.
    + rewrite Hr. destruct (String.eqb_spec (join_room msg) a); [congruence|].
      now apply room_members_leave_old_own.
    + intro He. apply map_has_false. rewrite Hk by congruence.
      now apply map_get_leave_old_emptied.
    + intros c p Hc Hcw Hs. rewrite Hout in Hs. destruct Hs as [Hs|Hs]; [congruence|].
      apply In_broadcast in Hs as (_ & Hs & _). rewrite Hr, String.eqb_refl in Hs.
      apply In_set_add in Hs as [Hs|Hs]; [congruence|]. now apply (Hboth c).
  - destruct (Part000_on_join_cases ws msg now s W)
      as [[Hf _]|[(_ & _ & E)|(_ & Hlen & _)]].
    + congruence.
    + rewrite E. cbn [fst snd]. repeat split.
      * rewrite (room_members_same (leave_old ws s)) by reflexivity.
        now apply room_members_leave_old_own.
      * intro He. apply map_has_false.
        change (rooms (ws_close ws (leave_old ws s))) with (rooms (leave_old ws s)).
        now apply map_get_leave_old_emptied.
      * intros c p Hc Hcw [Hs|[Hs|[]]]; congruence.
    + destruct (Part000_on_join_accept ws msg now s W Hws Hb Hlen)
        as (Hr & Hk & _ & _ & _ & _ & Hout).
      repeat split.
      * rewrite Hr. destruct (String.eqb_spec (join_room msg) a); [congruence|].
        now apply room_members_leave_old_own.
      * intro He. apply map_has_false. rewrite Hk by congruence.
        now apply map_get_leave_old_emptied.
      * intros c p Hc Hcw Hs. rewrite Hout in Hs. destruct Hs as [Hs|Hs]; [congruence|].
        apply In_broadcast in Hs as (_ & Hs & _). rewrite Hr, String.eqb_refl in Hs.
        apply In_set_add in Hs as [Hs|Hs]; [congruence|].
        rewrite (room_members_leave_old_foreign ws s a) in Hs by assumption.
        now apply (Hboth c).
Qed.

Lemma switch_leaves_old_room_witness :
  let es := [Connect; Connect;
             Message 0 (join "a" "Alice") 1; Message 1 (join "a" "Bob") 2] in
  let msg := Msg (Some "join"%string) (Some "b"%string) (Some "Alice"%string) None in
  let s := state_after part_000 es in
  let r := handle part_000 s (Message 0 (Some msg) 3) in
  room_members (fst r) "a" = Js.set_delete 0 (room_members s "a") /\
  (Js.set_delete 0 (room_members s "a") = [] -> Js.map_has "a" (rooms (fst r)) = false) /\
  (forall c p, In c (room_members s "a") -> c <> 0 -> ~ In (Send c p) (snd r)).
Proof.
  intros es msg.
  apply (switch_leaves_old_room part_000 es 0 msg 3 "a"%string).
  - reflexivity.
  - reflexivity.
  - reflexivity.
  - vm_compute. left; reflexivity.
  - reflexivity.
  - vm_compute. discriminate.
  - left; reflexivity.
Defined.

(** C4, as stated, fails in both programs: socket 0 leaves room "a" for
    room "b" and the only frame produced is its own acknowledgement;
    socket 1, which stays in "a", is sent nothing. *)
Lemma switch_sends_no_departure_notice :
  let es := [Connect; Connect;
             Message 0 (join "a" "Alice") 1; Message 1 (join "a" "Bob") 2] in
  room_members (state_after part_000 es) "a" = [0; 1] /\
  ready_of 1 (state_after part_000 es) = OPEN /\
  snd (handle part_000 (state_after part_000 es) (Message 0 (join "b" "Alice") 3)) =
  [Send 0 (PJoined "b" "Alice")] /\
  room_members (state_after server_js es) "a" = [0; 1] /\
  ready_of 1 (state_after server_js es) = OPEN /\
  snd (handle server_js (state_after server_js es) (Message 0 (join "b" "Alice") 3)) =
  [Send 0 (PJoined "b" "Alice")].
Proof. vm_compute. repeat split. Qed.

(* ------------------------------------------------------------------ *)
(** ** Relaying a message *)

Lemma accepted_text_spec msg t :
  accepted_text msg = Some t <->
  t = Js.trim (Js.or_default (msg_text msg) "") /\ t <> ""%string /\
  String.length t <= 2000.
Proof.
  unfold accepted_text, Js.truthy.
  set (x := Js.trim (Js.or_default (msg_text msg) "")).
  destruct (String.eqb_spec x "") as [E|E]; simpl.
  - split; [discriminate|]. intros (-> & H & _). congruence.
  - destruct (Nat.ltb_spec 2000 (String.length x)) as [H|H].
    + split; [discriminate|]. intros (-> & _ & H'). lia.
    + split.
      * intros [= <-]. auto.
      * intros (-> & _ & _). reflexivity.
Qed.

(** A [msg] frame from a socket without a truthy room reference, or whose
    trimmed text is empty or longer than 2000, is dropped by both
    programs: no frame goes out and the state is what it was. *)
Lemma msg_dropped v s ws msg now :
  tracked ws s = true -> msg_type msg = Some "msg"%string ->
  truthy_room (get_meta ws s) = None \/ accepted_text msg = None ->
  handle v s (Message ws (Some msg) now) = (s, []).
Proof.
  intros T Hm H. rewrite handle_msg by assumption.
  destruct v; unfold ServerJs.on_msg, Part000.on_msg;
    destruct (truthy_room (get_meta ws s)); auto;
    destruct H as [H|H]; try discriminate; now rewrite H.
Qed.

(** Otherwise the frame [{type: "msg", name, text, ts}] is sent to the
    sender once, ahead of the open members of the room its reference
    names, the sender excepted; part_000 also records the activity. *)
Lemma msg_relayed v s ws msg now r t :
  tracked ws s = true -> msg_type msg = Some "msg"%string ->
  truthy_room (get_meta ws s) = Some r -> accepted_text msg = Some t ->
  let p := PMsg (name (get_meta ws s)) t now in
  snd (handle v s (Message ws (Some msg) now)) =
  Send ws p :: map (fun c => Send c p)
                 (filter (fun c => is_open (ready_of c s) && negb (Nat.eqb c ws))
                         (room_members s r)) /\
  fst (handle v s (Message ws (Some msg) now)) =
  match v with server_js => s | part_000 => Part000.touch r now s end.
Proof.
  intros T Hm Hr Ht p. rewrite handle_msg by assumption.
  assert (Hb : broadcast r p (Some ws) s =
               map (fun c => Send c p)
                 (filter (fun c => is_open (ready_of c s) && negb (Nat.eqb c ws))
                         (room_members s r))).
  { unfold broadcast, room_members, recipients.
    destruct (Js.map_get r (rooms s)); reflexivity. }
  destruct v; unfold ServerJs.on_msg, Part000.on_msg; rewrite Hr, Ht; cbn [fst snd];
    fold p; rewrite Hb; auto.
Qed.

Lemma filter_others_length (P : nat -> bool) x l :
  NoDup l -> In x l ->
  S (length (filter (fun c => P c && negb (Nat.eqb c x)) l)) <= length l.
Proof.
  induction l as [|y l IH]; intros Hnd Hin; [destruct Hin|].
  inversion Hnd as [|? ? Hni Hnd']; subst. simpl.
  destruct Hin as [->|Hin].
  - rewrite Nat.eqb_refl, andb_false_r.
    assert (H := filter_length_le (fun c => P c && negb (Nat.eqb c x)) l). lia.
  - specialize (IH Hnd' Hin).
    destruct (P y && negb (Nat.eqb y x)); simpl; lia.
Qed.

(** In part_000 an open sender is a member of its room, so that the relay
    reaches at most one other socket. *)
Lemma part_000_msg_one_other es ws r :
  let s := state_after part_000 es in
  ready_of ws s = OPEN -> truthy_room (get_meta ws s) = Some r ->
  length (filter (fun c => is_open (ready_of c s) && negb (Nat.eqb c ws))
                 (room_members s r)) <= 1.
Proof.
  intros s Ho Hr. apply truthy_room_Some in Hr as [Hr _].
  pose proof (wf_state_after part_000 es) as W.
  pose proof (wfB_state_after es) as WB. fold s in W, WB.
  pose proof (b_open s WB ws r Ho Hr) as Hin.
  pose proof (filter_others_length (fun c => is_open (ready_of c s)) ws _
                (room_members_NoDup s r W) Hin).
  pose proof (room_members_length_le s r W). lia.
Qed.

(** C5 at its failing input, in server.js.  Socket 0 joins room "r" twice
    while alone in it: the second join empties and deletes the entry of
    "r" and then adds the socket to the detached [Set], so that socket 0
    keeps the room reference "r" without being in the registry.  Sockets
    1 and 2 then fill the new room "r".  A message of socket 0 is relayed
    to both of them: two recipients besides the sender. *)
Theorem server_js_msg_two_other_recipients :
  let s := state_after server_js
             [Connect; Connect; Connect;
              Message 0 (join "r" "Alice") 1; Message 0 (join "r" "Alice") 2;
              Message 1 (join "r" "Bob") 3; Message 2 (join "r" "Carol") 4] in
  ready_of 0 s = OPEN /\ ready_of 1 s = OPEN /\ ready_of 2 s = OPEN /\
  room (get_meta 0 s) = Some "r"%string /\
  room_members s "r" = [1; 2] /\
  snd (handle server_js s (Message 0 (say "hi") 5)) =
  [Send 0 (PMsg "Alice" "hi" 5); Send 1 (PMsg "Alice" "hi" 5);
   Send 2 (PMsg "Alice" "hi" 5)].
Proof. vm_compute. repeat split. Qed.

(* ------------------------------------------------------------------ *)
(** ** Sorting by descending key *)

Section SortFacts.
Context {A : Type} (key : A -> Z).

Lemma sort_insert_perm x l :
  Permutation (Js.sort_insert (fun a b => (key b - key a)%Z) x l) (x :: l).
Proof.
  induction l as [|y l IH]; simpl; auto.
  destruct (key y - key x <=? 0)%Z; auto.
  rewrite IH. apply perm_swap.
Qed.

Lemma sort_perm l : Permutation (Js.sort (fun a b => (key b - key a)%Z) l) l.
Proof.
  induction l as [|x l IH]; simpl; auto.
  rewrite sort_insert_perm. now constructor.
Qed.

Lemma sort_insert_sorted x l :
  StronglySorted (fun a b => (key a >= key b)%Z) l ->
  StronglySorted (fun a b => (key a >= key b)%Z)
    (Js.sort_insert (fun a b => (key b - key a)%Z) x l).
Proof.
  induction l as [|y l IH]; intro H; simpl.
  - constructor; constructor.
  - inversion H as [|? ? Hs Hf]; subst.
    destruct (Z.leb_spec (key y - key x) 0) as [Hc|Hc].
    + constructor; auto. constructor; [lia|].
      eapply Forall_impl; [|exact Hf]. simpl. intros z Hz. lia.
    + constructor; auto.
      apply (Permutation_Forall (x := x :: l)).
      * symmetry. apply sort_insert_perm.
      * constructor; [lia|assumption].
Qed.

Lemma sort_sorted l :
  StronglySorted (fun a b => (key a >= key b)%Z)
    (Js.sort (fun a b => (key b - key a)%Z) l).
Proof.
  induction l as [|x l IH]; simpl; [constructor|].
  now apply sort_insert_sorted.
Qed.

End SortFacts.

Lemma In_list_rooms_all s k :
  In k (Part000.list_rooms (Some "all"%string) s) <-> In k (allRooms s).
Proof.
  unfold Part000.list_rooms. cbn.
  split; apply Permutation_in; [|symmetry]; apply (sort_perm (Part000.activity s)).
Qed.

(** The ids of the rooms whose [Set] is not empty. *)
Lemma In_active k s :
  NoDup (map fst (rooms s)) ->
  In k (map fst (filter (fun p => 0 <? set_size (snd p) s) (rooms s))) <->
  room_members s k <> [].
Proof.
  intro Hnd. rewrite in_map_iff. unfold room_members. split.
  - intros [[k' r] [E H]]. simpl in E; subst k'.
    apply filter_In in H as [H1 H2]. simpl in H2.
    rewrite (In_map_get k r _ Hnd H1).
    apply Nat.ltb_lt in H2. unfold set_size in H2.
    intro E. rewrite E in H2. simpl in H2. lia.
  - destruct (Js.map_get k (rooms s)) as [r|] eqn:E; [|congruence].
    intro H. exists (k, r). split; auto.
    apply filter_In. split; [now apply map_get_In|].
    simpl. apply Nat.ltb_lt. unfold set_size.
    destruct (members r s); [congruence|simpl; lia].
Qed.

Lemma In_list_rooms_active s scope k :
  wf s -> Js.or_default scope "active" <> "all"%string ->
  In k (Part000.list_rooms scope s) <-> room_members s k <> [].
Proof.
  intros W Hs. unfold Part000.list_rooms.
  destruct (String.eqb_spec (Js.or_default scope "active") "all"); [congruence|].
  rewrite <- (In_active k s (wf_keys s W)).
  split; apply Permutation_in; [|symmetry]; apply (sort_perm (Part000.activity s)).
Qed.

Lemma In_ServerJs_list_rooms s k :
  wf s -> In k (ServerJs.list_rooms s) <-> room_members s k <> [].
Proof. intro W. apply In_active, W. Qed.

(* ------------------------------------------------------------------ *)
(** ** Transport close *)

Lemma filter_sent_to p q l :
  NoDup l -> In p l -> filter (sent_to p) (map (fun c => Send c q) l) = [Send p q].
Proof.
  induction l as [|y l IH]; intros Hnd Hin; [destruct Hin|].
  inversion Hnd as [|? ? Hni Hnd']; subst. simpl.
  destruct (Nat.eqb_spec y p) as [->|Hne].
  - f_equal. clear IH Hin Hnd Hnd'. induction l as [|z l IH]; simpl; auto.
    destruct (Nat.eqb_spec z p) as [->|]; [exfalso; apply Hni; now left|].
    apply IH. intro H; apply Hni; now right.
  - destruct Hin as [->|Hin]; [congruence|]. auto.
Qed.

Lemma on_close_effects v ws now s r :
  truthy_room (get_meta ws s) = Some r -> room_members s r <> [] ->
  let rest := Js.set_delete ws (room_members s r) in
  snd (on_close v ws now s) =
  match rest with
  | [] => []
  | _ => map (fun c => Send c (PSystem (left_text (name (get_meta ws s)))))
           (filter (fun c => is_open (ready_of c s)) rest)
  end /\
  rooms (fst (on_close v ws now s)) =
  match rest with [] => Js.map_delete r (rooms s) | _ => rooms s end /\
  allRooms (fst (on_close v ws now s)) = allRooms s.
Proof.
  intros Hr Hm rest. subst rest. unfold room_members in *.
  destruct (Js.map_get r (rooms s)) as [set|] eqn:E; [|congruence].
  assert (Hsz : set_size set (sets_delete set ws s) =
                length (Js.set_delete ws (members set s))).
  { unfold set_size. now rewrite members_sets_delete, Nat.eqb_refl. }
  assert (Hb : broadcast r (PSystem (left_text (name (get_meta ws s)))) None
                 (sets_delete set ws s) =
               map (fun c => Send c (PSystem (left_text (name (get_meta ws s)))))
                 (filter (fun c => is_open (ready_of c s))
                         (Js.set_delete ws (members set s)))).
  { unfold broadcast, recipients.
    change (rooms (sets_delete set ws s)) with (rooms s). rewrite E.
    rewrite members_sets_delete, Nat.eqb_refl. f_equal.
    apply filter_ext. intro c. simpl. now rewrite andb_true_r. }
  destruct v; cbn [on_close]; unfold ServerJs.on_close, Part000.on_close;
    rewrite Hr, E, Hsz;
    destruct (Js.set_delete ws (members set s)) eqn:Ed; simpl; rewrite ?Hb, ?Ed; auto.
Qed.

Lemma not_In_map_delete {V : Type} k (m : list (string * V)) :
  ~ In k (map fst (Js.map_delete k m)).
Proof.
  apply map_get_None. rewrite map_get_delete. now rewrite String.eqb_refl.
Qed.

(** C6 (amended).  The transport of a socket that is joined to room [r]
    closes.  Every other member of [r] whose socket is open is sent the
    departure notice, and that is the one frame it is sent.  When no other
    member is left, no frame is sent and [r] leaves the active listing of
    either program; in part_000 it stays in the listing of scope [all]
    (server.js keeps no historical record). *)
Theorem close_notifies_peer (v : variant) (es : list event) (ws : conn) (now : Z)
    (r : string) :
  let s := state_after v es in
  let res := handle v s (CloseEv ws now) in
  tracked ws s = true ->
  truthy_room (get_meta ws s) = Some r -> In ws (room_members s r) ->
  (forall p, In p (room_members s r) -> p <> ws -> ready_of p s = OPEN ->
     filter (sent_to p) (snd res) =
     [Send p (PSystem (left_text (name (get_meta ws s))))]) /\
  (Js.set_delete ws (room_members s r) = [] ->
     snd res = [] /\ ~ In r (active_rooms v (fst res)) /\
     (v = part_000 -> In r (Part000.list_rooms (Some "all"%string) (fst res)))).
Proof.
  intros s res T Hr Hin. subst res.
  pose proof (wf_state_after v es) as W. fold s in W.
  cbn [handle]. rewrite T.
  set (s0 := upd_conn ws (with_ready CLOSED) s).
  assert (Hmeta : get_meta ws s0 = get_meta ws s)
    by apply get_meta_upd_conn, keeps_meta_ready.
  assert (Hrm : forall k, room_members s0 k = room_members s k)
    by (intro k; now apply room_members_same).
  assert (Hr0 : truthy_room (get_meta ws s0) = Some r) by now rewrite Hmeta.
  assert (Hne : room_members s0 r <> []).
  { rewrite Hrm. intro E. rewrite E in Hin. destruct Hin. }
  destruct (on_close_effects v ws now s0 r Hr0 Hne) as (Hout & Hrooms & Hall).
  rewrite Hrm, Hmeta in *. split.
  - intros p Hp Hpw Ho.
    assert (Hd : In p (Js.set_delete ws (room_members s r)))
      by (apply In_set_delete; auto).
    rewrite Hout.
    destruct (Js.set_delete ws (room_members s r)) as [|x l] eqn:Ed; [destruct Hd|].
    apply filter_sent_to.
    + apply NoDup_filter. rewrite <- Ed. apply NoDup_set_delete.
      now apply room_members_NoDup.
    + apply filter_In. split; auto.
      unfold s0. rewrite ready_of_upd_conn.
      destruct (Nat.eqb_spec ws p); [congruence|]. simpl. now rewrite Ho.
  - intro He. rewrite He in *. split; [assumption|]. split.
    + assert (W' : wf (fst (on_close v ws now s0))).
      { assert (W0 : wf s0) by (apply wf_upd_conn; auto using keeps_meta_ready).
        destruct v; cbn [on_close];
          [now apply wf_ServerJs_on_close | now apply wf_Part000_on_close]. }
      assert (Hk : room_members (fst (on_close v ws now s0)) r = []).
      { unfold room_members. rewrite Hrooms, map_get_delete.
        now rewrite String.eqb_refl. }
      intro H. destruct v; cbn [active_rooms] in H.
      * apply In_ServerJs_list_rooms in H; auto.
      * apply In_list_rooms_active in H; auto. discriminate.
    + intros ->. apply In_list_rooms_all. rewrite Hall.
      pose proof (wfB_state_after es) as WB. fold s in WB.
      apply truthy_room_Some in Hr as [Hr _].
      apply (b_seen s WB ws r Hr).
Qed.

Lemma close_notifies_peer_witness :
  let es := [Connect; Connect;
             Message 0 (join "r1" "Alice") 1; Message 1 (join "r1" "Bob") 2] in
  let s := state_after part_000 es in
  let res := handle part_000 s (CloseEv 1 3) in
  (forall p, In p (room_members s "r1") -> p <> 1 -> ready_of p s = OPEN ->
     filter (sent_to p) (snd res) =
     [Send p (PSystem (left_text (name (get_meta 1 s))))]) /\
  (Js.set_delete 1 (room_members s "r1") = [] ->
     snd res = [] /\ ~ In "r1"%string (active_rooms part_000 (fst res)) /\
     (part_000 = part_000 ->
      In "r1"%string (Part000.list_rooms (Some "all"%string) (fst res)))).
Proof.
  intros es.
  apply (close_notifies_peer part_000 es 1 3 "r1"%string).
  - reflexivity.
  - reflexivity.
  - vm_compute. right; left; reflexivity.
Defined.

(** C6, as stated, fails in server.js, which has no scope [all]: once the
    only member of "r1" has closed, the listing no longer shows the room
    although it was joined. *)
Lemma server_js_forgets_closed_room :
  let es := [Connect; Message 0 (join "r1" "Alice") 1] in
  trace_of server_js es = [Send 0 (PJoined "r1" "Alice")] /\
  ServerJs.list_rooms (state_after server_js es) = ["r1"%string] /\
  ServerJs.list_rooms (state_after server_js (es ++ [CloseEv 0 2])) = [].
Proof. vm_compute. repeat split. Qed.

(* ------------------------------------------------------------------ *)
(** ** The listing *)

Lemma no_joined_broadcast k roomId text except s :
  no_joined k (broadcast roomId (PSystem text) except s).
Proof. intros c n H. apply In_broadcast in H as [H _]. discriminate. Qed.

Lemma no_joined_heartbeat k s : no_joined k (snd (heartbeat s)).
Proof.
  intros c n H. unfold heartbeat in H.
  pose proof (heartbeat_from_effects 0 (conns s) (Send c (PJoined k n))) as Hh.
  destruct (heartbeat_from 0 (conns s)) as [cs es]. cbn [snd] in *.
  apply Hh in H as [j (_ & _ & H)].
  destruct (isAlive (nth j (conns s) no_conn)); discriminate.
Qed.

(** One event of part_000 adds a room id to [allRooms] exactly when it
    acknowledges a join of that room. *)
Lemma allRooms_handle s e k :
  wf s ->
  In k (allRooms (fst (handle part_000 s e))) <->
  In k (allRooms s) \/ exists c n, In (Send c (PJoined k n)) (snd (handle part_000 s e)).
Proof.
  intro W.
  assert (Hsame : forall s' out, allRooms s' = allRooms s -> no_joined k out ->
            (In k (allRooms s') <-> In k (allRooms s) \/
               exists c n, In (Send c (PJoined k n)) out)).
  { intros s' out -> Hn. split; [auto|]. intros [H|[c [n H]]]; auto.
    now apply Hn in H. }
  assert (Hnil : no_joined k []) by (intros c n []).
  destruct e as [|ws data now|ws now|ws| |ws]; cbn [handle].
  - now apply Hsame.
  - destruct (tracked ws s) eqn:T; [|now apply Hsame].
    apply tracked_lt in T. cbn [on_message]. unfold Part000.on_message.
    destruct data as [msg|]; [|now apply Hsame].
    destruct (msg_type msg) as [t|]; [|now apply Hsame].
    destruct (t =? "join")%string.
    + destruct (Part000_on_join_cases ws msg now s W)
        as [[_ E]|[(_ & _ & E)|(Ht & Hlen & _)]].
      * rewrite E. apply Hsame; auto. intros c n [H|[]]. discriminate.
      * rewrite E. apply Hsame.
        -- apply (proj1 (proj2 (leave_old_fields ws s))).
        -- intros c n [H|[H|[]]]; discriminate.
      * destruct (Part000_on_join_accept ws msg now s W T Ht Hlen)
          as (_ & _ & _ & _ & Ha & _ & Hout).
        rewrite Ha, Hout, In_sset_add. split.
        -- intros [->|H]; auto. right. exists ws, (join_name msg). now left.
        -- intros [H|[c [n [H|H]]]]; auto.
           ++ injection H as _ -> _. auto.
           ++ now apply no_joined_broadcast in H.
    + destruct (t =? "msg")%string; [|now apply Hsame].
      unfold Part000.on_msg.
      destruct (truthy_room (get_meta ws s)); [|now apply Hsame].
      destruct (accepted_text msg); [|now apply Hsame].
      apply Hsame; auto. intros c n [H|H]; [discriminate|].
      apply In_broadcast in H as [H _]. discriminate.
  - destruct (tracked ws s); [|now apply Hsame].
    cbn [on_close].
    destruct (Part000_on_close_state ws now (upd_conn ws (with_ready CLOSED) s))
      as (_ & _ & _ & Ha).
    apply Hsame; auto.
    unfold Part000.on_close.
    destruct (truthy_room _); auto.
    destruct (Js.map_get _ _); auto.
    destruct (_ =? 0); cbn [snd]; auto. apply no_joined_broadcast.
  - destruct (tracked ws s); now apply Hsame.
  - apply Hsame; [apply heartbeat_fields | apply no_joined_heartbeat].
  - destruct (tracked ws s); now apply Hsame.
Qed.

Lemma allRooms_run es k : forall s,
  wf s ->
  In k (allRooms (fst (run part_000 s es))) <->
  In k (allRooms s) \/ exists c n, In (Send c (PJoined k n)) (snd (run part_000 s es)).
Proof.
  induction es as [|e es IH]; intros s W; simpl.
  - split; auto. intros [H|[c [n []]]]; auto.
  - pose proof (wf_handle part_000 s e W) as W1.
    pose proof (allRooms_handle s e k W) as H1.
    destruct (handle part_000 s e) as [s1 o1]. cbn [fst snd] in *.
    specialize (IH s1 W1).
    destruct (run part_000 s1 es) as [s2 o2]. cbn [fst snd] in *.
    rewrite IH, H1. split.
    + intros [[H|[c [n H]]]|[c [n H]]]; auto; right; exists c, n;
        apply in_or_app; auto.
    + intros [H|[c [n H]]]; auto.
      apply in_app_or in H as [H|H]; eauto.
Qed.

(** C7 (amended).  In part_000 the listing for a scope other than [all]
    holds exactly the ids of the rooms whose [Set] is not empty, the
    listing for scope [all] holds exactly the room ids whose join was ever
    acknowledged, and either listing is sorted by descending
    [roomUpdated.get(id) || 0].  server.js has one listing only, whatever
    the scope asked for: the ids of the rooms whose [Set] is not empty. *)
Theorem listing_of_rooms (es : list event) :
  let s := state_after part_000 es in
  (forall scope k, Js.or_default scope "active" <> "all"%string ->
     (In k (Part000.list_rooms scope s) <-> room_members s k <> [])) /\
  (forall k, In k (Part000.list_rooms (Some "all"%string) s) <->
     exists c n, In (Send c (PJoined k n)) (trace_of part_000 es)) /\
  (forall scope,
     StronglySorted (fun a b => (Part000.activity s a >= Part000.activity s b)%Z)
       (Part000.list_rooms scope s)) /\
  (forall k, In k (ServerJs.list_rooms (state_after server_js es)) <->
     room_members (state_after server_js es) k <> []).
Proof.
  intro s. split; [|split; [|split]].
  - intros scope k H. apply In_list_rooms_active; auto. apply wf_state_after.
  - intro k. rewrite In_list_rooms_all. split.
    + intro H. apply (allRooms_run es k init wf_init) in H as [[]|H]. exact H.
    + intro H. apply (allRooms_run es k init wf_init). now right.
  - intro scope. unfold Part000.list_rooms. apply sort_sorted.
  - intro k. apply In_ServerJs_list_rooms, wf_state_after.
Qed.

Lemma listing_of_rooms_witness :
  let s := state_after part_000
             [Connect; Connect; Message 0 (join "r1" "Alice") 1;
              Message 1 (join "r2" "Bob") 2; CloseEv 0 3] in
  In "r2"%string (Part000.list_rooms None s) <-> room_members s "r2" <> [].
Proof.
  intro s.
  apply (proj1 (listing_of_rooms
                  [Connect; Connect; Message 0 (join "r1" "Alice") 1;
                   Message 1 (join "r2" "Bob") 2; CloseEv 0 3]) None "r2"%string).
  vm_compute. discriminate.
Defined.

(** C7, as stated, fails in server.js: the request's scope is not looked
    at, and a room that was joined and then left by its only member is in
    no listing. *)
Lemma server_js_lists_active_only :
  let es := [Connect; Message 0 (join "r1" "Alice") 1; CloseEv 0 2] in
  trace_of server_js es = [Send 0 (PJoined "r1" "Alice")] /\
  ServerJs.list_rooms (state_after server_js es) = [] /\
  Part000.list_rooms (Some "all"%string) (state_after part_000 es) = ["r1"%string].
Proof. vm_compute. repeat split. Qed.

(* ------------------------------------------------------------------ *)
(** ** Liveness *)

Lemma upd_nth_id {A : Type} i (l : list A) : upd_nth i (fun x => x) l = l.
Proof.
  revert i; induction l as [|x l IH]; intros [|i]; simpl; auto. now rewrite IH.
Qed.

Lemma steady_id : steady (fun c => c).
Proof. intro c; tauto. Qed.

Lemma steady_closing : steady closing.
Proof.
  intros [[] a m]; simpl; split; auto; split; intro H; try discriminate; auto.
Qed.

Lemma steady_meta m : steady (with_meta m).
Proof. intro c; simpl; tauto. Qed.

Lemma conns_ServerJs_on_join ws msg s :
  exists f, steady f /\ conns (fst (ServerJs.on_join ws msg s)) = upd_nth ws f (conns s).
Proof.
  unfold ServerJs.on_join.
  pose proof (get_or_create_spec (join_room msg) s) as (_ & _ & _ & Hc & _).
  destruct (get_or_create (join_room msg) s) as [set s1]; cbn [fst snd] in *.
  destruct (2 <=? set_size set s1); cbn [fst].
  - exists closing. split; [apply steady_closing|]. simpl. now rewrite Hc.
  - exists (with_meta (Meta (Some (join_room msg)) (join_name msg))).
    split; [apply steady_meta|]. simpl.
    now rewrite (proj1 (leave_old_fields ws s1)), Hc.
Qed.

Lemma conns_Part000_on_join ws msg now s :
  exists f, steady f /\ conns (fst (Part000.on_join ws msg now s)) = upd_nth ws f (conns s).
Proof.
  unfold Part000.on_join.
  destruct (negb (Js.truthy (join_room msg))); cbn [fst].
  { exists (fun c => c). split; [apply steady_id|]. now rewrite upd_nth_id. }
  pose proof (get_or_create_spec (join_room msg) (leave_old ws s)) as (_ & _ & _ & Hc & _).
  rewrite (proj1 (leave_old_fields ws s)) in Hc.
  destruct (get_or_create (join_room msg) (leave_old ws s)) as [set s2]; cbn [fst snd] in *.
  destruct (2 <=? set_size set s2); cbn [fst].
  - exists closing. split; [apply steady_closing|]. simpl. now rewrite Hc.
  - exists (with_meta (Meta (Some (join_room msg)) (join_name msg))).
    split; [apply steady_meta|]. simpl. now rewrite Hc.
Qed.

Lemma conns_on_message v ws data now s :
  exists f, steady f /\ conns (fst (on_message v ws data now s)) = upd_nth ws f (conns s).
Proof.
  assert (Hid : exists f, steady f /\ conns s = upd_nth ws f (conns s)).
  { exists (fun c => c). split; [apply steady_id|]. now rewrite upd_nth_id. }
  destruct v; cbn [on_message]; unfold ServerJs.on_message, Part000.on_message;
    (destruct data as [msg|]; [|exact Hid]);
    (destruct (msg_type msg) as [t|]; [|exact Hid]);
    destruct (t =? "join")%string;
    try apply conns_ServerJs_on_join; try apply conns_Part000_on_join;
    (destruct (t =? "msg")%string; [|exact Hid]);
    unfold ServerJs.on_msg, Part000.on_msg;
    (destruct (truthy_room (get_meta ws s)); [|exact Hid]);
    (destruct (accepted_text msg); exact Hid).
Qed.

Lemma conns_on_close v ws now s : conns (fst (on_close v ws now s)) = conns s.
Proof.
  destruct v; cbn [on_close].
  - rewrite ServerJs_on_close_state. apply leave_old_fields.
  - apply Part000_on_close_state.
Qed.

Lemma get_conn_upd_nth c ws f s s' :
  conns s' = upd_nth ws f (conns s) ->
  get_conn c s' = if (Nat.eqb ws c && (ws <? length (conns s)))%bool
                  then f (get_conn ws s) else get_conn c s.
Proof.
  intro H. unfold get_conn. rewrite H.
  destruct (Nat.eqb_spec ws c) as [->|Hc]; simpl.
  - destruct (Nat.ltb_spec c (length (conns s))) as [Hl|Hl].
    + now rewrite nth_upd_nth_same.
    + now rewrite upd_nth_out.
  - now rewrite nth_upd_nth_other.
Qed.

Lemma flagged_steady ws c f s s' :
  steady f -> conns s' = upd_nth c f (conns s) -> flagged ws s -> flagged ws s'.
Proof.
  intros Hf Hc (H1 & H2 & H3). unfold flagged, ready_of.
  rewrite (get_conn_upd_nth ws c f s s' Hc), Hc, length_upd_nth.
  split; auto.
  destruct (Nat.eqb c ws && (c <? length (conns s)))%bool eqn:E; auto.
  apply andb_prop in E as [E _]. apply Nat.eqb_eq in E; subst c.
  destruct (Hf (get_conn ws s)) as [Ha Hr]. rewrite Ha. split; auto.
  unfold ready_of in H2. tauto.
Qed.

Lemma flagged_same ws s s' : conns s' = conns s -> flagged ws s -> flagged ws s'.
Proof.
  intro Hc. apply (flagged_steady ws ws (fun c => c)); [apply steady_id|].
  now rewrite upd_nth_id.
Qed.

Lemma flagged_other ws c f s :
  c <> ws -> flagged ws s -> flagged ws (upd_conn c f s).
Proof.
  intros Hc (H1 & H2 & H3). unfold flagged, ready_of, get_conn, upd_conn; simpl.
  rewrite length_upd_nth, nth_upd_nth_other by assumption. auto.
Qed.

Lemma flagged_handle v ws s e :
  quiet ws e = true -> flagged ws s -> flagged ws (fst (handle v s e)).
Proof.
  intros Hq F. destruct e as [|c data now|c now|c| |c]; cbn [handle quiet] in *.
  - cbn [fst]. destruct F as (H1 & H2 & H3).
    unfold flagged, ready_of, get_conn in *; simpl.
    rewrite length_app, app_nth1 by assumption. simpl. repeat split; auto. lia.
  - destruct (tracked c s); auto.
    destruct (conns_on_message v c data now s) as [f [Hf Hc]].
    eapply flagged_steady; eauto.
  - destruct (tracked c s); auto.
    apply negb_true_iff, Nat.eqb_neq in Hq.
    eapply flagged_same; [apply conns_on_close|]. now apply flagged_other.
  - destruct (tracked c s); auto. cbn [fst].
    apply negb_true_iff, Nat.eqb_neq in Hq. now apply flagged_other.
  - destruct F as (H1 & H2 & H3). unfold flagged, ready_of.
    rewrite get_conn_heartbeat. destruct (heartbeat_fields s) as (_ & _ & _ & _ & _ & Hl).
    rewrite Hl. split; auto. unfold ready_of in H2. unfold beat.
    destruct (get_conn ws s) as [[] a m]; simpl in *; subst; simpl;
      repeat split; congruence.
  - destruct (tracked c s); auto. cbn [fst].
    eapply flagged_steady; [apply steady_closing| |exact F]. reflexivity.
Qed.

Lemma flagged_run v ws es : forall s,
  forallb (quiet ws) es = true -> flagged ws s -> flagged ws (fst (run v s es)).
Proof.
  induction es as [|e es IH]; intros s Hq F; simpl in *; auto.
  apply andb_prop in Hq as [Hq1 Hq2].
  pose proof (flagged_handle v ws s e Hq1 F) as F1.
  destruct (handle v s e) as [s1 o1]. specialize (IH s1 Hq2 F1).
  now destruct (run v s1 es).
Qed.

Lemma tick_effects s ws :
  ws < length (conns s) -> ready_of ws s <> CLOSED ->
  (In (Ping ws) (snd (heartbeat s)) <-> isAlive (get_conn ws s) = true) /\
  (In (Terminate ws) (snd (heartbeat s)) <-> isAlive (get_conn ws s) = false).
Proof.
  intros Hl Hr. unfold heartbeat.
  pose proof (heartbeat_from_effects 0 (conns s)) as Hh.
  destruct (heartbeat_from 0 (conns s)) as [cs es]. cbn [snd] in *.
  unfold ready_of, get_conn in *.
  split; rewrite Hh; split.
  - intros [j (H1 & H2 & H3)]. destruct (isAlive (nth j (conns s) no_conn)) eqn:E;
      [|discriminate]. injection H3 as ->. exact E.
  - intro E. exists ws. rewrite E. auto.
  - intros [j (H1 & H2 & H3)]. destruct (isAlive (nth j (conns s) no_conn)) eqn:E;
      [discriminate|]. injection H3 as ->. exact E.
  - intro E. exists ws. rewrite E. auto.
Qed.

Lemma tracked_spec ws s :
  tracked ws s = true <-> ws < length (conns s) /\ ready_of ws s <> CLOSED.
Proof.
  unfold tracked. rewrite andb_true_iff, Nat.ltb_lt.
  destruct (ready_of ws s); split; intros [H1 H2]; split; auto; congruence.
Qed.

Lemma flagged_after_tick v ws s :
  tracked ws s = true -> flagged ws (fst (handle v s Tick)).
Proof.
  intro T. apply tracked_spec in T as [Hl Hr]. cbn [handle].
  unfold flagged, ready_of in *. rewrite get_conn_heartbeat.
  destruct (heartbeat_fields s) as (_ & _ & _ & _ & _ & Hlen). rewrite Hlen.
  split; auto. unfold beat.
  destruct (get_conn ws s) as [[] [] m]; simpl in *; split; congruence.
Qed.

(** C8.  On a tick a tracked socket whose flag is false is terminated and
    not pinged; any other tracked socket is pinged, not terminated, and
    its flag becomes false; a pong sets the flag.  Hence a socket that is
    tracked at a tick and sends no pong afterwards is terminated by the
    next tick it is still tracked at, and so within two ticks, which are
    60000 ms apart. *)
Theorem heartbeat_reclaims (v : variant) (es : list event) (ws : conn) :
  let s := state_after v es in
  let s1 := fst (handle v s Tick) in
  let out := snd (handle v s Tick) in
  tracked ws s = true ->
  (isAlive (get_conn ws s) = false -> In (Terminate ws) out /\ ~ In (Ping ws) out) /\
  (isAlive (get_conn ws s) = true ->
     In (Ping ws) out /\ ~ In (Terminate ws) out /\ isAlive (get_conn ws s1) = false) /\
  isAlive (get_conn ws (fst (handle v s (Pong ws)))) = true /\
  (forall es1, forallb (quiet ws) es1 = true ->
     In (Terminate ws) (snd (handle v (fst (run v s1 es1)) Tick))) /\
  (forall es1 es2, forallb (quiet ws) es1 = true ->
     In (Terminate ws) (snd (run v s1 (es1 ++ Tick :: es2 ++ [Tick])))) /\
  (forall t0 k, (tick_time t0 (k + 2) - tick_time t0 k = 60000)%Z).
Proof.
  intros s s1 out T. subst s1 out.
  pose proof (proj1 (tracked_spec ws s) T) as [Hl Hr].
  destruct (tick_effects s ws Hl Hr) as [Hp Ht].
  assert (Hnext : forall es1, forallb (quiet ws) es1 = true ->
            In (Terminate ws) (snd (handle v (fst (run v (fst (handle v s Tick)) es1)) Tick))).
  { intros es1 Hq.
    pose proof (flagged_run v ws es1 _ Hq (flagged_after_tick v ws s T)) as (F1 & F2 & F3).
    cbn [handle]. now apply tick_effects. }
  cbn [handle] in *. split; [|split; [|split; [|split; [|split]]]].
  - intro E. split; [now apply Ht|]. intro H. apply Hp in H. congruence.
  - intro E. split; [now apply Hp|]. split.
    + intro H. apply Ht in H. congruence.
    + rewrite get_conn_heartbeat. unfold beat.
      unfold ready_of in Hr.
      destruct (get_conn ws s) as [[] [] m]; simpl in *; congruence.
  - rewrite T. cbn [fst]. unfold get_conn, upd_conn; simpl.
    now rewrite nth_upd_nth_same.
  - exact Hnext.
  - intros es1 es2 Hq. rewrite run_app. cbn [snd]. apply in_or_app. right.
    specialize (Hnext es1 Hq). simpl.
    destruct (heartbeat (fst (run v (fst (heartbeat s)) es1))) as [s2 o2].
    cbn [snd] in *. destruct (run v s2 (es2 ++ [Tick])) as [s3 o3].
    cbn [snd]. apply in_or_app. now left.
  - intros t0 k. unfold tick_time, heartbeat_interval. lia.
Qed.

Lemma heartbeat_reclaims_witness :
  let es := [Connect; Connect; Message 0 (join "r1" "Alice") 1] in
  let s := state_after part_000 es in
  In (Terminate 0)
     (snd (run part_000 (fst (handle part_000 s Tick))
             ([Pong 1; Message 1 (join "r1" "Bob") 2] ++ Tick :: [Pong 1] ++ [Tick]))).
Proof.
  intros es s.
  apply (proj1 (proj2 (proj2 (proj2 (proj2
           (heartbeat_reclaims part_000 es 0 eq_refl)))))
           [Pong 1; Message 1 (join "r1" "Bob") 2] [Pong 1]).
  reflexivity.
Defined.

(* ------------------------------------------------------------------ *)
(** ** Membership and room reference *)

(** C9 (amended).  In either program a socket found in the [Set] of a room
    with a non-empty id has that id as its room reference.  In part_000
    this holds for every room, and conversely a socket that is still open
    and whose room reference is set is in the [Set] of that room.  (A
    socket whose close has started or happened may keep its reference
    after it was taken out of the [Set].) *)
Theorem membership_matches_reference (v : variant) (es : list event) (c : conn)
    (k : string) :
  (Js.truthy k = true -> In c (room_members (state_after v es) k) ->
   room (get_meta c (state_after v es)) = Some k) /\
  (In c (room_members (state_after part_000 es) k) ->
   room (get_meta c (state_after part_000 es)) = Some k) /\
  (ready_of c (state_after part_000 es) = OPEN ->
   room (get_meta c (state_after part_000 es)) = Some k ->
   In c (room_members (state_after part_000 es) k)).
Proof.
  split; [|split].
  - intros Ht H. eapply member_room; eauto. apply wf_state_after.
  - intro H.
    pose proof (member_only_of_own_room _ c k (wf_state_after part_000 es)
                  (wfB_state_after es) H) as E.
    now apply truthy_room_Some in E.
  - apply b_open, wfB_state_after.
Qed.

Lemma membership_matches_reference_witness :
  let es := [Connect; Connect;
             Message 0 (join "r1" "Alice") 1; Message 1 (join "r1" "Bob") 2] in
  In 1 (room_members (state_after part_000 es) "r1").
Proof.
  intro es.
  apply (proj2 (proj2 (membership_matches_reference part_000 es 1 "r1"%string)));
    reflexivity.
Defined.

(** C9, as stated, fails in both programs: after the ["close"] listener
    has run, the socket is in no [Set] while its room reference is still
    set. *)
Lemma closed_socket_keeps_reference :
  let es := [Connect; Message 0 (join "r1" "Alice") 1; CloseEv 0 2] in
  room (get_meta 0 (state_after part_000 es)) = Some "r1"%string /\
  rooms (state_after part_000 es) = [] /\
  room (get_meta 0 (state_after server_js es)) = Some "r1"%string /\
  rooms (state_after server_js es) = [].
Proof. vm_compute. repeat split. Qed.

(* ------------------------------------------------------------------ *)
(** ** The two programs side by side *)

Lemma same_core_refl s : same_core s s.
Proof. repeat split. Qed.

Lemma same_core_touch s t r now : same_core s t -> same_core s (Part000.touch r now t).
Proof. intros (H1 & H2 & H3). repeat split; assumption. Qed.

Lemma get_conn_core s t c : same_core s t -> get_conn c s = get_conn c t.
Proof. intros (H1 & _). unfold get_conn. now rewrite H1. Qed.

Lemma tracked_core s t c : same_core s t -> tracked c s = tracked c t.
Proof.
  intros H. unfold tracked, ready_of. rewrite (get_conn_core s t c H).
  destruct H as (-> & _). reflexivity.
Qed.

Lemma broadcast_core s t r p e : same_core s t -> broadcast r p e s = broadcast r p e t.
Proof.
  intros H. unfold broadcast, recipients, members, ready_of.
  pose proof H as (_ & -> & ->).
  destruct (Js.map_get r (rooms t)); auto. f_equal.
  apply filter_ext. intro c. now rewrite (get_conn_core s t c H).
Qed.

Lemma upd_conn_core s t c f : same_core s t -> same_core (upd_conn c f s) (upd_conn c f t).
Proof. intros (H1 & H2 & H3). repeat split; simpl; congruence. Qed.

Lemma leave_old_core s t ws :
  same_core s t -> same_core (leave_old ws s) (leave_old ws t).
Proof.
  intros H. unfold leave_old, get_meta. rewrite (get_conn_core s t ws H).
  destruct H as (H1 & H2 & H3).
  destruct (truthy_room (c_meta (get_conn ws t))) as [old|]; [|repeat split; assumption].
  rewrite H2. destruct (Js.map_get old (rooms t)) as [oldSet|]; [|repeat split; assumption].
  unfold set_size, members. simpl. rewrite H3.
  destruct (length (nth oldSet (upd_nth oldSet (Js.set_delete ws) (sets t)) []) =? 0);
    repeat split; simpl; congruence.
Qed.

Lemma leave_old_unjoined ws s : truthy_room (get_meta ws s) = None -> leave_old ws s = s.
Proof. intro H. unfold leave_old. now rewrite H. Qed.

Lemma get_or_create_core s t r :
  same_core s t ->
  fst (get_or_create r s) = fst (get_or_create r t) /\
  same_core (snd (get_or_create r s)) (snd (get_or_create r t)).
Proof.
  intros (H1 & H2 & H3). unfold get_or_create. rewrite H2, H3.
  destruct (Js.map_get r (rooms t)); simpl; repeat split; simpl; congruence.
Qed.

Ltac open_state :=
  unfold ServerJs.on_message, Part000.on_message, ServerJs.on_join, Part000.on_join,
    ServerJs.on_msg, Part000.on_msg, ServerJs.on_close, Part000.on_close,
    heartbeat, tracked, leave_old, get_or_create, broadcast, recipients,
    Part000.touch, Part000.allRooms_add, ws_close, set_meta, upd_conn,
    rooms_delete, sets_add, sets_delete, set_size, members, ready_of, get_meta,
    get_conn, set_conns, set_rooms, set_sets, same_core;
  cbn [conns rooms sets allRooms roomUpdated fst snd].

Ltac split_cases :=
  repeat (cbn [conns rooms sets allRooms roomUpdated fst snd];
          match goal with
          | |- context [match ?x with _ => _ end] =>
              lazymatch x with
              | context [match _ with _ => _ end] => fail
              | _ => destruct x
              end
          end).

(** Both programs read and write the sockets and the registry only:
    [allRooms] and [roomUpdated] never decide what they do. *)
Lemma handle_core v s t e :
  same_core s t -> snd (handle v s e) = snd (handle v t e) /\
                   same_core (fst (handle v s e)) (fst (handle v t e)).
Proof.
  intros (H1 & H2 & H3).
  destruct s as [c r h a u], t as [c' r' h' a' u']. simpl in H1, H2, H3. subst c' r' h'.
  destruct e as [|ws data now|ws now|ws| |ws], v; cbn [handle on_message on_close];
    open_state; split_cases; repeat split.
Qed.

Lemma same_core_trans s t u : same_core s t -> same_core t u -> same_core s u.
Proof. intros (A1 & A2 & A3) (B1 & B2 & B3). repeat split; congruence. Qed.

Lemma get_meta_conns c s s' : conns s' = conns s -> get_meta c s' = get_meta c s.
Proof. intro H. unfold get_meta, get_conn. now rewrite H. Qed.

(** On a join of a socket without a room reference, for a non-empty room
    id, and on every event that is not a join, the two programs send the
    same frames and end with the same sockets and registry. *)
Lemma step_agree s e :
  join_ok e = true ->
  (forall ws, joiner e = Some ws -> room (get_meta ws s) = None) ->
  snd (handle server_js s e) = snd (handle part_000 s e) /\
  same_core (fst (handle server_js s e)) (fst (handle part_000 s e)).
Proof.
  intros Hok Hnone.
  destruct e as [|ws data now|ws now|ws| |ws]; cbn [handle on_message on_close];
    try (destruct (tracked ws s); repeat split; fail); try (repeat split; fail).
  - destruct (tracked ws s); [|repeat split].
    unfold ServerJs.on_message, Part000.on_message.
    destruct data as [msg|]; [|repeat split].
    cbn [join_ok joiner] in *.
    destruct (msg_type msg) as [ty|]; [|repeat split].
    destruct (ty =? "join")%string.
    + specialize (Hnone ws eq_refl).
      assert (Hu : forall s', conns s' = conns s -> leave_old ws s' = s').
      { intros s' Hc. apply leave_old_unjoined. unfold truthy_room.
        now rewrite (get_meta_conns ws s s' Hc), Hnone. }
      unfold ServerJs.on_join, Part000.on_join. rewrite Hok. cbn [negb].
      rewrite (Hu s eq_refl).
      pose proof (get_or_create_spec (join_room msg) s) as (_ & _ & _ & Hc & _).
      destruct (get_or_create (join_room msg) s) as [set s1]; cbn [fst snd] in *.
      rewrite (Hu s1 Hc).
      destruct (2 <=? set_size set s1); cbn [fst snd]; [repeat split|].
      split.
      * f_equal; try (apply broadcast_core; repeat split).
      * repeat split.
    + destruct (ty =? "msg")%string; [|repeat split].
      unfold ServerJs.on_msg, Part000.on_msg.
      destruct (truthy_room (get_meta ws s)); [|repeat split].
      destruct (accepted_text msg); repeat split.
  - destruct (tracked ws s); [|repeat split].
    open_state; split_cases; repeat split.
Qed.

Lemma conns_on_message_other v ws data now s :
  joiner (Message ws data now) = None ->
  conns (fst (on_message v ws data now s)) = conns s.
Proof.
  cbn [joiner]. intro H.
  destruct v; cbn [on_message]; unfold ServerJs.on_message, Part000.on_message;
    (destruct data as [msg|]; [|reflexivity]);
    (destruct (msg_type msg) as [ty|]; [|reflexivity]);
    (destruct (ty =? "join")%string; [discriminate|]);
    (destruct (ty =? "msg")%string; [|reflexivity]);
    unfold ServerJs.on_msg, Part000.on_msg;
    (destruct (truthy_room (get_meta ws s)); [|reflexivity]);
    destruct (accepted_text msg); reflexivity.
Qed.

(** Only a join changes a meta object, and only that of its sender. *)
Lemma meta_frame v s e c :
  joiner e <> Some c -> get_meta c (fst (handle v s e)) = get_meta c s.
Proof.
  intro Hj. destruct e as [|ws data now|ws now|ws| |ws]; cbn [handle].
  - apply get_meta_connect.
  - destruct (tracked ws s); auto.
    destruct (joiner (Message ws data now)) as [ws'|] eqn:E.
    + assert (ws' = ws).
      { cbn [joiner] in E. destruct data as [m|]; [|discriminate].
        destruct (msg_type m) as [ty|]; [|discriminate].
        destruct (ty =? "join")%string; congruence. }
      subst ws'. assert (Hc : ws <> c) by congruence.
      destruct (conns_on_message v ws data now s) as [f [_ Hf]].
      unfold get_meta. rewrite (get_conn_upd_nth c ws f s _ Hf).
      destruct (Nat.eqb_spec ws c); [congruence|reflexivity].
    + apply get_meta_conns. now apply conns_on_message_other.
  - destruct (tracked ws s); auto.
    rewrite (get_meta_conns c _ _ (conns_on_close v ws now _)).
    apply get_meta_upd_conn, keeps_meta_ready.
  - destruct (tracked ws s); auto. apply get_meta_upd_conn, keeps_meta_alive.
  - apply heartbeat_fields.
  - destruct (tracked ws s); auto. apply get_meta_upd_conn, keeps_meta_closing.
Qed.

Lemma run_agree es : forall sA sB,
  same_core sA sB ->
  (forall ws, existsb (joins_of ws) es = true -> room (get_meta ws sA) = None) ->
  first_joins es = true ->
  snd (run server_js sA es) = snd (run part_000 sB es) /\
  same_core (fst (run server_js sA es)) (fst (run part_000 sB es)).
Proof.
  induction es as [|e es IH]; intros sA sB Hc Hn Hf; simpl.
  - split; auto.
  - simpl in Hf. apply andb_prop in Hf as [Hf Hf3]. apply andb_prop in Hf as [Hf1 Hf2].
    apply negb_true_iff in Hf2.
    assert (Hj : forall ws, joiner e = Some ws -> room (get_meta ws sA) = None).
    { intros ws E. apply Hn. simpl. unfold joins_of at 1. rewrite E.
      now rewrite Nat.eqb_refl. }
    destruct (step_agree sA e Hf1 Hj) as [E1 C1].
    destruct (handle_core part_000 sA sB e Hc) as [E2 C2].
    assert (Hn' : forall ws, existsb (joins_of ws) es = true ->
                    room (get_meta ws (fst (handle server_js sA e))) = None).
    { intros ws Hw. rewrite meta_frame.
      - apply Hn. simpl. rewrite Hw. apply orb_true_r.
      - intro E. rewrite E in Hf2. congruence. }
    pose proof (IH _ _ (same_core_trans _ _ _ C1 C2) Hn' Hf3) as [E3 C3].
    destruct (handle server_js sA e) as [sA1 oA], (handle part_000 sB e) as [sB1 oB].
    cbn [fst snd] in *.
    destruct (run server_js sA1 es) as [sA2 oA2], (run part_000 sB1 es) as [sB2 oB2].
    cbn [fst snd] in *. split; [congruence|assumption].
Qed.

(** C10 (amended).  On every sequence of events in which each join frame
    names a room id that is non-empty after truncation and no socket sends
    a second join frame, the two programs send the same frames in the same
    order and end with the same sockets, the same [rooms] map and the same
    [Set] objects. *)
Theorem variants_agree_on_first_joins (es : list event) :
  first_joins es = true ->
  trace_of server_js es = trace_of part_000 es /\
  same_core (state_after server_js es) (state_after part_000 es).
Proof.
  intro H. apply run_agree; auto.
  - apply same_core_refl.
  - intros ws _. unfold get_meta, get_conn. simpl. now destruct ws.
Qed.

Lemma variants_agree_on_first_joins_witness :
  let es := [Connect; Connect; Connect;
             Message 0 (join "r1" "Alice") 1; Message 1 (join "r1" "Bob") 2;
             Message 1 (say "hi") 3; Message 2 (join "r1" "Carol") 4;
             CloseEv 0 5; Tick; Pong 1; Tick; CloseEv 1 6] in
  trace_of server_js es = trace_of part_000 es /\
  same_core (state_after server_js es) (state_after part_000 es).
Proof.
  intro es. apply (variants_agree_on_first_joins es). reflexivity.
Defined.

(** C10, as stated, fails: the two programs answer a join with an empty
    room id differently, and they answer differently when a member of a
    full room joins it again. *)
Lemma variants_differ :
  trace_of server_js [Connect; Message 0 (join "" "Alice") 1] =
    [Send 0 (PJoined "" "Alice")] /\
  trace_of part_000 [Connect; Message 0 (join "" "Alice") 1] =
    [Send 0 (PError "invalid_room")] /\
  (let es := [Connect; Connect; Message 0 (join "r1" "Alice") 1;
              Message 1 (join "r1" "Bob") 2; Message 0 (join "r1" "Alice") 3] in
   trace_of server_js es <> trace_of part_000 es).
Proof. vm_compute. repeat split. discriminate. Qed.

(* ------------------------------------------------------------------ *)
(** ** Further properties of the relay *)

Lemma part_000_msg_one_other_witness :
  let s := state_after part_000
             [Connect; Connect;
              Message 0 (join "r1" "Alice") 1; Message 1 (join "r1" "Bob") 2] in
  length (filter (fun c => is_open (ready_of c s) && negb (Nat.eqb c 0))
                 (room_members s "r1")) <= 1.
Proof.
  apply (part_000_msg_one_other
           [Connect; Connect;
            Message 0 (join "r1" "Alice") 1; Message 1 (join "r1" "Bob") 2]
           0 "r1"%string); reflexivity.
Defined.

Lemma broadcast_room_members roomId p except s :
  broadcast roomId p except s =
  map (fun c => Send c p)
    (filter (fun c => is_open (ready_of c s) && negb (is_except except c))
            (room_members s roomId)).
Proof.
  unfold broadcast, room_members, recipients.
  destruct (Js.map_get roomId (rooms s)); reflexivity.
Qed.

Lemma NoDup_map_Send p l : NoDup l -> NoDup (map (fun c => Send c p) l).
Proof.
  induction 1 as [|x l Hni Hnd IH]; simpl; constructor; auto.
  intro H. apply in_map_iff in H as [y [E H]]. injection E as ->. auto.
Qed.

Lemma is_except_false except c : is_except except c = false <-> except <> Some c.
Proof.
  unfold is_except. destruct except as [x|]; [|split; [discriminate|reflexivity]].
  destruct (Nat.eqb_spec c x) as [->|H]; split; congruence.
Qed.

Lemma is_open_spec r : is_open r = true <-> r = OPEN.
Proof. destruct r; simpl; split; congruence. Qed.

(** [broadcast] between two events: the frames it sends are exactly the
    payload to every member of the room whose socket is open, the excepted
    socket left out; no socket is sent it twice, and at most two frames go
    out.  For a room that is not in the registry nothing is sent. *)
Theorem broadcast_exactly_open_members (v : variant) (es : list event)
    (roomId : string) (p : payload) (except : option conn) :
  let s := state_after v es in
  let out := broadcast roomId p except s in
  (forall e, In e out <->
     exists c, e = Send c p /\ In c (room_members s roomId) /\
               ready_of c s = OPEN /\ except <> Some c) /\
  NoDup out /\ length out <= 2 /\
  (Js.map_has roomId (rooms s) = false -> out = []).
Proof.
  intros s out. subst out. pose proof (wf_state_after v es) as W. fold s in W.
  rewrite broadcast_room_members. split; [|split; [|split]].
  - intro e. rewrite in_map_iff. split.
    + intros [c [<- H]]. apply filter_In in H as [H1 H2].
      apply andb_prop in H2 as [H2 H3]. apply negb_true_iff in H3.
      exists c. repeat split; auto.
      * now apply is_open_spec.
      * now apply is_except_false.
    + intros [c (-> & H1 & H2 & H3)]. exists c. split; auto.
      apply filter_In. split; auto.
      rewrite H2. simpl. apply negb_true_iff. now apply is_except_false.
  - apply NoDup_map_Send, NoDup_filter. now apply room_members_NoDup.
  - rewrite length_map.
    eapply Nat.le_trans; [apply filter_length_le|].
    now apply room_members_length_le.
  - intro H. unfold room_members, Js.map_has in *.
    destruct (Js.map_get roomId (rooms s)); [discriminate|reflexivity].
Qed.

Lemma broadcast_exactly_open_members_witness :
  let s := state_after part_000 [Connect] in
  broadcast "nowhere" (PSystem "x") None s = [].
Proof.
  apply (broadcast_exactly_open_members part_000 [Connect] "nowhere"%string
           (PSystem "x") None).
  reflexivity.
Defined.

(** A frame that does not parse, or parses to something whose [type] is
    neither ["join"] nor ["msg"], is ignored by both programs: nothing is
    sent and the state is what it was. *)
Theorem unrecognized_frame_ignored (v : variant) (s : state) (ws : conn)
    (data : option message) (now : Z) :
  match data with
  | None => True
  | Some m => msg_type m <> Some "join"%string /\ msg_type m <> Some "msg"%string
  end ->
  handle v s (Message ws data now) = (s, []).
Proof.
  intro H. cbn [handle]. destruct (tracked ws s); auto.
  destruct v; cbn [on_message]; unfold ServerJs.on_message, Part000.on_message;
    (destruct data as [m|]; [|reflexivity]);
    destruct H as [H1 H2];
    (destruct (msg_type m) as [t|]; [|reflexivity]);
    (destruct (String.eqb_spec t "join"); [congruence|]);
    (destruct (String.eqb_spec t "msg"); [congruence|reflexivity]).
Qed.

Lemma unrecognized_frame_ignored_witness :
  let s := state_after part_000 [Connect; Message 0 (join "r1" "Alice") 1] in
  handle part_000 s
    (Message 0 (Some (Msg (Some "leave"%string) (Some "r1"%string) None None)) 2) =
  (s, []).
Proof.
  intro s. apply unrecognized_frame_ignored. split; discriminate.
Defined.

(* ------------------------------------------------------------------ *)
(** ** What the outbound frames carry *)


Lemma slice0_short n s : String.length s <= n -> Js.slice0 n s = s.
Proof.
  unfold Js.slice0. revert s; induction n as [|n IH]; intros [|c s]; simpl; auto.
  - lia.
  - intro H. f_equal. apply IH. lia.
Qed.




Lemma trim_start_clean s : starts_clean (Js.trim_start s).
Proof.
  induction s as [|c s IH]; simpl; auto.
  destruct (Js.is_white_space c) eqn:E; simpl; auto.
Qed.

Lemma trim_end_clean s : starts_clean s -> starts_clean (Js.trim_end s).
Proof.
  destruct s as [|c s]; simpl; auto.
  intro H. rewrite H. now destruct (Js.trim_end s).
Qed.

Lemma trim_start_of_clean s : starts_clean s -> Js.trim_start s = s.
Proof. destruct s as [|c s]; simpl; auto. now intros ->. Qed.

Lemma trim_end_idem s : Js.trim_end (Js.trim_end s) = Js.trim_end s.
Proof.
  induction s as [|c s IH]; simpl; auto.
  destruct (Js.trim_end s) as [|d t] eqn:E.
  - destruct (Js.is_white_space c) eqn:Ec; simpl; auto. now rewrite Ec.
  - simpl in *. now rewrite IH.
Qed.

Lemma trim_idem s : Js.trim (Js.trim s) = Js.trim s.
Proof.
  unfold Js.trim.
  rewrite (trim_start_of_clean (Js.trim_end (Js.trim_start s))).
  - apply trim_end_idem.
  - apply trim_end_clean, trim_start_clean.
Qed.

(** A property of every effect of every listener, run from a well-formed
    state, is a property of the whole trace. *)
Lemma trace_forall v (P : effect -> Prop) :
  (forall s e x, wf s -> In x (snd (handle v s e)) -> P x) ->
  forall es s x, wf s -> In x (snd (run v s es)) -> P x.
Proof.
  intros HP es. induction es as [|e es IH]; intros s x W; simpl; [tauto|].
  pose proof (wf_handle v s e W) as W1. pose proof (HP s e) as H1.
  destruct (handle v s e) as [s1 o1]. cbn [fst snd] in *.
  specialize (IH s1). destruct (run v s1 es) as [s2 o2]. cbn [fst snd] in *.
  intro H. apply in_app_or in H as [H|H]; eauto.
Qed.




Lemma msg_from_handle v s e c n t ts :
  In (Send c (PMsg n t ts)) (snd (handle v s e)) ->
  exists msg, accepted_text msg = Some t.
Proof.
  intro H. destruct e as [|ws data now|ws now|ws| |ws]; cbn [handle] in H;
    try (destruct (tracked ws s); destruct H; fail); try (destruct H; fail).
  - destruct (tracked ws s); [|destruct H].
    assert (Hmsg : forall msg r,
              In (Send c (PMsg n t ts))
                 (match accepted_text msg with
                  | Some text =>
                      Send ws (PMsg (name (get_meta ws s)) text now)
                        :: broadcast r (PMsg (name (get_meta ws s)) text now) (Some ws) s
                  | None => []
                  end) -> exists msg, accepted_text msg = Some t).
    { intros msg r H0. destruct (accepted_text msg) as [text|] eqn:E; [|destruct H0].
      exists msg. destruct H0 as [H0|H0].
      - injection H0 as _ _ <- _. assumption.
      - apply In_broadcast in H0 as [H0 _]. injection H0 as _ <- _. assumption. }
    destruct v; cbn [on_message] in H; unfold ServerJs.on_message, Part000.on_message in H;
      (destruct data as [msg|]; [|destruct H]);
      (destruct (msg_type msg) as [ty|]; [|destruct H]);
      destruct (ty =? "join")%string.
    + destruct (ServerJs_on_join_cases ws msg s) as [[_ E]|[_ [s4 E]]];
        rewrite E in H; cbn [snd] in H.
      * destruct H as [H|[H|[]]]; discriminate.
      * destruct H as [H|H]; [discriminate|].
        apply In_broadcast in H as [H _]. discriminate.
    + destruct (ty =? "msg")%string; [|destruct H].
      unfold ServerJs.on_msg in H.
      destruct (truthy_room (get_meta ws s)) as [r|]; [|destruct H].
      apply (Hmsg msg r). destruct (accepted_text msg); exact H.
    + unfold Part000.on_join in H.
      destruct (negb (Js.truthy (join_room msg))); cbn [snd] in H.
      { destruct H as [H|[]]; discriminate. }
      destruct (get_or_create (join_room msg) (leave_old ws s)) as [set s2].
      destruct (2 <=? set_size set s2); cbn [snd] in H.
      * destruct H as [H|[H|[]]]; discriminate.
      * destruct H as [H|H]; [discriminate|].
        apply In_broadcast in H as [H _]. discriminate.
    + destruct (ty =? "msg")%string; [|destruct H].
      unfold Part000.on_msg in H.
      destruct (truthy_room (get_meta ws s)) as [r|]; [|destruct H].
      apply (Hmsg msg r). destruct (accepted_text msg); exact H.
  - destruct (tracked ws s); [|destruct H].
    destruct v; cbn [on_close] in H; unfold ServerJs.on_close, Part000.on_close in H;
      (destruct (truthy_room _); [|destruct H]);
      (destruct (Js.map_get _ _); [|destruct H]);
      (destruct (_ =? 0); cbn [snd] in H; [destruct H|]);
      apply In_broadcast in H as [H _]; discriminate.
  - unfold heartbeat in H.
    pose proof (heartbeat_from_effects 0 (conns s) (Send c (PMsg n t ts))) as Hh.
    destruct (heartbeat_from 0 (conns s)) as [cs es]. cbn [snd] in *.
    apply Hh in H as [j (_ & _ & H)].
    destruct (isAlive (nth j (conns s) no_conn)); discriminate.
Qed.

(** Every chat frame ever sent carries a text that is not empty, has at
    most 2000 code units and is in trimmed form: trimming it again gives
    the same text, so it neither starts nor ends with white space. *)
Theorem relayed_text_is_trimmed (v : variant) (es : list event) (c : conn)
    (n t : string) (ts : Z) :
  In (Send c (PMsg n t ts)) (trace_of v es) ->
  t <> ""%string /\ String.length t <= 2000 /\ Js.trim t = t /\ starts_clean t.
Proof.
  intro H.
  assert (Hm : exists msg, accepted_text msg = Some t).
  { apply (trace_forall v (fun x => forall c n t ts, x = Send c (PMsg n t ts) ->
             exists msg, accepted_text msg = Some t))
      with (c := c) (n := n) (t := t) (ts := ts) in H; auto using wf_init.
    clear. intros s e x _ Hin c n t ts ->. eapply msg_from_handle; eauto. }
  destruct Hm as [msg Hm]. apply accepted_text_spec in Hm as (-> & H1 & H2).
  repeat split; auto.
  - apply trim_idem.
  - apply trim_end_clean, trim_start_clean.
Qed.

Lemma relayed_text_is_trimmed_witness :
  "hi"%string <> ""%string /\ String.length "hi" <= 2000 /\
  Js.trim "hi" = "hi"%string /\ starts_clean "hi".
Proof.
  apply (relayed_text_is_trimmed part_000
           [Connect; Message 0 (join "r1" "Alice") 1; Message 0 (say "  hi  ") 2]
           0 "Alice"%string "hi"%string 2).
  vm_compute. right; left; reflexivity.
Defined.

(* ------------------------------------------------------------------ *)
(** ** Joining, seen from the room *)

Lemma filter_set_add (f : nat -> bool) x l :
  f x = false -> filter f (Js.set_add x l) = filter f l.
Proof.
  intro H. unfold Js.set_add. destruct (Js.set_has x l); auto.
  rewrite filter_app. simpl. rewrite H. apply app_nil_r.
Qed.

Lemma filter_set_delete (f : nat -> bool) x l :
  f x = false -> filter f (Js.set_delete x l) = filter f l.
Proof.
  intro H. unfold Js.set_delete. induction l as [|y l IH]; simpl; auto.
  destruct (Nat.eqb_spec y x) as [->|Hn]; simpl.
  - now rewrite H.
  - destruct (f y); simpl; now rewrite IH.
Qed.

Lemma set_delete_set_add x l : ~ In x l -> Js.set_delete x (Js.set_add x l) = l.
Proof.
  intro H. unfold Js.set_add.
  destruct (Js.set_has x l) eqn:E; [apply set_has_In in E; tauto|].
  unfold Js.set_delete. rewrite filter_app. simpl. rewrite Nat.eqb_refl. simpl.
  rewrite app_nil_r. now apply set_delete_absent.
Qed.

(** An accepted join in part_000, seen from the room.  When the room
    named by a join frame holds fewer than two sockets other than the
    sender, the sender is sent the acknowledgement, and the join notice
    goes to exactly the open sockets that were in the room before, never
    to the sender. *)
Theorem part_000_join_notifies_occupants (es : list event) (ws : conn)
    (msg : message) (now : Z) :
  let s := state_after part_000 es in
  let b := join_room msg in
  let n := join_name msg in
  tracked ws s = true -> msg_type msg = Some "join"%string ->
  Js.truthy b = true -> length (Js.set_delete ws (room_members s b)) < 2 ->
  snd (handle part_000 s (Message ws (Some msg) now)) =
  Send ws (PJoined b n)
    :: map (fun c => Send c (PSystem (joined_text n)))
         (filter (fun c => is_open (ready_of c s) && negb (Nat.eqb c ws))
                 (room_members s b)).
Proof.
  intros s b n T Hj Ht Hlen. subst b n.
  pose proof (wf_state_after part_000 es) as W.
  pose proof (wfB_state_after es) as WB. fold s in W, WB.
  rewrite handle_join by assumption.
  rewrite <- (room_members_leave_old_B ws s _ W WB) in Hlen.
  destruct (Part000_on_join_accept ws msg now s W (tracked_lt ws s T) Ht Hlen)
    as (Hr & _ & _ & Hrd & _ & _ & Hout).
  rewrite Hout. f_equal. rewrite broadcast_room_members. f_equal.
  rewrite Hr, String.eqb_refl, (room_members_leave_old_B ws s _ W WB).
  assert (Hf : (fun c => is_open (ready_of c (fst (Part000.on_join ws msg now s))) &&
                         negb (is_except (Some ws) c)) ws = false).
  { simpl. rewrite Nat.eqb_refl. apply andb_false_r. }
  rewrite filter_set_add, filter_set_delete by exact Hf.
  apply filter_ext. intro c. now rewrite Hrd.
Qed.

Lemma part_000_join_notifies_occupants_witness :
  let es := [Connect; Connect; Message 0 (join "r1" "Alice") 1] in
  let msg := Msg (Some "join"%string) (Some "r1"%string) (Some "Bob"%string) None in
  let s := state_after part_000 es in
  snd (handle part_000 s (Message 1 (Some msg) 2)) =
  Send 1 (PJoined (join_room msg) (join_name msg))
    :: map (fun c => Send c (PSystem (joined_text (join_name msg))))
         (filter (fun c => is_open (ready_of c s) && negb (Nat.eqb c 1))
                 (room_members s (join_room msg))).
Proof.
  intros es msg.
  apply (part_000_join_notifies_occupants es 1 msg 2);
    try reflexivity; vm_compute; lia.
Defined.

(** After a join that part_000 accepts, the sender is in the [Set] of the
    room it asked for and of no other room, its meta object names that
    room and the truncated name, and the membership of every other socket
    is what it was. *)
Theorem part_000_join_moves_sender (es : list event) (ws : conn)
    (msg : message) (now : Z) :
  let s := state_after part_000 es in
  let b := join_room msg in
  let s' := fst (handle part_000 s (Message ws (Some msg) now)) in
  tracked ws s = true -> msg_type msg = Some "join"%string ->
  Js.truthy b = true -> length (Js.set_delete ws (room_members s b)) < 2 ->
  (forall k, In ws (room_members s' k) <-> k = b) /\
  get_meta ws s' = Meta (Some b) (join_name msg) /\
  (forall c k, c <> ws -> (In c (room_members s' k) <-> In c (room_members s k))).
Proof.
  intros s b s' T Hj Ht Hlen. subst b s'.
  pose proof (wf_state_after part_000 es) as W.
  pose proof (wfB_state_after es) as WB. fold s in W, WB.
  rewrite handle_join by assumption.
  rewrite <- (room_members_leave_old_B ws s _ W WB) in Hlen.
  destruct (Part000_on_join_accept ws msg now s W (tracked_lt ws s T) Ht Hlen)
    as (Hr & _ & Hm & _).
  split; [|split].
  - intro k. rewrite Hr. destruct (String.eqb_spec (join_room msg) k) as [<-|Hne].
    + rewrite In_set_add. tauto.
    + rewrite (room_members_leave_old_B ws s _ W WB), In_set_delete.
      split; [tauto|congruence].
  - rewrite Hm. now rewrite Nat.eqb_refl.
  - intros c k Hc. rewrite Hr.
    destruct (String.eqb_spec (join_room msg) k) as [<-|Hne];
      rewrite ?In_set_add, (room_members_leave_old_B ws s _ W WB), In_set_delete; tauto.
Qed.

Lemma part_000_join_moves_sender_witness :
  let es := [Connect; Connect;
             Message 0 (join "a" "Alice") 1; Message 1 (join "a" "Bob") 2] in
  let msg := Msg (Some "join"%string) (Some "b"%string) (Some "Alice"%string) None in
  let s := state_after part_000 es in
  let s' := fst (handle part_000 s (Message 0 (Some msg) 3)) in
  (forall k, In 0 (room_members s' k) <-> k = join_room msg) /\
  get_meta 0 s' = Meta (Some (join_room msg)) (join_name msg) /\
  (forall c k, c <> 0 -> (In c (room_members s' k) <-> In c (room_members s k))).
Proof.
  intros es msg.
  apply (part_000_join_moves_sender es 0 msg 3);
    try reflexivity; vm_compute; lia.
Defined.

(** Join then close is a round trip on the registry.  A tracked socket
    without a room reference joins a room with a non-empty id that holds
    fewer than two sockets, and its transport then closes: in either
    program every room holds again exactly the sockets it held before. *)
Theorem join_then_close_restores_rooms (v : variant) (es : list event) (ws : conn)
    (msg : message) (now now' : Z) :
  let s := state_after v es in
  let s1 := fst (handle v s (Message ws (Some msg) now)) in
  let s2 := fst (handle v s1 (CloseEv ws now')) in
  tracked ws s = true -> msg_type msg = Some "join"%string ->
  Js.truthy (join_room msg) = true -> room (get_meta ws s) = None ->
  length (room_members s (join_room msg)) < 2 ->
  forall k, room_members s2 k = room_members s k.
Proof.
  intros s s1 s2 T Hj Ht Hnone Hlen k. subst s2 s1.
  pose proof (wf_state_after v es) as W. fold s in W.
  pose proof (tracked_lt ws s T) as Hws.
  pose proof (wf_handle v s (Message ws (Some msg) now) W) as W1.
  assert (Hu : truthy_room (get_meta ws s) = None)
    by (unfold truthy_room; now rewrite Hnone).
  assert (Hni : ~ In ws (room_members s (join_room msg))).
  { intro H. apply (member_room s ws _ W Ht) in H. congruence. }
  assert (Hjoin : let s1 := fst (handle v s (Message ws (Some msg) now)) in
            (forall k, room_members s1 k =
                       if (join_room msg =? k)%string
                       then Js.set_add ws (room_members s (join_room msg))
                       else room_members s k) /\
            get_meta ws s1 = Meta (Some (join_room msg)) (join_name msg) /\
            ready_of ws s1 = ready_of ws s /\
            length (conns s1) = length (conns s)).
  { rewrite handle_join by assumption. destruct v.
    - destruct (ServerJs_on_join_accept ws msg s W Hws Hlen) as (Hr & _ & Hm & Hrd & _);
        [congruence|].
      destruct (conns_ServerJs_on_join ws msg s) as [f [_ Hc]].
      cbn zeta. rewrite Hc, length_upd_nth, Hm, Nat.eqb_refl.
      repeat split; auto. intro k0. rewrite Hr, (leave_old_unjoined ws s Hu). reflexivity.
    - rewrite <- (leave_old_unjoined ws s Hu) in Hlen.
      destruct (Part000_on_join_accept ws msg now s W Hws Ht Hlen) as (Hr & _ & Hm & Hrd & _).
      destruct (conns_Part000_on_join ws msg now s) as [f [_ Hc]].
      cbn zeta. rewrite Hc, length_upd_nth, Hm, Nat.eqb_refl.
      repeat split; auto. intro k0. now rewrite Hr, (leave_old_unjoined ws s Hu). }
  cbn zeta in Hjoin. destruct Hjoin as (Hr & Hm & Hrd & Hl).
  set (s1 := fst (handle v s (Message ws (Some msg) now))) in *.
  assert (T1 : tracked ws s1 = true).
  { apply tracked_spec. apply tracked_spec in T as [T1 T2].
    split; [lia | now rewrite Hrd]. }
  cbn [handle]. rewrite T1.
  set (s0 := upd_conn ws (with_ready CLOSED) s1).
  assert (W0 : wf s0) by (apply wf_upd_conn; auto using keeps_meta_ready).
  assert (Hm0 : truthy_room (get_meta ws s0) = Some (join_room msg)).
  { unfold s0. rewrite get_meta_upd_conn by apply keeps_meta_ready.
    rewrite Hm. unfold truthy_room. simpl. now rewrite Ht. }
  assert (Hclose : room_members (fst (on_close v ws now' s0)) k =
                   room_members (leave_old ws s0) k).
  { destruct v; cbn [on_close].
    - now rewrite ServerJs_on_close_state.
    - destruct (Part000_on_close_state ws now' s0) as (H1 & H2 & _).
      now apply room_members_same. }
  rewrite Hclose, (room_members_leave_old ws s0 k W0), Hm0.
  rewrite (room_members_same s1 s0 k) by reflexivity. rewrite Hr.
  destruct (String.eqb_spec (join_room msg) k) as [<-|Hne]; auto.
  now apply set_delete_set_add.
Qed.

Lemma join_then_close_restores_rooms_witness :
  let es := [Connect; Connect; Message 0 (join "r1" "Alice") 1] in
  let msg := Msg (Some "join"%string) (Some "r1"%string) (Some "Bob"%string) None in
  let s := state_after server_js es in
  let s1 := fst (handle server_js s (Message 1 (Some msg) 2)) in
  let s2 := fst (handle server_js s1 (CloseEv 1 3)) in
  room_members s2 "r1" = room_members s "r1".
Proof.
  intros es msg.
  apply (join_then_close_restores_rooms server_js es 1 msg 2 3);
    try reflexivity; vm_compute; lia.
Defined.

(** Between two events no socket is in the [Set]s of two different rooms
    with non-empty ids, in either program. *)
Theorem at_most_one_room (v : variant) (es : list event) (c : conn) (k1 k2 : string) :
  let s := state_after v es in
  Js.truthy k1 = true -> Js.truthy k2 = true ->
  In c (room_members s k1) -> In c (room_members s k2) -> k1 = k2.
Proof.
  intros s H1 H2 I1 I2. pose proof (wf_state_after v es) as W. fold s in W.
  apply (member_room s c k1 W H1) in I1. apply (member_room s c k2 W H2) in I2.
  congruence.
Qed.

Lemma at_most_one_room_witness :
  let s := state_after part_000 [Connect; Message 0 (join "r1" "Alice") 1] in
  In 0 (room_members s "r1") /\ "r1"%string = "r1"%string.
Proof.
  intro s.
  assert (H : In 0 (room_members s "r1")) by (vm_compute; left; reflexivity).
  split; [exact H|].
  exact (at_most_one_room part_000 [Connect; Message 0 (join "r1" "Alice") 1] 0
           "r1"%string "r1"%string eq_refl eq_refl H H).
Defined.

(* ------------------------------------------------------------------ *)
(** ** No empty room stays in the registry *)

Lemma populated_on_same P s s' :
  rooms s' = rooms s -> sets s' = sets s -> populated_on P s -> populated_on P s'.
Proof.
  intros Hr Hs H k r Hp. rewrite Hr, (members_same r s s' Hs). now apply H.
Qed.

Lemma populated_on_leave_old P ws s :
  wf s -> populated_on P s -> populated_on P (leave_old ws s).
Proof.
  intros W H. unfold leave_old.
  destruct (truthy_room (get_meta ws s)) as [old|]; auto.
  destruct (Js.map_get old (rooms s)) as [oldSet|] eqn:E; auto.
  destruct (set_size oldSet (sets_delete oldSet ws s) =? 0) eqn:Hz.
  - intros k r Hp Hk. unfold rooms_delete in Hk; simpl in Hk.
    rewrite map_get_delete in Hk.
    destruct (String.eqb_spec old k) as [->|Hne]; [discriminate|].
    change (members r (rooms_delete old (sets_delete oldSet ws s)))
      with (members r (sets_delete oldSet ws s)).
    rewrite members_sets_delete.
    destruct (Nat.eqb_spec oldSet r) as [->|]; [|now apply (H k)].
    exfalso. apply Hne. eapply wf_refs; eauto.
  - intros k r Hp Hk. change (rooms (sets_delete oldSet ws s)) with (rooms s) in Hk.
    rewrite members_sets_delete.
    destruct (Nat.eqb_spec oldSet r) as [->|]; [|now apply (H k)].
    apply Nat.eqb_neq in Hz. unfold set_size in Hz.
    rewrite members_sets_delete, Nat.eqb_refl in Hz.
    intro E0. rewrite E0 in Hz. now apply Hz.
Qed.

Lemma populated_on_get_or_create b s :
  populated_on (fun _ => True) s ->
  populated_on (fun k => k <> b) (snd (get_or_create b s)).
Proof.
  intros H k r Hp Hk.
  pose proof (get_or_create_spec b s) as (_ & Ho & Hm & _).
  cbn zeta in *. rewrite Ho in Hk by assumption. rewrite Hm. now apply (H k).
Qed.

Lemma populated_on_add b set ws s :
  populated_on (fun k => k <> b) s -> set < length (sets s) ->
  (forall r, Js.map_get b (rooms s) = Some r -> r = set) ->
  populated_on (fun _ => True) (sets_add set ws s).
Proof.
  intros H Hl Hb k r _ Hk. change (rooms (sets_add set ws s)) with (rooms s) in Hk.
  rewrite members_sets_add by assumption.
  assert (Hadd : Js.set_add ws (members set s) <> []).
  { intro E. assert (Hin : In ws (Js.set_add ws (members set s)))
      by (apply In_set_add; auto). rewrite E in Hin. destruct Hin. }
  destruct (Nat.eqb_spec set r) as [->|Hr]; auto.
  destruct (String.eqb_spec k b) as [->|Hne].
  - apply Hb in Hk. congruence.
  - now apply (H k).
Qed.

Lemma populated_handle v s e :
  wf s -> populated_on (fun _ => True) s ->
  populated_on (fun _ => True) (fst (handle v s e)).
Proof.
  intros W H.
  assert (Hclose : forall ws now s0, wf s0 -> populated_on (fun _ => True) s0 ->
            populated_on (fun _ => True) (fst (on_close v ws now s0))).
  { intros ws now s0 W0 H0. destruct v; cbn [on_close].
    - rewrite ServerJs_on_close_state. now apply populated_on_leave_old.
    - destruct (Part000_on_close_state ws now s0) as (H1 & H2 & _).
      apply (populated_on_same _ (leave_old ws s0)); auto.
      now apply populated_on_leave_old. }
  destruct e as [|ws data now|ws now|ws| |ws]; cbn [handle];
    try (destruct (tracked ws s); auto; fail); auto.
  - destruct (tracked ws s); auto.
    destruct v; cbn [on_message]; unfold ServerJs.on_message, Part000.on_message;
      (destruct data as [msg|]; auto);
      (destruct (msg_type msg) as [t|]; auto);
      destruct (t =? "join")%string.
    + unfold ServerJs.on_join.
      pose proof (get_or_create_spec (join_room msg) s) as (Hg & _).
      pose proof (get_or_create_full (join_room msg) s) as Hfull.
      pose proof (populated_on_get_or_create (join_room msg) s H) as H1.
      pose proof (wf_get_or_create (join_room msg) s W) as W1.
      destruct (get_or_create (join_room msg) s) as [set s1]; cbn [fst snd] in *.
      destruct (2 <=? set_size set s1) eqn:Hsz; cbn [fst].
      * apply Nat.leb_le in Hsz. destruct (Hfull Hsz) as [-> _].
        now apply (populated_on_same _ s).
      * apply (populated_on_same _ (sets_add set ws (leave_old ws s1))); auto.
        apply (populated_on_add (join_room msg)).
        -- now apply populated_on_leave_old.
        -- rewrite (proj2 (proj2 (proj2 (leave_old_fields ws s1)))).
           eapply wf_bound; eauto.
        -- intros r Hr. apply map_get_leave_old in Hr. congruence.
    + destruct (t =? "msg")%string; auto. unfold ServerJs.on_msg.
      destruct (truthy_room (get_meta ws s)); auto.
      destruct (accepted_text msg); auto.
    + unfold Part000.on_join.
      destruct (negb (Js.truthy (join_room msg))); auto.
      pose proof (populated_on_leave_old _ ws s W H) as H0.
      pose proof (wf_leave_old ws s W) as W0.
      pose proof (get_or_create_spec (join_room msg) (leave_old ws s)) as (Hg & _).
      pose proof (get_or_create_full (join_room msg) (leave_old ws s)) as Hfull.
      pose proof (populated_on_get_or_create (join_room msg) _ H0) as H1.
      pose proof (wf_get_or_create (join_room msg) _ W0) as W1.
      destruct (get_or_create (join_room msg) (leave_old ws s)) as [set s2];
        cbn [fst snd] in *.
      destruct (2 <=? set_size set s2) eqn:Hsz; cbn [fst].
      * apply Nat.leb_le in Hsz. destruct (Hfull Hsz) as [-> _].
        now apply (populated_on_same _ (leave_old ws s)).
      * apply (populated_on_same _ (sets_add set ws s2)); auto.
        apply (populated_on_add (join_room msg)); auto.
        -- eapply wf_bound; eauto.
        -- intros r Hr. congruence.
    + destruct (t =? "msg")%string; auto. unfold Part000.on_msg.
      destruct (truthy_room (get_meta ws s)); auto.
      destruct (accepted_text msg); auto.
  - destruct (tracked ws s); auto.
    apply Hclose; [apply wf_upd_conn; auto using keeps_meta_ready|].
    now apply (populated_on_same _ s).
  - destruct (heartbeat_fields s) as (H1 & H2 & _).
    now apply (populated_on_same _ s).
Qed.

Lemma populated_run v es : forall s,
  wf s -> populated_on (fun _ => True) s ->
  populated_on (fun _ => True) (fst (run v s es)).
Proof.
  induction es as [|e es IH]; intros s W H; simpl; auto.
  pose proof (wf_handle v s e W) as W1.
  pose proof (populated_handle v s e W H) as H1.
  destruct (handle v s e) as [s1 o1]. specialize (IH s1 W1 H1).
  now destruct (run v s1 es).
Qed.

(** Between two events the registry of either program holds no room with
    an empty [Set]: a room whose last member left is gone from [rooms].
    The filter of the listing therefore drops nothing, and server.js lists
    exactly the keys of [rooms], in insertion order. *)
Theorem no_empty_room_in_registry (v : variant) (es : list event) :
  let s := state_after v es in
  (forall k, Js.map_has k (rooms s) = true -> room_members s k <> []) /\
  filter (fun p => 0 <? set_size (snd p) s) (rooms s) = rooms s /\
  (v = server_js -> ServerJs.list_rooms s = map fst (rooms s)).
Proof.
  intro s.
  assert (H : populated_on (fun _ => True) s).
  { apply populated_run; [apply wf_init|]. intros k r _ Hk. discriminate. }
  pose proof (wf_state_after v es) as W. fold s in W.
  assert (Hf : filter (fun p => 0 <? set_size (snd p) s) (rooms s) = rooms s).
  { apply forallb_filter_id. apply forallb_forall. intros [k r] Hin. simpl.
    apply Nat.ltb_lt. unfold set_size.
    pose proof (H k r I (In_map_get k r _ (wf_keys s W) Hin)).
    destruct (members r s); [congruence|simpl; lia]. }
  split; [|split]; auto.
  - intros k Hk. unfold Js.map_has, room_members in *.
    destruct (Js.map_get k (rooms s)) as [r|] eqn:E; [|discriminate].
    now apply (H k).
  - intros _. unfold ServerJs.list_rooms. now rewrite Hf.
Qed.

Lemma no_empty_room_in_registry_witness :
  let s := state_after server_js
             [Connect; Connect; Message 0 (join "a" "Alice") 1;
              Message 1 (join "b" "Bob") 2; CloseEv 0 3] in
  ServerJs.list_rooms s = map fst (rooms s).
Proof.
  intro s.
  apply (no_empty_room_in_registry server_js
           [Connect; Connect; Message 0 (join "a" "Alice") 1;
            Message 1 (join "b" "Bob") 2; CloseEv 0 3]).
  reflexivity.
Defined.

(* ------------------------------------------------------------------ *)
(** ** The historical record of part_000 *)

Lemma NoDup_sset_add x l : NoDup l -> NoDup (Js.sset_add x l).
Proof.
  unfold Js.sset_add. intro H. destruct (existsb (String.eqb x) l) eqn:E; auto.
  apply NoDup_app; auto.
  - constructor; [tauto|constructor].
  - intros y Hy [<-|[]].
    assert (Hex : existsb (String.eqb x) l = true).
    { apply existsb_exists. exists x. split; auto. apply String.eqb_refl. }
    congruence.
Qed.

Lemma history_ok_touch r now s : history_ok s -> history_ok (Part000.touch r now s).
Proof.
  intros [H1 H2]. split; auto. intros k Hk. simpl. rewrite map_get_set.
  destruct (r =? k)%string; [discriminate|]. now apply H2.
Qed.

Lemma history_ok_same s s' :
  allRooms s' = allRooms s -> roomUpdated s' = roomUpdated s ->
  history_ok s -> history_ok s'.
Proof. unfold history_ok. now intros -> ->. Qed.

Lemma history_ok_handle s e :
  wf s -> history_ok s -> history_ok (fst (handle part_000 s e)).
Proof.
  intros W H.
  destruct e as [|ws data now|ws now|ws| |ws]; cbn [handle];
    try (destruct (tracked ws s); auto; fail); auto.
  - destruct (tracked ws s) eqn:T; auto. apply tracked_lt in T.
    cbn [on_message]. unfold Part000.on_message.
    destruct data as [msg|]; auto.
    destruct (msg_type msg) as [t|]; auto.
    destruct (t =? "join")%string.
    + destruct (Part000_on_join_cases ws msg now s W)
        as [[_ E]|[(_ & _ & E)|(Ht & Hlen & _)]].
      * now rewrite E.
      * rewrite E. cbn [fst].
        destruct (leave_old_fields ws s) as (_ & La & Lu & _).
        now apply (history_ok_same s).
      * destruct (Part000_on_join_accept ws msg now s W T Ht Hlen)
          as (_ & _ & _ & _ & Ha & Hu & _).
        destruct H as [H1 H2]. unfold history_ok. rewrite Ha, Hu. split.
        -- now apply NoDup_sset_add.
        -- intros k Hk. rewrite map_get_set.
           destruct (String.eqb_spec (join_room msg) k); [discriminate|].
           apply In_sset_add in Hk as [Hk|Hk]; [congruence|]. now apply H2.
    + destruct (t =? "msg")%string; auto. unfold Part000.on_msg.
      destruct (truthy_room (get_meta ws s)); auto.
      destruct (accepted_text msg); auto. cbn [fst]. now apply history_ok_touch.
  - destruct (tracked ws s); auto. cbn [on_close]. unfold Part000.on_close.
    set (s0 := upd_conn ws (with_ready CLOSED) s).
    assert (H0 : history_ok s0) by now apply (history_ok_same s).
    destruct (truthy_room (get_meta ws s0)); auto.
    destruct (Js.map_get _ (rooms s0)); auto.
    destruct (_ =? 0); cbn [fst]; apply history_ok_touch;
      now apply (history_ok_same s0).
  - destruct (heartbeat_fields s) as (_ & _ & H1 & H2 & _).
    now apply (history_ok_same s).
Qed.

Lemma history_ok_run es : forall s,
  wf s -> history_ok s -> history_ok (fst (run part_000 s es)).
Proof.
  induction es as [|e es IH]; intros s W H; simpl; auto.
  pose proof (wf_handle part_000 s e W) as W1.
  pose proof (history_ok_handle s e W H) as H1.
  destruct (handle part_000 s e) as [s1 o1]. specialize (IH s1 W1 H1).
  now destruct (run part_000 s1 es).
Qed.

Lemma history_ok_state_after es : history_ok (state_after part_000 es).
Proof.
  apply history_ok_run; [apply wf_init|]. split; [constructor|intros k []].
Qed.

(** part_000 never forgets a room: an id that is in [allRooms] after some
    events is still there after any further events, whatever they are. *)
Theorem history_never_shrinks (es es' : list event) (k : string) :
  In k (allRooms (state_after part_000 es)) ->
  In k (allRooms (state_after part_000 (es ++ es'))).
Proof.
  intro H. unfold state_after. rewrite run_app. cbn [fst].
  apply allRooms_run; [apply wf_run, wf_init|]. now left.
Qed.

Lemma history_never_shrinks_witness :
  In "r1"%string
     (allRooms (state_after part_000
                  ([Connect; Message 0 (join "r1" "Alice") 1] ++ [CloseEv 0 2; Tick]))).
Proof.
  apply (history_never_shrinks [Connect; Message 0 (join "r1" "Alice") 1]
           [CloseEv 0 2; Tick] "r1"%string).
  vm_compute. left; reflexivity.
Defined.

Lemma NoDup_map_fst_filter {V : Type} (f : string * V -> bool) (m : list (string * V)) :
  NoDup (map fst m) -> NoDup (map fst (filter f m)).
Proof.
  induction m as [|p m IH]; simpl; auto.
  intro H. inversion H as [|? ? Hni Hnd]; subst.
  destruct (f p); simpl; auto. constructor; auto.
  intro Hin. apply Hni. apply in_map_iff in Hin as [q [E Hq]].
  apply filter_In in Hq as [Hq _]. apply in_map_iff. eauto.
Qed.

(** No listing shows a room twice, and in part_000 every listed room has
    a recorded activity time, so that the fallback [|| 0] of the
    comparator is never taken for a listed room. *)
Theorem listings_are_duplicate_free (es : list event) (scope : option string) :
  NoDup (ServerJs.list_rooms (state_after server_js es)) /\
  NoDup (Part000.list_rooms scope (state_after part_000 es)) /\
  (forall k, In k (Part000.list_rooms scope (state_after part_000 es)) ->
     exists t, Js.map_get k (roomUpdated (state_after part_000 es)) = Some t).
Proof.
  pose proof (wf_state_after server_js es) as WA.
  pose proof (wf_state_after part_000 es) as W.
  pose proof (wfB_state_after es) as WB.
  destruct (history_ok_state_after es) as [Hnd Hst].
  set (s := state_after part_000 es) in *.
  assert (Hperm : Permutation (Part000.list_rooms scope s)
            (if (Js.or_default scope "active" =? "all")%string then allRooms s
             else map fst (filter (fun p => 0 <? set_size (snd p) s) (rooms s)))).
  { unfold Part000.list_rooms. apply (sort_perm (Part000.activity s)). }
  split; [|split].
  - unfold ServerJs.list_rooms. apply NoDup_map_fst_filter, WA.
  - eapply Permutation_NoDup; [symmetry; exact Hperm|].
    destruct (Js.or_default scope "active" =? "all")%string; auto.
    apply NoDup_map_fst_filter, W.
  - intros k Hk. apply (Permutation_in _ Hperm) in Hk.
    assert (Hin : In k (allRooms s)).
    { destruct (Js.or_default scope "active" =? "all")%string; auto.
      apply in_map_iff in Hk as [[k' r] [E Hk]]. simpl in E; subst k'.
      apply filter_In in Hk as [Hk _].
      eapply b_seen_key; eauto. apply In_map_get; eauto. apply W. }
    apply Hst in Hin. destruct (Js.map_get k (roomUpdated s)) as [t|]; [eauto|congruence].
Qed.

Lemma hd_of_sorted (key : string -> Z) (r : string) (l : list string) :
  StronglySorted (fun a b => (key a >= key b)%Z) l -> In r l ->
  (forall k, In k l -> k <> r -> (key k < key r)%Z) ->
  hd_error l = Some r.
Proof.
  intros Hs Hin Hlt. destruct l as [|h t]; [destruct Hin|]. simpl. f_equal.
  destruct (String.eqb_spec h r) as [E|E]; auto.
  destruct Hin as [Hin|Hin]; [congruence|].
  inversion Hs as [|? ? _ Hf]; subst.
  rewrite Forall_forall in Hf. specialize (Hf r Hin). simpl in Hf.
  specialize (Hlt h (or_introl eq_refl) E). lia.
Qed.

Lemma activity_touch r now s k :
  Part000.activity (Part000.touch r now s) k =
  if (r =? k)%string then now else Part000.activity s k.
Proof.
  unfold Part000.activity. simpl. rewrite map_get_set.
  now destruct (r =? k)%string.
Qed.

(** A room that just relayed a message heads the listing of scope [all]
    in part_000, provided the clock reading of that message is later than
    the recorded activity of every other room. *)
Theorem fresh_room_is_listed_first (es : list event) (ws : conn) (msg : message)
    (now : Z) (r t : string) :
  let s := state_after part_000 es in
  let s' := fst (handle part_000 s (Message ws (Some msg) now)) in
  tracked ws s = true -> msg_type msg = Some "msg"%string ->
  truthy_room (get_meta ws s) = Some r -> accepted_text msg = Some t ->
  (forall k, k <> r -> (Part000.activity s k < now)%Z) ->
  hd_error (Part000.list_rooms (Some "all"%string) s') = Some r /\
  Part000.activity s' r = now.
Proof.
  intros s s' T Hm Hr Ht Hclock. subst s'.
  pose proof (wfB_state_after es) as WB. fold s in WB.
  assert (Hst : fst (handle part_000 s (Message ws (Some msg) now)) =
                Part000.touch r now s).
  { rewrite handle_msg by assumption. unfold Part000.on_msg. now rewrite Hr, Ht. }
  rewrite Hst.
  assert (Hself : Part000.activity (Part000.touch r now s) r = now)
    by (rewrite activity_touch; now rewrite String.eqb_refl).
  split; auto.
  apply (hd_of_sorted (Part000.activity (Part000.touch r now s))).
  - unfold Part000.list_rooms. apply sort_sorted.
  - apply In_list_rooms_all. simpl.
    apply truthy_room_Some in Hr as [Hr _]. eapply b_seen; eauto.
  - intros k _ Hne. rewrite Hself, activity_touch.
    destruct (String.eqb_spec r k); [congruence|]. now apply Hclock.
Qed.

Lemma fresh_room_is_listed_first_witness :
  let es := [Connect; Connect; Message 0 (join "a" "Alice") 10;
             Message 1 (join "b" "Bob") 20] in
  let msg := Msg (Some "msg"%string) None None (Some "hi"%string) in
  let s := state_after part_000 es in
  let s' := fst (handle part_000 s (Message 0 (Some msg) 30)) in
  hd_error (Part000.list_rooms (Some "all"%string) s') = Some "a"%string /\
  Part000.activity s' "a" = 30%Z.
Proof.
  intros es msg.
  apply (fresh_room_is_listed_first es 0 msg 30 "a"%string "hi"%string);
    try reflexivity.
  intros k Hk. unfold Part000.activity.
  change (roomUpdated (state_after part_000 es))
    with [("a"%string, 10%Z); ("b"%string, 20%Z)].
  cbn [Js.map_get].
  destruct (String.eqb_spec "a" k) as [E|_]; [congruence|].
  destruct ("b" =? k)%string; lia.
Defined.

Lemma listings_are_duplicate_free_witness :
  let es := [Connect; Message 0 (join "r1" "Alice") 7] in
  exists t, Js.map_get "r1" (roomUpdated (state_after part_000 es)) = Some t.
Proof.
  intro es.
  apply (proj2 (proj2 (listings_are_duplicate_free es None))).
  vm_compute. left; reflexivity.
Defined.

(* ------------------------------------------------------------------ *)
(** ** More on liveness *)

Lemma not_closed_tracked c s : ready_of c s <> CLOSED -> tracked c s = true.
Proof.
  intro H. apply tracked_spec. split; auto.
  destruct (Nat.lt_ge_cases c (length (conns s))) as [Hl|Hl]; auto.
  exfalso. apply H. unfold ready_of, get_conn. now rewrite nth_overflow.
Qed.

(** One run of the interval callback touches liveness only.  The registry
    and every meta object are what they were, so a terminated socket keeps
    its place in its room until its ["close"] event.  Every effect is a
    ping or a terminate of a tracked socket, and every tracked socket gets
    one of the two, never both. *)
Theorem tick_touches_liveness_only (v : variant) (s : state) :
  let r := handle v s Tick in
  (forall k, room_members (fst r) k = room_members s k) /\
  rooms (fst r) = rooms s /\
  (forall c, get_meta c (fst r) = get_meta c s) /\
  (forall e, In e (snd r) ->
     tracked (target e) s = true /\ (e = Ping (target e) \/ e = Terminate (target e))) /\
  (forall c, tracked c s = true ->
     (In (Ping c) (snd r) \/ In (Terminate c) (snd r)) /\
     ~ (In (Ping c) (snd r) /\ In (Terminate c) (snd r))).
Proof.
  intro r. subst r. cbn [handle].
  destruct (heartbeat_fields s) as (H1 & H2 & _ & _ & H3 & _).
  split; [|split; [|split; [|split]]]; auto.
  - intro k. now apply room_members_same.
  - intros e He. unfold heartbeat in He.
    pose proof (heartbeat_from_effects 0 (conns s) e) as Hh.
    destruct (heartbeat_from 0 (conns s)) as [cs es]. cbn [snd] in *.
    apply Hh in He as [j (Hj1 & Hj2 & ->)]. simpl.
    destruct (isAlive (nth j (conns s) no_conn)); simpl;
      (split; [apply not_closed_tracked; exact Hj2 | auto]).
  - intros c T. apply tracked_spec in T as [Hl Hr].
    destruct (tick_effects s c Hl Hr) as [Hp Ht].
    destruct (isAlive (get_conn c s)) eqn:E.
    + split; [left; now apply Hp|]. intros [_ H]. apply Ht in H. congruence.
    + split; [right; now apply Ht|]. intros [H _]. apply Hp in H. congruence.
Qed.

Lemma tick_touches_liveness_only_witness :
  let s := state_after part_000 [Connect; Message 0 (join "r1" "Alice") 1; Tick] in
  In (Terminate 0) (snd (handle part_000 s Tick)) /\
  room_members (fst (handle part_000 s Tick)) "r1" = room_members s "r1".
Proof.
  intro s.
  destruct (tick_touches_liveness_only part_000 s) as (H1 & _ & _ & _ & H5).
  split; [|apply H1].
  destruct (H5 0 eq_refl) as [[H|H] _]; [|exact H].
  exfalso. revert H. vm_compute. intros [H|[]]. discriminate.
Defined.

Lemma lively_steady ws c f s s' :
  steady f -> conns s' = upd_nth c f (conns s) -> lively ws s -> lively ws s'.
Proof.
  intros Hf Hc (H1 & H2 & H3). unfold lively, ready_of.
  rewrite (get_conn_upd_nth ws c f s s' Hc), Hc, length_upd_nth.
  split; auto.
  destruct (Nat.eqb c ws && (c <? length (conns s)))%bool eqn:E; auto.
  apply andb_prop in E as [E _]. apply Nat.eqb_eq in E; subst c.
  destruct (Hf (get_conn ws s)) as [Ha Hr]. rewrite Ha. split; auto.
  unfold ready_of in H2. tauto.
Qed.

Lemma lively_other ws c f s : c <> ws -> lively ws s -> lively ws (upd_conn c f s).
Proof.
  intros Hc (H1 & H2 & H3). unfold lively, ready_of, get_conn, upd_conn; simpl.
  rewrite length_upd_nth, nth_upd_nth_other by assumption. auto.
Qed.

Lemma lively_handle v ws s e :
  calm ws e = true -> lively ws s -> lively ws (fst (handle v s e)).
Proof.
  intros Hq F. destruct e as [|c data now|c now|c| |c]; cbn [handle calm] in *;
    try discriminate.
  - cbn [fst]. destruct F as (H1 & H2 & H3).
    unfold lively, ready_of, get_conn in *; simpl.
    rewrite length_app, app_nth1 by assumption. simpl. repeat split; auto. lia.
  - destruct (tracked c s); auto.
    destruct (conns_on_message v c data now s) as [f [Hf Hc]].
    eapply lively_steady; eauto.
  - destruct (tracked c s); auto.
    apply negb_true_iff, Nat.eqb_neq in Hq.
    apply (lively_steady ws ws (fun x => x) (upd_conn c (with_ready CLOSED) s)).
    + apply steady_id.
    + rewrite upd_nth_id. apply conns_on_close.
    + now apply lively_other.
  - destruct (tracked c s); auto. cbn [fst].
    destruct (Nat.eq_dec c ws) as [->|Hne]; [|now apply lively_other].
    destruct F as (H1 & H2 & H3). unfold lively, ready_of, get_conn, upd_conn in *.
    simpl. rewrite length_upd_nth, nth_upd_nth_same by assumption. simpl. auto.
  - destruct (tracked c s); auto. cbn [fst].
    eapply lively_steady; [apply steady_closing| |exact F]. reflexivity.
Qed.

Lemma lively_run v ws es : forall s,
  forallb (calm ws) es = true -> lively ws s -> lively ws (fst (run v s es)).
Proof.
  induction es as [|e es IH]; intros s Hq F; simpl in *; auto.
  apply andb_prop in Hq as [Hq1 Hq2].
  pose proof (lively_handle v ws s e Hq1 F) as F1.
  destruct (handle v s e) as [s1 o1]. specialize (IH s1 Hq2 F1).
  now destruct (run v s1 es).
Qed.

(** A socket that answers is not reclaimed.  After a pong of a tracked
    socket, and whatever else happens short of a tick or the socket's own
    ["close"], the next tick pings the socket and does not terminate
    it. *)
Theorem pong_spares_socket (v : variant) (s : state) (ws : conn) (es : list event) :
  let s' := fst (run v s (Pong ws :: es)) in
  tracked ws s = true -> forallb (calm ws) es = true ->
  In (Ping ws) (snd (handle v s' Tick)) /\ ~ In (Terminate ws) (snd (handle v s' Tick)).
Proof.
  intros s' T Hq. subst s'.
  assert (L : lively ws (fst (handle v s (Pong ws)))).
  { cbn [handle]. rewrite T. cbn [fst]. apply tracked_spec in T as [Hl Hr].
    unfold lively, ready_of, get_conn, upd_conn in *. simpl.
    rewrite length_upd_nth, nth_upd_nth_same by assumption. simpl. auto. }
  assert (L' : lively ws (fst (run v s (Pong ws :: es)))).
  { cbn [run]. destruct (handle v s (Pong ws)) as [s1 o1]. cbn [fst] in L.
    pose proof (lively_run v ws es s1 Hq L). now destruct (run v s1 es). }
  destruct L' as (H1 & H2 & H3). cbn [handle].
  destruct (tick_effects _ ws H1 H2) as [Hp Ht]. split.
  - now apply Hp.
  - intro H. apply Ht in H. congruence.
Qed.

Lemma pong_spares_socket_witness :
  let s := state_after part_000 [Connect; Connect; Message 0 (join "r1" "Alice") 1; Tick] in
  let s' := fst (run part_000 s (Pong 0 :: [Message 1 (join "r1" "Bob") 2; Pong 1])) in
  In (Ping 0) (snd (handle part_000 s' Tick)) /\
  ~ In (Terminate 0) (snd (handle part_000 s' Tick)).
Proof.
  intro s.
  apply (pong_spares_socket part_000 s 0 [Message 1 (join "r1" "Bob") 2; Pong 1]);
    reflexivity.
Defined.

(* ------------------------------------------------------------------ *)
(** ** Whom the effects are addressed to *)

Lemma In_broadcast_target e roomId p except s :
  In e (broadcast roomId p except s) -> ready_of (target e) s = OPEN.
Proof.
  rewrite broadcast_room_members. intro H.
  apply in_map_iff in H as [c [<- H]]. apply filter_In in H as [_ H].
  apply andb_prop in H as [H _]. simpl. now apply is_open_spec.
Qed.

Lemma on_message_targets v ws data now s e :
  In e (snd (on_message v ws data now s)) ->
  target e = ws \/ ready_of (target e) (fst (on_message v ws data now s)) = OPEN.
Proof.
  assert (Hmsg : forall r text (s' : state),
            ready_of (target e) s' = ready_of (target e) s ->
            In e (Send ws (PMsg (name (get_meta ws s)) text now)
                    :: broadcast r (PMsg (name (get_meta ws s)) text now) (Some ws) s) ->
            target e = ws \/ ready_of (target e) s' = OPEN).
  { intros r text s' Hs' [<-|H]; [now left|]. right. rewrite Hs'.
    eapply In_broadcast_target; eauto. }
  assert (Hrej : In e [Send ws (PError "room_full"); Close ws 1008 "Room full"] ->
                 target e = ws) by (intros [<-|[<-|[]]]; reflexivity).
  destruct v; cbn [on_message]; unfold ServerJs.on_message, Part000.on_message;
    (destruct data as [msg|]; [|intros []]);
    (destruct (msg_type msg) as [t|]; [|intros []]);
    destruct (t =? "join")%string.
  - unfold ServerJs.on_join.
    destruct (get_or_create (join_room msg) s) as [set s1].
    destruct (2 <=? set_size set s1); cbn [fst snd].
    + intro H. left. now apply Hrej.
    + intros [<-|H]; [now left|]. right. eapply In_broadcast_target; eauto.
  - destruct (t =? "msg")%string; [|intros []]. unfold ServerJs.on_msg.
    destruct (truthy_room (get_meta ws s)) as [r|]; [|intros []].
    destruct (accepted_text msg) as [text|]; [|intros []].
    cbn [fst snd]. now apply Hmsg.
  - unfold Part000.on_join.
    destruct (negb (Js.truthy (join_room msg))); cbn [fst snd].
    { intros [<-|[]]. now left. }
    destruct (get_or_create (join_room msg) (leave_old ws s)) as [set s2].
    destruct (2 <=? set_size set s2); cbn [fst snd].
    + intro H. left. now apply Hrej.
    + intros [<-|H]; [now left|]. right. eapply In_broadcast_target; eauto.
  - destruct (t =? "msg")%string; [|intros []]. unfold Part000.on_msg.
    destruct (truthy_room (get_meta ws s)) as [r|]; [|intros []].
    destruct (accepted_text msg) as [text|]; [|intros []].
    cbn [fst snd]. now apply Hmsg.
Qed.

Lemma on_close_targets v ws now s e :
  In e (snd (on_close v ws now s)) -> ready_of (target e) s = OPEN.
Proof.
  destruct v; cbn [on_close]; unfold ServerJs.on_close, Part000.on_close;
    (destruct (truthy_room (get_meta ws s)) as [r|]; [|intros []]);
    (destruct (Js.map_get r (rooms s)) as [set|]; [|intros []]);
    (destruct (set_size set (sets_delete set ws s) =? 0); cbn [snd]; [intros []|]);
    intro H; apply In_broadcast_target in H; exact H.
Qed.

Lemma heartbeat_target_tracked s e :
  In e (snd (heartbeat s)) -> tracked (target e) s = true.
Proof.
  intro He. unfold heartbeat in He.
  pose proof (heartbeat_from_effects 0 (conns s) e) as Hh.
  destruct (heartbeat_from 0 (conns s)) as [cs es]. cbn [snd] in *.
  apply Hh in He as [j (Hj1 & Hj2 & ->)]. simpl.
  destruct (isAlive (nth j (conns s) no_conn)); simpl;
    apply not_closed_tracked; exact Hj2.
Qed.

(** Every effect of a listener is addressed to a socket that is tracked
    when the event arrives. *)
Lemma effects_target_tracked v s e0 e :
  In e (snd (handle v s e0)) -> tracked (target e) s = true.
Proof.
  destruct e0 as [|ws data now|ws now|ws| |ws]; cbn [handle];
    try (destruct (tracked ws s); intros []; fail); try (intros []; fail).
  - destruct (tracked ws s) eqn:T; [|intros []].
    intro H. apply on_message_targets in H as [->|H]; auto.
    destruct (conns_on_message v ws data now s) as [f [Hf Hc]].
    apply not_closed_tracked. unfold ready_of in *.
    rewrite (get_conn_upd_nth (target e) ws f s _ Hc) in H.
    destruct (Nat.eqb ws (target e) && (ws <? length (conns s)))%bool eqn:E.
    + apply andb_prop in E as [E _]. apply Nat.eqb_eq in E. rewrite <- E.
      destruct (Hf (get_conn ws s)) as [_ Hr]. intro Hcl. apply Hr in Hcl. congruence.
    + congruence.
  - destruct (tracked ws s) eqn:T; [|intros []].
    intro H. apply on_close_targets in H. rewrite ready_of_upd_conn in H.
    apply not_closed_tracked.
    destruct (Nat.eqb ws (target e) && (ws <? length (conns s)))%bool.
    + simpl in H. discriminate.
    + congruence.
  - intro H. now apply heartbeat_target_tracked.
Qed.

Lemma closed_upd c ws f s s' :
  (forall x, ready x = CLOSED -> ready (f x) = CLOSED) ->
  conns s' = upd_nth ws f (conns s) -> closed c s -> closed c s'.
Proof.
  intros Hf Hc [H1 H2]. unfold closed, ready_of in *.
  rewrite (get_conn_upd_nth c ws f s s' Hc), Hc, length_upd_nth. split; auto.
  destruct (Nat.eqb ws c && (ws <? length (conns s)))%bool eqn:E; auto.
  apply andb_prop in E as [E _]. apply Nat.eqb_eq in E; subst ws. now apply Hf.
Qed.

Lemma closed_handle v c s e : closed c s -> closed c (fst (handle v s e)).
Proof.
  intro H. destruct e as [|ws data now|ws now|ws| |ws]; cbn [handle].
  - cbn [fst]. destruct H as [H1 H2]. unfold closed, ready_of, get_conn in *. simpl.
    rewrite length_app, app_nth1 by assumption. split; auto. lia.
  - destruct (tracked ws s); auto.
    destruct (conns_on_message v ws data now s) as [f [Hf Hc]].
    apply (closed_upd c ws f s); auto. intros x Hx. now apply Hf.
  - destruct (tracked ws s); auto.
    apply (closed_upd c ws (with_ready CLOSED) s); auto.
    now rewrite conns_on_close.
  - destruct (tracked ws s); auto. cbn [fst].
    apply (closed_upd c ws (with_alive true) s); auto.
  - destruct H as [H1 H2]. unfold closed, ready_of in *.
    rewrite get_conn_heartbeat.
    destruct (heartbeat_fields s) as (_ & _ & _ & _ & _ & Hl). rewrite Hl.
    split; auto. unfold beat. now rewrite H2.
  - destruct (tracked ws s); auto. cbn [fst].
    apply (closed_upd c ws closing s); auto.
    intros x Hx. unfold closing. now rewrite Hx.
Qed.

(** Once the ["close"] event of a socket has happened, neither program
    ever addresses anything to it again: no frame, no close, no ping and
    no terminate, whatever events follow. *)
Theorem nothing_for_a_closed_socket (v : variant) (s : state) (c : conn)
    (es : list event) (e : effect) :
  closed c s -> In e (snd (run v s es)) -> target e <> c.
Proof.
  revert s. induction es as [|e0 es IH]; intros s Hc; simpl; [tauto|].
  pose proof (closed_handle v c s e0 Hc) as Hc1.
  pose proof (effects_target_tracked v s e0 e) as Ht.
  destruct (handle v s e0) as [s1 o1]. cbn [fst snd] in *.
  specialize (IH s1 Hc1). destruct (run v s1 es) as [s2 o2]. cbn [snd] in *.
  intro H. apply in_app_or in H as [H|H]; auto.
  apply Ht in H. apply tracked_spec in H as [_ H].
  destruct Hc as [_ Hc]. congruence.
Qed.

Lemma nothing_for_a_closed_socket_witness :
  let s := state_after part_000
             [Connect; Connect; Message 0 (join "r1" "Alice") 1;
              Message 1 (join "r1" "Bob") 2; CloseEv 0 3] in
  target (Send 1 (PMsg "Bob" "hi" 4)) <> 0.
Proof.
  intro s.
  apply (nothing_for_a_closed_socket part_000 s 0 [Message 1 (say "hi") 4; Tick]).
  - split; [vm_compute; lia | reflexivity].
  - vm_compute. left; reflexivity.
Defined.

(* ------------------------------------------------------------------ *)
(** ** A socket that never joined *)

Lemma unjoined_run v ws es : forall s,
  existsb (joins_of ws) es = false -> room (get_meta ws s) = None ->
  room (get_meta ws (fst (run v s es))) = None.
Proof.
  induction es as [|e es IH]; intros s Hj Hn; simpl in *; auto.
  apply orb_false_iff in Hj as [Hj1 Hj2].
  assert (Hm : get_meta ws (fst (handle v s e)) = get_meta ws s).
  { apply meta_frame. intro E. unfold joins_of in Hj1. rewrite E in Hj1.
    now rewrite Nat.eqb_refl in Hj1. }
  destruct (handle v s e) as [s1 o1]. cbn [fst] in *.
  specialize (IH s1 Hj2). rewrite Hm in IH. specialize (IH Hn).
  now destruct (run v s1 es).
Qed.

(** A socket that has sent no join frame has no room reference, whatever
    else has happened, and a chat frame from it is dropped by both
    programs: nothing is sent, not even the echo, and nothing changes. *)
Theorem never_joined_cannot_chat (v : variant) (es : list event) (ws : conn)
    (msg : message) (now : Z) :
  let s := state_after v es in
  existsb (joins_of ws) es = false -> msg_type msg = Some "msg"%string ->
  room (get_meta ws s) = None /\
  handle v s (Message ws (Some msg) now) = (s, []).
Proof.
  intros s Hj Hm.
  assert (Hn : room (get_meta ws s) = None).
  { apply unjoined_run; auto. unfold get_meta, get_conn. simpl. now destruct ws. }
  split; auto. cbn [handle]. destruct (tracked ws s); auto.
  destruct v; cbn [on_message]; unfold ServerJs.on_message, Part000.on_message;
    rewrite Hm; cbn; unfold ServerJs.on_msg, Part000.on_msg, truthy_room;
    now rewrite Hn.
Qed.

Lemma never_joined_cannot_chat_witness :
  let es := [Connect; Connect; Message 0 (join "r1" "Alice") 1; Message 1 (say "hi") 2] in
  let s := state_after part_000 es in
  room (get_meta 1 s) = None /\
  handle part_000 s (Message 1 (Some (Msg (Some "msg"%string) None None (Some "yo"%string))) 3)
  = (s, []).
Proof.
  intros es s.
  apply (never_joined_cannot_chat part_000 es 1); reflexivity.
Defined.
